(** * rteval_parserd: the submission-queue dispatcher

    A shallow embedding of [server/parser/rteval_parserd.c]: the signal
    catcher, the reader of the message-queue limit, the polling loop and the
    start-up and tear-down sequence of [main].

    Conventions.  C [int]s are [Z]; [unsigned int] is a [Z] reduced modulo
    2^32 where the source converts.  Everything the program does to the
    outside world (library calls, lines on stderr) is appended to a list of
    [action]s, oldest first.  What the outside world answers is read from an
    explicit environment. *)

From Stdlib Require Import ZArith Lia String Ascii List Bool.
From stdpp Require Import base list.
Import ListNotations.
Local Open Scope Z_scope.

(** ** Data *)

(** Modelled from the spec: the [jobStatus] enumeration and the [parseJob_t]
    structure are declared in parsethread.h, which is not among the sources.
    The source only names [jbNONE]; the spec lists the statuses none, claimed
    and the terminal ones owned by the processing routine. *)
Inductive jobStatus := jbNONE | jbCLAIMED | jbTERMINAL (code : Z).

Record parseJob_t := mkJob {
  status : jobStatus;
  submid : Z;
  filename : string
}.

#[global] Instance jobStatus_eq_dec : EqDecision jobStatus.
Proof. solve_decision. Defined.

#[global] Instance parseJob_eq_dec : EqDecision parseJob_t.
Proof.
  unfold EqDecision, Decision. decide equality;
    [apply string_dec | apply Z.eq_dec | apply jobStatus_eq_dec].
Defined.

(** The address of the shutdown flag, as passed to [db_wait_notification]. *)
Inductive flag_ref := addr_shutdown.

(** Owner of a database connection. *)
Inductive owner := Dispatcher | Worker (i : nat).

(** What the program does, as seen from outside.  [Stderr] carries the format
    string as it is written in the source; its arguments are not recorded. *)
Inductive action :=
| Stderr (fmt : string)
(* start-up *)
| XsltInit | XmlInitParser | ReadConfig
| XsltParseStylesheetFile (path : string)
| MqOpen (maxmsg : Z)
| DbConnect (o : owner)
| MallocThrdata (i : nat) | MallocAttr (i : nat) | MallocThread (i : nat)
| PthreadCreate (i : nat)
(* polling loop *)
| GetJob
| FreeJob (j : parseJob_t)
| WaitNotification (flag : flag_ref) (channel : string)
| MqSend (j : parseJob_t)
| Sleep (seconds : Z)
(* tear-down *)
| PthreadJoin (i : nat) (started : bool)
| AttrDestroy (i : nat)
| FreeThread (i : nat) | FreeAttr (i : nat)
| DbDisconnect (o : owner) (connected : bool)
| FreeThrdata (i : nat)
| FreeArrays
| MqClose | MqUnlink
| FreeConfig | XsltFreeStylesheet | XmlCleanupParser | XsltCleanupGlobals.

#[global] Instance owner_eq_dec : EqDecision owner.
Proof. solve_decision. Defined.

#[global] Instance flag_ref_eq_dec : EqDecision flag_ref.
Proof. solve_decision. Defined.

#[global] Instance action_eq_dec : EqDecision action.
Proof.
  unfold EqDecision, Decision. decide equality; try apply flag_ref_eq_dec;
    try apply string_dec; try apply Z.eq_dec; try apply Nat.eq_dec;
    try apply Bool.bool_dec; try apply owner_eq_dec; apply parseJob_eq_dec.
Defined.

(** ** Process-wide state *)

Definition SIGINT : Z := 2.
Definition SIGTERM : Z := 15.

(** Disposition of a signal: the default action, or the catcher below. *)
Inductive disposition := SIG_DFL | Catch_sigcatch.

(** [shutdown] is the global of line 44; the two dispositions are what
    [signal] last installed; [out] is everything done so far. *)
Record globals := mkGlobals {
  shutdown : Z;
  on_sigint : disposition;
  on_sigterm : disposition;
  out : list action
}.

Definition set_shutdown (v : Z) (g : globals) : globals :=
  mkGlobals v (on_sigint g) (on_sigterm g) (out g).

Definition emit (a : action) (g : globals) : globals :=
  mkGlobals (shutdown g) (on_sigint g) (on_sigterm g) (out g ++ [a]).

Definition emits (l : list action) (g : globals) : globals :=
  mkGlobals (shutdown g) (on_sigint g) (on_sigterm g) (out g ++ l).

(** [signal(signum, sigcatch)] for the two signals the program handles. *)
Definition signal (signum : Z) (d : disposition) (g : globals) : globals :=
  if signum =? SIGINT then mkGlobals (shutdown g) d (on_sigterm g) (out g)
  else if signum =? SIGTERM then mkGlobals (shutdown g) (on_sigint g) d (out g)
  else g.

(** The state the process starts in. *)
Definition boot : globals := mkGlobals 0 SIG_DFL SIG_DFL [].

(** ** sigcatch (lines 53-65) *)

Definition msg_starting : string :=
  "** SIGNAL ** Starting shutting down\n".
Definition msg_in_progress : string :=
  "** SIGNAL ** Shutdown in progress ... please be patient ...\n".

Definition sigcatch (sig : Z) (g : globals) : globals :=
  let g1 :=
    if shutdown g =? 0
    then emit (Stderr msg_starting) (set_shutdown 1 g)
    else emit (Stderr msg_in_progress) g in
  signal SIGTERM Catch_sigcatch (signal SIGINT Catch_sigcatch g1).

(** Several deliveries in a row, each with its signal number. *)
Definition deliver (sigs : list Z) (g : globals) : globals :=
  fold_left (fun g s => sigcatch s g) sigs g.

(** ** get_mqueue_msg_max (lines 74-105) *)

Definition DEFAULT_MSG_MAX : Z := 5.

(** The C library's view of a byte string. *)
Definition isspace (c : ascii) : bool :=
  let n := Z.of_nat (nat_of_ascii c) in
  (n =? 32) || ((9 <=? n) && (n <=? 13)).

Definition digit (c : ascii) : option Z :=
  let n := Z.of_nat (nat_of_ascii c) in
  if (48 <=? n) && (n <=? 57) then Some (n - 48) else None.

Fixpoint skip_space (s : string) : string :=
  match s with
  | String c r => if isspace c then skip_space r else s
  | EmptyString => s
  end.

Fixpoint digits (s : string) (acc : Z) : Z :=
  match s with
  | String c r =>
      match digit c with
      | Some d => digits r (10 * acc + d)
      | None => acc
      end
  | EmptyString => acc
  end.

Definition LONG_MAX : Z := 2 ^ 63 - 1.
Definition LONG_MIN : Z := - 2 ^ 63.

Definition clamp_long (x : Z) : Z := Z.max LONG_MIN (Z.min LONG_MAX x).

(** [strtol(s, NULL, 10)]: blanks, an optional sign, decimal digits; out of
    range values are clamped. *)
Definition strtol (s : string) : Z :=
  match skip_space s with
  | String "-"%char r => clamp_long (- digits r 0)
  | String "+"%char r => clamp_long (digits r 0)
  | r => clamp_long (digits r 0)
  end.

(** Conversion to [int] and to [unsigned int] (32 bits). *)
Definition to_int (x : Z) : Z := (x + 2 ^ 31) mod 2 ^ 32 - 2 ^ 31.
Definition to_uint (x : Z) : Z := x mod 2 ^ 32.

(** [atoi] as the C library defines it: [(int) strtol(s, NULL, 10)]. *)
Definition atoi (s : string) : Z := to_int (strtol s).

(** The bytes of a buffer up to its first NUL. *)
Fixpoint cstring (s : string) : string :=
  match s with
  | String c r => if Ascii.eqb c zero then EmptyString else String c (cstring r)
  | EmptyString => EmptyString
  end.

(** Modelled from the spec: [atoi_nullsafe] is a macro of eurephia_nullsafe.h,
    which is not among the sources.  The spec only says that the limit is
    read and parsed; the macro is taken to be the C library's [atoi] guarded
    against a NULL argument ([None] stands for NULL). *)
Definition atoi_nullsafe (buf : option string) : Z :=
  match buf with
  | Some s => atoi (cstring s)
  | None => 0
  end.

(** /proc/sys/fs/mqueue/msg_max as the function finds it: [fopen] fails, or
    [fread] delivers nothing, or [fread] delivers the bytes of the file. *)
Inductive msg_max_file := Unopenable | Unreadable | Readable (data : string).

(** [fread(&buf, 1, 128, fp)] into the zeroed 130-byte buffer: the bytes now
    in the buffer and the number of items read. *)
Definition fread128 (f : msg_max_file) : string * Z :=
  match f with
  | Readable data =>
      let got := substring 0 128 data in (got, Z.of_nat (String.length got))
  | _ => (EmptyString, 0)
  end.

Definition msg_cannot_open : string :=
  "** ERROR **  Could not open /proc/sys/fs/mqueue/msg_max, defaulting to %i\n".
Definition msg_cannot_read : string :=
  "** ERROR **  Could not read /proc/sys/fs/mqueue/msg_max, defaulting to %i\n".
Definition msg_cannot_parse : string :=
  "** ERROR **  Failed to parse /proc/sys/fs/mqueue/msg_max,defaulting to %i\n".
Definition msg_strerror : string := "** ERROR **  %s\n".

(** The value returned and the lines written to stderr. *)
Definition get_mqueue_msg_max (f : msg_max_file) : Z * list action :=
  let msg_max := DEFAULT_MSG_MAX in
  match f with
  | Unopenable => (msg_max, [Stderr msg_cannot_open; Stderr msg_strerror])
  | _ =>
      let '(buf, n) := fread128 f in
      if n <? 1
      then (msg_max, [Stderr msg_cannot_read; Stderr msg_strerror])
      else
        let msg_max := to_uint (atoi_nullsafe (Some buf)) in
        if msg_max <? 1
        then (DEFAULT_MSG_MAX, [Stderr msg_cannot_parse])
        else (msg_max, [])
  end.

(** ** process_submission_queue (lines 117-165) *)

Definition EAGAIN : Z := 11.

Definition msg_no_job : string :=
  "** ERROR **  Failed to get submission queue job - shutting down\n".
Definition msg_wait_failed : string :=
  "** ERROR **  Failed to wait for DB notification\n".
Definition msg_new_job : string := "** New job: submid %i, %s\n".
Definition msg_send_failed : string :=
  "** ERROR **  Could not send parse job to the queue\n".
Definition msg_queue_full : string :=
  "** WARNING **  Message queue filled up.  Will not add new messages to queue for the next 60 seconds\n".

(** What the outside world does during one step of the loop.  A step makes at
    most one blocking call and reads the field that answers it:
    - [signals]: the SIGINT/SIGTERM deliveries while the call is in progress;
    - [job_ret]: what [db_get_submissionqueue_job] returns ([None] is NULL);
    - [notify_ret]: what [db_wait_notification] returns;
    - [send_ret], [send_errno]: what [mq_send] returns and the value of
      [errno] after it ([errno] is cleared just before the call);
    - [sleep_errno]: the value the [fprintf] and [sleep] of the cool-down
      leave in [errno], [None] when they leave it alone. *)
Record tick := mkTick {
  signals : list Z;
  job_ret : option parseJob_t;
  notify_ret : Z;
  send_ret : Z;
  send_errno : Z;
  sleep_errno : option Z
}.

(** Where the loop stands between two steps. *)
Inductive ploc :=
| Polling                      (* at the test of line 122 *)
| Waiting                      (* inside db_wait_notification, line 133 *)
| Sending (job : parseJob_t)   (* at the top of the do-while, line 144 *)
| Cooling (job : parseJob_t)   (* inside sleep(60), line 158 *)
| Returned.                    (* after line 164 *)

Record pstate := mkP {
  pg : globals;
  errno : Z;
  rc : Z;
  at_ : ploc
}.

(** The three error exits: the line on stderr, [shutdown = 1], [rc = code],
    [goto exit]. *)
Definition bail_out (code : Z) (msg : string) (g : globals) (e : Z) : pstate :=
  mkP (set_shutdown 1 (emit (Stderr msg) g)) e code Returned.

(** One step of the loop, from one blocking call to the next.
    - [Polling]: the test of line 122; if the flag is clear, the claim of
      line 124 and what lines 125-143 do with its answer.
    - [Waiting]: the answer of [db_wait_notification], lines 133-139.
    - [Sending]: lines 147-159, from [errno = 0] to the call of [sleep]; when
      the do-while is not to be repeated, also line 161.
    - [Cooling]: the return of [sleep] and the test of line 160. *)
Definition step (s : pstate) (t : tick) : pstate :=
  match at_ s with
  | Polling =>
      if shutdown (pg s) =? 0 then
        let g := deliver (signals t) (emit GetJob (pg s)) in
        match job_ret t with
        | None => bail_out 1 msg_no_job g (errno s)
        | Some job =>
            match status job with
            | jbNONE =>
                mkP (emit (WaitNotification addr_shutdown "rteval_submq") (emit (FreeJob job) g))
                    (errno s) (rc s) Waiting
            | _ => mkP (emit (Stderr msg_new_job) g) (errno s) (rc s) (Sending job)
            end
        end
      else mkP (pg s) (errno s) (rc s) Returned
  | Waiting =>
      let g := deliver (signals t) (pg s) in
      if notify_ret t <? 1
      then bail_out 1 msg_wait_failed g (errno s)
      else mkP g (errno s) (rc s) Polling
  | Sending job =>
      let g := deliver (signals t) (emit (MqSend job) (pg s)) in
      let res := send_ret t in
      let e := send_errno t in
      if (res <? 0) && negb (e =? EAGAIN)
      then bail_out 2 msg_send_failed g e
      else if e =? EAGAIN
      then mkP (emit (Sleep 60) (emit (Stderr msg_queue_full) g)) e (rc s) (Cooling job)
      else mkP (emit (FreeJob job) g) e (rc s) Polling
  | Cooling job =>
      let g := deliver (signals t) (pg s) in
      let e := match sleep_errno t with Some e' => e' | None => errno s end in
      if e =? EAGAIN
      then mkP g e (rc s) (Sending job)
      else mkP (emit (FreeJob job) g) e (rc s) Polling
  | Returned => s
  end.

Definition run (ts : list tick) (s : pstate) : pstate := fold_left step ts s.

(** Entry of the function: [rc = 0], and [errno] is not read before line 147
    clears it. *)
Definition enter (g : globals) : pstate := mkP g 0 0 Polling.

Definition returned (s : pstate) : option Z :=
  match at_ s with Returned => Some (rc s) | _ => None end.

(** The call, against the answers [ts]: the value returned ([None] while the
    loop is still running when the answers end) and the globals then. *)
Definition process_submission_queue (ts : list tick) (g : globals)
  : option Z * globals :=
  let s := run ts (enter g) in (returned s, pg s).

(** ** main (lines 176-347)

    The worker threads themselves ([parsethread]) are not part of the model:
    of a worker only the calls [main] makes for it are recorded.  Signals are
    delivered to the model while the polling loop runs, where the flag is
    read; [pthread_attr_init] and [pthread_attr_setdetachstate] are not
    recorded. *)

Definition max_threads : nat := 5.
Definition XMLPARSER_XSL : string := "xmlparser.xsl".

(** [snprintf(buf, size, "%s/%s", dir, file)]: at most [size - 1] characters
    are stored, the rest is dropped; the value returned is ignored by the
    caller.  A NULL [dir] is printed as "(null)". *)
Definition snprintf_path (size : nat) (dir : option string) (file : string) : string :=
  let d := match dir with Some d => d | None => "(null)"%string end in
  substring 0 (size - 1) (d ++ "/" ++ file)%string.

(** Everything [main] asks of the outside world.  The functions of a slot
    number answer the call made for that worker. *)
Record Env := mkEnv {
  xsltpath : option string;           (* eGet_value(config, "xsltpath") *)
  reportdir : option string;          (* eGet_value(config, "reportdir") *)
  stylesheet_parses : string -> bool; (* xsltParseStylesheetFile != NULL *)
  msg_max : msg_max_file;             (* /proc/sys/fs/mqueue/msg_max *)
  mq_open_ret : Z;
  db_connect_main : bool;             (* db_connect != NULL, main thread *)
  calloc_ok : bool;                   (* the three calloc of lines 225-227 *)
  malloc_thrdata : nat -> bool;       (* malloc_nullsafe != NULL, line 233 *)
  db_connect_thread : nat -> bool;    (* db_connect != NULL, line 241 *)
  malloc_attr : nat -> bool;          (* line 257 *)
  malloc_thread : nat -> bool;        (* line 266 *)
  pthread_create_ret : nat -> Z;
  pthread_join_ret : nat -> Z;
  mq_close_ret : Z;
  mq_unlink_ret : Z;
  poller_ticks : list tick            (* answers to the polling loop *)
}.

(** Modelled from the spec: [threadData_t] is declared in threadinfo.h, which
    is not among the sources.  Of the fields the spec lists for a worker
    context, these are the ones [main] fills in per slot (lines 241-255) and
    reads back (line 317); the pointers shared by all workers (flag, queue,
    mutex, stylesheet) are the same in every slot and are left out. *)
Record threadData_t := mkThreadData {
  td_dbc : bool;                (* the worker's connection is not NULL *)
  td_id : nat;
  td_destdir : option string
}.

(** The locals of [main].  [threads] and [thread_attrs] start as NULL
    ([None]); [thrdata] has no initialiser, and [None] stands for the
    indeterminate value it has until line 227 assigns it.  A slot of
    [threads] is NULL or points to a [pthread_t]; the boolean tells whether
    [pthread_create] has stored a thread in it.  [rc] has no initialiser
    either, but every path assigns it before it is read. *)
Record locals := mkLocals {
  lg : globals;
  threads : option (list (option bool));
  thread_attrs : option (list (option unit));
  thrdata : option (list (option threadData_t));
  dbc : bool;
  main_rc : Z
}.

Definition with_g (f : globals -> globals) (s : locals) : locals :=
  mkLocals (f (lg s)) (threads s) (thread_attrs s) (thrdata s) (dbc s) (main_rc s).
Definition with_rc (v : Z) (s : locals) : locals :=
  mkLocals (lg s) (threads s) (thread_attrs s) (thrdata s) (dbc s) v.
Definition with_dbc (b : bool) (s : locals) : locals :=
  mkLocals (lg s) (threads s) (thread_attrs s) (thrdata s) b (main_rc s).
Definition with_threads (f : list (option bool) -> list (option bool)) (s : locals) : locals :=
  mkLocals (lg s) (f <$> threads s) (thread_attrs s) (thrdata s) (dbc s) (main_rc s).
Definition with_attrs (f : list (option unit) -> list (option unit)) (s : locals) : locals :=
  mkLocals (lg s) (threads s) (f <$> thread_attrs s) (thrdata s) (dbc s) (main_rc s).
Definition with_thrdata (f : list (option threadData_t) -> list (option threadData_t))
    (s : locals) : locals :=
  mkLocals (lg s) (threads s) (thread_attrs s) (f <$> thrdata s) (dbc s) (main_rc s).

(** Why the program stops short of its [return]: the abort of a failed
    [assert], a read of a variable that was never assigned, or because the
    polling loop is still running when the answers given to it end. *)
Inductive halt_reason := Abort | Undefined | Running.

(** Control after a statement: fall through, [goto exit], or stop. *)
Inductive flow := Next | GotoExit | Halt (h : halt_reason).

(** How the process ends: [return rc], or short of it. *)
Inductive outcome := Exit (code : Z) | Halted (h : halt_reason).

Definition M := locals -> flow * locals.

Definition seqM (a b : M) : M :=
  fun s => match a s with
           | (Next, s') => b s'
           | r => r
           end.
Notation "a >> b" := (seqM a b) (at level 65, right associativity).

Definition skip : M := fun s => (Next, s).
Definition act (a : action) : M := fun s => (Next, with_g (emit a) s).
Definition acts (l : list action) : M := fun s => (Next, with_g (emits l) s).
Definition upd (f : locals -> locals) : M := fun s => (Next, f s).
Definition goto_exit : M := fun s => (GotoExit, s).
Definition halt (h : halt_reason) : M := fun s => (Halt h, s).
Definition when (b : bool) (m : M) : M := if b then m else skip.

(** [for (i = from; i < from + n; i++) body(i)] *)
Fixpoint for_loop (from : nat) (n : nat) (body : nat -> M) : M :=
  match n with
  | O => skip
  | S n' => body from >> for_loop (S from) n' body
  end.

Definition msg_xslt : string := "** ERROR **  Could not parse XSLT template: %s\n".
Definition msg_mq_open : string := "** ERROR **  Could not open message queue: %s\n".
Definition msg_alloc_thrdata : string :=
  "** ERROR **  Could not allocate memory for thread data\n".
Definition msg_db_thread : string :=
  "** ERROR **  Could not connect to the database for thread %i\n".
Definition msg_alloc_attr : string :=
  "** ERROR **  Could not allocate memory for thread attributes\n".
Definition msg_alloc_thread : string :=
  "** ERROR **  Could not allocate memory for pthread_t\n".
Definition msg_start_thread : string := "** ERROR **  Failed to start thread %i: %s".
Definition msg_join : string := "** ERROR **  Failed to join thread %i: %s\n".
Definition msg_mq_close : string := "** ERROR **  Failed to close message queue: %s\n".
Definition msg_mq_unlink : string :=
  "** ERROR **  Failed to remove the message queue: %s\n".
Definition msg_checker_start : string := "** Starting submission queue checker\n".
Definition msg_checker_stop : string := "** Submission queue checker shut down\n".

(** [fprintf(stderr, msg); rc = code; goto exit;] *)
Definition fail_with (code : Z) (msg : string) : M :=
  act (Stderr msg) >> upd (with_rc code) >> goto_exit.

(** The body of the loop of lines 231-272. *)
Definition prepare_slot (e : Env) (i : nat) : M :=
  act (MallocThrdata i) >>
  (if malloc_thrdata e i
   then upd (with_thrdata (<[i := Some (mkThreadData false 0 None)]>))
   else fail_with 2 msg_alloc_thrdata) >>
  act (DbConnect (Worker i)) >>
  (if db_connect_thread e i
   then upd (with_thrdata (<[i := Some (mkThreadData true i (reportdir e))]>))
   else act (Stderr msg_db_thread) >> upd (with_rc 2) >>
        upd (with_g (set_shutdown 1)) >> goto_exit) >>
  act (MallocAttr i) >>
  (if malloc_attr e i
   then upd (with_attrs (<[i := Some tt]>))
   else fail_with 2 msg_alloc_attr) >>
  act (MallocThread i) >>
  (if malloc_thread e i
   then upd (with_threads (<[i := Some false]>))
   else fail_with 2 msg_alloc_thread).

(** The body of the loop of lines 279-287.  [pthread_create] stores the new
    thread in [*threads[i]] when it returns 0, and only then: the boolean of
    the slot says whether it did. *)
Definition start_slot (e : Env) (i : nat) : M :=
  act (PthreadCreate i) >>
  let thr_rc := pthread_create_ret e i in
  upd (with_threads (<[i := Some (thr_rc =? 0)]>)) >>
  when (thr_rc <? 0) (fail_with 3 msg_start_thread).

(** The call of line 295. *)
Definition poll (e : Env) : M :=
  fun s =>
    let '(r, g) := process_submission_queue (poller_ticks e) (lg s) in
    match r with
    | Some v => (Next, with_rc v (with_g (fun _ => g) s))
    | None => (Halt Running, with_g (fun _ => g) s)
    end.

(** Lines 189-194. *)
Definition initialise : M := acts [XsltInit; XmlInitParser; ReadConfig].

(** Size of the buffer [xsltfile] (line 178) and the limit given to
    [snprintf] (line 197). *)
Definition xsltfile_size : nat := 2050.
Definition xsltfile_limit : nat := 512.

(** Lines 196-203. *)
Definition parse_template (e : Env) : M :=
  let xsltfile := snprintf_path xsltfile_limit (xsltpath e) XMLPARSER_XSL in
  act (XsltParseStylesheetFile xsltfile) >>
  when (negb (stylesheet_parses e xsltfile)) (fail_with 2 msg_xslt).

(** Lines 205-215. *)
Definition open_queue (e : Env) : M :=
  acts (snd (get_mqueue_msg_max (msg_max e))) >>
  act (MqOpen (fst (get_mqueue_msg_max (msg_max e)))) >>
  when (mq_open_ret e <? 0) (fail_with 2 msg_mq_open).

(** Lines 217-222. *)
Definition connect_main (e : Env) : M :=
  act (DbConnect Dispatcher) >>
  (if db_connect_main e then upd (with_dbc true)
   else upd (with_rc 2) >> goto_exit).

(** Lines 224-228: three arrays of [max_threads + 1] NULL pointers; the
    [assert] aborts when one of them could not be allocated. *)
Definition allocate_arrays (e : Env) : M :=
  if calloc_ok e
  then upd (fun s => mkLocals (lg s)
                       (Some (replicate (S max_threads) None))
                       (Some (replicate (S max_threads) None))
                       (Some (replicate (S max_threads) None))
                       (dbc s) (main_rc s))
  else halt Abort.

(** Lines 274-276. *)
Definition install_handlers : M :=
  upd (with_g (signal SIGINT Catch_sigcatch)) >>
  upd (with_g (signal SIGTERM Catch_sigcatch)).

(** Lines 289-296. *)
Definition run_checker (e : Env) : M :=
  act (Stderr msg_checker_start) >> poll e >> act (Stderr msg_checker_stop).

(** Lines 189-296: everything before the label [exit]. *)
Definition startup (e : Env) : M :=
  initialise >>
  parse_template e >>
  open_queue e >>
  connect_main e >>
  allocate_arrays e >>
  for_loop 0 max_threads (prepare_slot e) >>
  install_handlers >>
  for_loop 0 max_threads (start_slot e) >>
  run_checker e.

(** The body of the loop of lines 300-320. *)
Definition release_slot (e : Env) (i : nat) : M :=
  (fun s =>
     match threads s with
     | Some arr =>
         match arr !! i with
         | Some (Some started) =>
             (act (PthreadJoin i started) >>
              when (negb (pthread_join_ret e i =? 0)) (act (Stderr msg_join)) >>
              act (AttrDestroy i) >>
              act (FreeThread i) >> upd (with_threads (<[i := None]>)) >>
              act (FreeAttr i) >> upd (with_attrs (<[i := None]>))) s
         | _ => skip s
         end
     | None => skip s
     end) >>
  (fun s =>
     match thrdata s with
     | None => halt Undefined s
     | Some arr =>
         match arr !! i with
         | Some (Some td) =>
             (act (DbDisconnect (Worker i) (td_dbc td)) >>
              act (FreeThrdata i) >> upd (with_thrdata (<[i := None]>))) s
         | _ => skip s
         end
     end).

(** Lines 298-346: from the label [exit] to the [return]. *)
Definition teardown (e : Env) : M :=
  for_loop 0 max_threads (release_slot e) >>
  act FreeArrays >>
  act MqClose >>
  when (mq_close_ret e <? 0) (act (Stderr msg_mq_close)) >>
  act MqUnlink >>
  when (mq_unlink_ret e <? 0) (act (Stderr msg_mq_unlink)) >>
  (fun s => act (DbDisconnect Dispatcher (dbc s)) s) >>
  acts [FreeConfig; XsltFreeStylesheet; XmlCleanupParser; XsltCleanupGlobals].

Definition main_locals : locals := mkLocals boot None None None false 0.

(** From the label [exit] on: tear-down, then [return rc]. *)
Definition leave (e : Env) (s : locals) : outcome * list action :=
  match teardown e s with
  | (Halt h, s') => (Halted h, out (lg s'))
  | (_, s') => (Exit (main_rc s'), out (lg s'))
  end.

(** The whole program: how it ends and everything it did. *)
Definition main (e : Env) : outcome * list action :=
  match startup e main_locals with
  | (Halt h, s) => (Halted h, out (lg s))
  | (_, s) => leave e s
  end.

(** * Vocabulary of the properties *)

(** ** Reading a trace *)

(** Number of actions of a trace that satisfy a test. *)
Definition count (p : action -> bool) (l : list action) : nat :=
  length (filter (fun a => p a = true) l).

Definition is_stderr (a : action) : bool :=
  match a with Stderr _ => true | _ => false end.
Definition is_send (j : parseJob_t) (a : action) : bool := bool_decide (a = MqSend j).
Definition is_any_send (a : action) : bool :=
  match a with MqSend _ => true | _ => false end.
Definition is_claim (a : action) : bool := bool_decide (a = GetJob).
Definition is_free (j : parseJob_t) (a : action) : bool := bool_decide (a = FreeJob j).
Definition is_cooldown (a : action) : bool := bool_decide (a = Sleep 60).
Definition is_full_warning (a : action) : bool := bool_decide (a = Stderr msg_queue_full).
Definition is_thrdata_alloc (a : action) : bool :=
  match a with MallocThrdata _ => true | _ => false end.
Definition is_worker_connect (a : action) : bool :=
  match a with DbConnect (Worker _) => true | _ => false end.
Definition is_thread_start (a : action) : bool :=
  match a with PthreadCreate _ => true | _ => false end.

(** The two lines the signal catcher writes. *)
Definition is_signal_line (a : action) : bool :=
  bool_decide (a = Stderr msg_starting) || bool_decide (a = Stderr msg_in_progress).

(** What the actions of a stretch of the run add up to. *)
Record tally := mkTally {
  sends : nat;        (* sends of the job held *)
  all_sends : nat;    (* sends of any job *)
  claims : nat;
  frees : nat;        (* frees of the job held *)
  cooldowns : nat;    (* sleeps of 60 *)
  warnings : nat      (* "queue filled up" lines *)
}.

Definition tally_of (j : parseJob_t) (l : list action) : tally :=
  mkTally (count (is_send j) l) (count is_any_send l) (count is_claim l)
          (count (is_free j) l) (count is_cooldown l) (count is_full_warning l).

Definition tally_add (a b : tally) : tally :=
  mkTally (sends a + sends b) (all_sends a + all_sends b) (claims a + claims b)
          (frees a + frees b) (cooldowns a + cooldowns b) (warnings a + warnings b).

(** The stage of the program at which an action is made: initialisation (0),
    template (1), queue (2), connection of the main thread (3), preparation
    of the workers (4), their start (5), the polling loop (6), tear-down (7).
    A line on stderr can come at any stage and is counted with the last. *)
Definition stage (a : action) : nat :=
  match a with
  | XsltInit | XmlInitParser | ReadConfig => 0
  | XsltParseStylesheetFile _ => 1
  | MqOpen _ => 2
  | DbConnect Dispatcher => 3
  | MallocThrdata _ | DbConnect (Worker _) | MallocAttr _ | MallocThread _ => 4
  | PthreadCreate _ => 5
  | GetJob | FreeJob _ | WaitNotification _ _ | MqSend _ | Sleep _ => 6
  | _ => 7
  end.

Definition from_stage (k : nat) (a : action) : Prop := (k <= stage a)%nat.

(** The three calls counted for the pool are made at stages 4 and 5 only. *)
Definition pool_call (p : action -> bool) : Prop :=
  forall a, p a = true -> stage a = 4%nat \/ stage a = 5%nat.

(** ** The polling loop *)

(** Answers of [mq_send]: the queue is full; the message was taken. *)
Definition reports_full (t : tick) : Prop := send_ret t < 0 /\ send_errno t = EAGAIN.
Definition accepts (t : tick) : Prop := 0 <= send_ret t /\ send_errno t <> EAGAIN.

(** The cool-down leaves [errno] alone. *)
Definition keeps_errno (t : tick) : Prop := sleep_errno t = None.

(** A list of rounds, each a full send and its cool-down, as a list of ticks. *)
Fixpoint rounds_ticks (rounds : list (tick * tick)) : list tick :=
  match rounds with
  | [] => []
  | (tf, tc) :: r => tf :: tc :: rounds_ticks r
  end.

(** What holds of the polling loop between any two steps: the result code is
    still 0 until it returns, a job on its way to the queue is not a
    "none" job, and a return is either clean, with the flag set by a signal,
    or one of the error exits, which set the flag themselves. *)
Definition poller_inv (s : pstate) : Prop :=
  match at_ s with
  | Returned =>
      (rc s = 0 /\ shutdown (pg s) <> 0) \/
      ((rc s = 1 \/ rc s = 2) /\ shutdown (pg s) = 1)
  | Sending j | Cooling j => rc s = 0 /\ status j <> jbNONE
  | Polling | Waiting => rc s = 0
  end.

(** The retry loop as if it watched the flag: after the answers [ts], a
    cool-down that ends with the flag set is not followed by another send. *)
Definition retry_stops_on_shutdown (ts : list tick) (t : tick) : Prop :=
  let s := run ts (enter boot) in
  forall j, at_ s = Cooling j -> shutdown (pg (step s t)) <> 0 ->
            at_ (step s t) <> Sending j.

(** ** The limit file *)

Definition LF : string := String "010"%char EmptyString.

(** A decimal numeral, given by its digits, most significant first, and the
    number it denotes. *)
Definition digit_char (d : Z) : ascii := ascii_of_nat (48 + Z.to_nat d).
Definition numeral (ds : list Z) : string :=
  fold_right (fun d s => String (digit_char d) s) EmptyString ds.
Definition decimal_value (ds : list Z) : Z :=
  fold_left (fun a d => 10 * a + d) ds 0.
Definition is_digit (d : Z) : Prop := 0 <= d <= 9.

(** ** The statements of main *)

(** [m] only adds to the trace, and what it adds satisfies [Q]. *)
Definition writes (Q : action -> Prop) (m : M) : Prop :=
  forall s, exists l, out (lg (snd (m s))) = out (lg s) ++ l /\ Forall Q l.

(** [m] falls through to the next statement, having written exactly [l]. *)
Definition runs_through (l : list action) (m : M) : Prop :=
  forall s, fst (m s) = Next /\ out (lg (snd (m s))) = out (lg s) ++ l.

(** [m] writes [l], then only actions that satisfy [Q]. *)
Definition writes_then (l : list action) (Q : action -> Prop) (m : M) : Prop :=
  forall s, exists l', out (lg (snd (m s))) = out (lg s) ++ l ++ l' /\ Forall Q l'.

(** [m] adds to the trace at most [k] actions that pass the test [p]. *)
Definition writes_at_most (p : action -> bool) (k : nat) (m : M) : Prop :=
  forall s, exists l, out (lg (snd (m s))) = out (lg s) ++ l /\ (count p l <= k)%nat.

(** [m] keeps the property [P] of the result code. *)
Definition keeps (P : Z -> Prop) (m : M) : Prop :=
  forall s, P (main_rc s) -> P (main_rc (snd (m s))).

(** [m] leaves the result code alone. *)
Definition same_rc (m : M) : Prop := forall s, main_rc (snd (m s)) = main_rc s.

(** Everything after the queue has been opened. *)
Definition after_open (e : Env) : M :=
  when (mq_open_ret e <? 0) (fail_with 2 msg_mq_open) >>
  connect_main e >>
  allocate_arrays e >>
  for_loop 0 max_threads (prepare_slot e) >>
  install_handlers >>
  for_loop 0 max_threads (start_slot e) >>
  run_checker e.

(** The template path before truncation. *)
Definition full_path (dir : string) : string := (dir ++ "/" ++ XMLPARSER_XSL)%string.

(** The actions up to the call of the stylesheet parser. *)
Definition until_parse (e : Env) : list action :=
  [XsltInit; XmlInitParser; ReadConfig;
   XsltParseStylesheetFile (snprintf_path xsltfile_limit (xsltpath e) XMLPARSER_XSL)].

(** The actions up to the call that opens the queue. *)
Definition until_open (e : Env) : list action :=
  until_parse e ++ snd (get_mqueue_msg_max (msg_max e)) ++
  [MqOpen (fst (get_mqueue_msg_max (msg_max e)))].

(** What one slot adds to the trace when its four calls succeed. *)
Definition prepared (i : nat) : list action :=
  [MallocThrdata i; DbConnect (Worker i); MallocAttr i; MallocThread i].

(** The actions up to the start of the polling loop when nothing fails. *)
Definition until_poll (e : Env) : list action :=
  until_open e ++ [DbConnect Dispatcher] ++
  flat_map prepared (seq 0 max_threads) ++
  map PthreadCreate (seq 0 max_threads).

(** Every call [main] makes before the polling loop succeeds; for
    [pthread_create] this is read as the source reads it: the value returned
    is not negative. *)
Definition startup_succeeds (e : Env) : Prop :=
  stylesheet_parses e (snprintf_path xsltfile_limit (xsltpath e) XMLPARSER_XSL) = true /\
  0 <= mq_open_ret e /\
  db_connect_main e = true /\
  calloc_ok e = true /\
  (forall i, (i < max_threads)%nat ->
     malloc_thrdata e i = true /\ db_connect_thread e i = true /\
     malloc_attr e i = true /\ malloc_thread e i = true /\
     0 <= pthread_create_ret e i).

(** The result codes [main] can return on the machine [e]: 3 only if some
    [pthread_create] returned a negative value. *)
Definition exit_code_of (e : Env) (c : Z) : Prop :=
  c = 0 \/ c = 1 \/ c = 2 \/
  (c = 3 /\ exists i, (i < max_threads)%nat /\ pthread_create_ret e i < 0).

(** What the tear-down finds in slot [i]: a [pthread_t] (and whether a thread
    was stored in it), a worker context. *)
Definition thread_slot (s : locals) (i : nat) : option bool :=
  match threads s with
  | Some arr => match arr !! i with Some (Some b) => Some b | _ => None end
  | None => None
  end.

Definition thrdata_slot (s : locals) (i : nat) : option threadData_t :=
  match thrdata s with
  | Some arr => match arr !! i with Some (Some td) => Some td | _ => None end
  | None => None
  end.

(** What the tear-down does for slot [i], given what it finds there. *)
Definition slot_release (e : Env) (s : locals) (i : nat) : list action :=
  match thread_slot s i with
  | Some b =>
      PthreadJoin i b ::
      (if negb (pthread_join_ret e i =? 0) then [Stderr msg_join] else []) ++
      [AttrDestroy i; FreeThread i; FreeAttr i]
  | None => []
  end ++
  match thrdata_slot s i with
  | Some td => [DbDisconnect (Worker i) (td_dbc td); FreeThrdata i]
  | None => []
  end.

(** What the tear-down does after the loop over the slots. *)
Definition closing (e : Env) (s : locals) : list action :=
  [FreeArrays; MqClose] ++
  (if mq_close_ret e <? 0 then [Stderr msg_mq_close] else []) ++
  [MqUnlink] ++
  (if mq_unlink_ret e <? 0 then [Stderr msg_mq_unlink] else []) ++
  [DbDisconnect Dispatcher (dbc s);
   FreeConfig; XsltFreeStylesheet; XmlCleanupParser; XsltCleanupGlobals].

(** ** Inputs of the examples *)

Definition job7 : parseJob_t := mkJob jbCLAIMED 7 "/var/spool/rteval/report-7.xml".
Definition no_job : parseJob_t := mkJob jbNONE 0 EmptyString.

(** Answers of common shape. *)
Definition quiet : tick := mkTick [] None 0 0 0 None.
Definition on_signal (sig : Z) (t : tick) : tick :=
  mkTick (signals t ++ [sig]) (job_ret t) (notify_ret t) (send_ret t)
         (send_errno t) (sleep_errno t).
Definition job_found (j : parseJob_t) : tick := mkTick [] (Some j) 0 0 0 None.
Definition notified : tick := mkTick [] None 1 0 0 None.
Definition send_ok : tick := mkTick [] None 0 0 0 None.
Definition send_full : tick := mkTick [] None 0 (-1) EAGAIN None.
Definition send_error (e : Z) : tick := mkTick [] None 0 (-1) e None.

(** An interrupted [sleep]: the C library leaves EINTR in [errno]. *)
Definition EINTR : Z := 4.
Definition sleep_interrupted (sig : Z) : tick := mkTick [sig] None 0 0 0 (Some EINTR).

(** A machine on which every call of [main] succeeds; the polling loop gets
    the answers [ts]. *)
Definition healthy (ts : list tick) : Env :=
  mkEnv (Some "/usr/share/rteval"%string) (Some "/var/lib/rteval/reports"%string)
        (fun _ => true) (Readable ("10" ++ LF)%string) 3 true true
        (fun _ => true) (fun _ => true) (fun _ => true) (fun _ => true)
        (fun _ => 0) (fun _ => 0) 0 0 ts.

(** A machine on which the connection for worker 1 cannot be opened. *)
Definition second_connection_fails : Env :=
  mkEnv (Some "/usr/share/rteval"%string) (Some "/var/lib/rteval/reports"%string)
        (fun _ => true) (Readable ("10" ++ LF)%string) 3 true true
        (fun _ => true) (fun i => negb (Nat.eqb i 1)) (fun _ => true) (fun _ => true)
        (fun _ => 0) (fun _ => 0) 0 0 [].

(** A machine on which the first [pthread_create] fails with EAGAIN; the
    polling loop finds nothing to do, is woken, and sees a SIGTERM. *)
Definition first_thread_fails : Env :=
  mkEnv (Some "/usr/share/rteval"%string) (Some "/var/lib/rteval/reports"%string)
        (fun _ => true) (Readable ("10" ++ LF)%string) 3 true true
        (fun _ => true) (fun _ => true) (fun _ => true) (fun _ => true)
        (fun i => if Nat.eqb i 0 then EAGAIN else 0) (fun _ => 0) 0 0
        [job_found no_job; on_signal SIGTERM notified; quiet].

(** A template directory of 600 characters. *)
Definition long_dir : string := string_of_list_ascii (repeat "d"%char 600).
Definition long_path_env : Env :=
  mkEnv (Some long_dir) (Some "/var/lib/rteval/reports"%string)
        (fun _ => true) (Readable ("10" ++ LF)%string) 3 true true
        (fun _ => true) (fun _ => true) (fun _ => true) (fun _ => true)
        (fun _ => 0) (fun _ => 0) 0 0 [].

(** A whole run on the healthy machine: a job is claimed, finds the queue
    full once, is sent; the next claim finds nothing while a SIGTERM arrives;
    the wait returns and the loop sees the flag. *)
Definition one_job_then_sigterm : list tick :=
  [job_found job7; send_full; quiet; send_ok;
   on_signal SIGTERM (job_found no_job); notified; quiet].

(** A machine whose limit file holds "-1". *)
Definition negative_limit : Env :=
  mkEnv (Some "/usr/share/rteval"%string) (Some "/var/lib/rteval/reports"%string)
        (fun _ => true) (Readable ("-1" ++ LF)%string) 3 true true
        (fun _ => true) (fun _ => true) (fun _ => true) (fun _ => true)
        (fun _ => 0) (fun _ => 0) 0 0 one_job_then_sigterm.

(** * Vocabulary of the further properties *)

(** ** The books of the polling loop *)

Definition is_any_free (a : action) : bool :=
  match a with FreeJob _ => true | _ => false end.
Definition is_wait (a : action) : bool :=
  match a with WaitNotification _ _ => true | _ => false end.
Definition is_sleep (a : action) : bool :=
  match a with Sleep _ => true | _ => false end.

(** 1 while the loop holds a job that it has claimed and not yet freed. *)
Definition holding (s : pstate) : nat :=
  match at_ s with Sending _ | Cooling _ => 1 | _ => 0 end.

(** What the actions [l] of a run that has reached [s] add up to:
    - no more frees than claims, the job in hand counted as a free to come;
    - no more sends than claims and sleeps together, the job in hand counted
      as a send to come;
    - no more claims than waits and sends together, but for the claim whose
      job is about to be sent or that made the loop return. *)
Definition books_balance (s : pstate) (l : list action) : Prop :=
  (count is_any_free l + holding s <= count is_claim l)%nat /\
  (count is_any_send l + holding s <= count is_claim l + count is_sleep l)%nat /\
  (count is_claim l <=
   count is_wait l + count is_any_send l +
   match at_ s with Sending _ | Returned => 1 | _ => 0 end)%nat.

(** The actions a run adds to the trace: those made from the state [s] on,
    and those made by the whole call entered with the globals [g]. *)
Definition added (s : pstate) (ts : list tick) : list action :=
  drop (length (out (pg s))) (out (pg (run ts s))).

Definition performed (g : globals) (ts : list tick) : list action :=
  added (enter g) ts.

(** ** The limit file *)

(** The number that [get_mqueue_msg_max] takes from what it has read. *)
(** The shape of a limit file that holds a number: blanks, an optional
    sign, decimal digits, and whatever follows them. *)
Inductive sign := Unsigned | Plus | Minus.

Definition sign_text (sg : sign) : string :=
  match sg with
  | Unsigned => EmptyString
  | Plus => "+"
  | Minus => "-"
  end.

Fixpoint all_space (s : string) : bool :=
  match s with
  | EmptyString => true
  | String c r => isspace c && all_space r
  end.

Definition no_digit_first (s : string) : bool :=
  match s with
  | EmptyString => true
  | String c _ => match digit c with Some _ => false | None => true end
  end.

(** The text holds no number where [atoi] looks for one: after the leading
    blanks there is nothing, or a character that is neither a digit nor a
    sign. *)
Definition no_number (s : string) : bool :=
  match skip_space s with
  | EmptyString => true
  | String c _ =>
      match digit c with
      | Some _ => false
      | None => negb (Ascii.eqb c "-"%char) && negb (Ascii.eqb c "+"%char)
      end
  end.

(** ** The stages of main *)

(** An action of stage [k], or a line on stderr. *)
Definition at_stage (k : nat) (a : action) : Prop :=
  is_stderr a = true \/ stage a = k.

(** The calls of [l], the lines on stderr left aside, are of stage [k] or
    later and their stages never decrease. *)
Fixpoint ordered_from (k : nat) (l : list action) : bool :=
  match l with
  | [] => true
  | a :: r =>
      if is_stderr a then ordered_from k r
      else (k <=? stage a)%nat && ordered_from (stage a) r
  end.

(** Whatever [m] writes takes an ordered trace from stage [k] to stage [k']. *)
Definition staged (k k' : nat) (m : M) : Prop :=
  forall s, exists l,
    out (lg (snd (m s))) = out (lg s) ++ l /\
    forall rest, ordered_from k' rest = true -> ordered_from k (l ++ rest) = true.

(** ** The way to the polling loop *)

(** Two states of the polling loop that agree on everything its control
    reads: the place, the result code, [errno] and the flag. *)
Definition same_control (s s' : pstate) : Prop :=
  at_ s = at_ s' /\ rc s = rc s' /\ errno s = errno s' /\
  shutdown (pg s) = shutdown (pg s').

(** Started where [P] holds, [m] falls through to where [Q] holds. *)
Definition lands (P Q : locals -> Prop) (m : M) : Prop :=
  forall s, P s -> fst (m s) = Next /\ Q (snd (m s)).

(** Nothing has failed and no signal was caught. *)
Definition untroubled (s : locals) : Prop :=
  shutdown (lg s) = 0 /\ main_rc s = 0.

(** ... and the arrays are there. *)
Definition equipped (s : locals) : Prop :=
  untroubled s /\ thrdata s <> None.

(** Lines 189-287: everything before the polling loop is entered. *)
Definition preparations (e : Env) : M :=
  initialise >>
  parse_template e >>
  open_queue e >>
  connect_main e >>
  allocate_arrays e >>
  for_loop 0 max_threads (prepare_slot e) >>
  install_handlers >>
  for_loop 0 max_threads (start_slot e).

(** ** The connections of the workers *)

Definition is_connect_of (i : nat) (a : action) : bool :=
  match a with DbConnect (Worker j) => Nat.eqb i j | _ => false end.

Definition is_disconnect_of (i : nat) (a : action) : bool :=
  match a with DbDisconnect (Worker j) _ => Nat.eqb i j | _ => false end.

Definition is_worker_db (a : action) : bool :=
  match a with
  | DbConnect (Worker _) | DbDisconnect (Worker _) _ => true
  | _ => false
  end.

(** The slots of [thrdata] keep the books of the connections: no worker has
    been disconnected; a slot that holds a context belongs to one of the
    [max_threads] workers, [db_connect] was called for it once, and the
    context records what that call gave; for an empty slot it was not
    called. *)
Definition booked (e : Env) (s : locals) : Prop :=
  forall i,
    count (is_disconnect_of i) (out (lg s)) = 0%nat /\
    match thrdata_slot s i with
    | Some td =>
        (i < max_threads)%nat /\ td_dbc td = db_connect_thread e i /\
        count (is_connect_of i) (out (lg s)) = 1%nat
    | None => count (is_connect_of i) (out (lg s)) = 0%nat
    end.

(** Before line 227. *)
Definition unallocated (e : Env) (s : locals) : Prop :=
  thrdata s = None /\ booked e s.

(** At the head of the loop of line 231, about to prepare slot [k]. *)
Definition unused_from (e : Env) (k : nat) (s : locals) : Prop :=
  booked e s /\
  exists arr, thrdata s = Some arr /\ length arr = S max_threads /\
    forall j, (k <= j)%nat -> thrdata_slot s j = None.

(** Started where [P] holds, [m] ends where [I] holds, however it ends, and
    where it falls through [Q] holds. *)
Definition keeping (I P Q : locals -> Prop) (m : M) : Prop :=
  forall s, P s -> I (snd (m s)) /\ (fst (m s) = Next -> Q (snd (m s))).

(** [m] keeps the books of the connections. *)
Definition books (e : Env) : (locals -> Prop) -> (locals -> Prop) -> M -> Prop :=
  keeping (booked e).

(** [m] does not touch [thrdata] and calls neither [db_connect] nor
    [db_disconnect] for a worker. *)
Definition leaves_slots (m : M) : Prop :=
  forall s,
    thrdata (snd (m s)) = thrdata s /\
    exists l, out (lg (snd (m s))) = out (lg s) ++ l /\
              Forall (fun a => is_worker_db a = false) l.

(** The two halves of the body of the loop of lines 231-272: lines 232-258,
    the context and its connection, and lines 260-271, the attributes and
    the [pthread_t]. *)
Definition connect_slot (e : Env) (i : nat) : M :=
  act (MallocThrdata i) >>
  (if malloc_thrdata e i
   then upd (with_thrdata (<[i := Some (mkThreadData false 0 None)]>))
   else fail_with 2 msg_alloc_thrdata) >>
  act (DbConnect (Worker i)) >>
  (if db_connect_thread e i
   then upd (with_thrdata (<[i := Some (mkThreadData true i (reportdir e))]>))
   else act (Stderr msg_db_thread) >> upd (with_rc 2) >>
        upd (with_g (set_shutdown 1)) >> goto_exit).

Definition equip_slot (e : Env) (i : nat) : M :=
  act (MallocAttr i) >>
  (if malloc_attr e i
   then upd (with_attrs (<[i := Some tt]>))
   else fail_with 2 msg_alloc_attr) >>
  act (MallocThread i) >>
  (if malloc_thread e i
   then upd (with_threads (<[i := Some false]>))
   else fail_with 2 msg_alloc_thread).

(** ** The threads of the workers *)

(** [m] does not touch [threads]. *)
Definition leaves_threads (m : M) : Prop :=
  forall s, threads (snd (m s)) = threads s.

(** A slot of [threads] holds a [pthread_t] only if its allocation
    succeeded. *)
Definition threads_allocated (e : Env) (s : locals) : Prop :=
  forall i b, thread_slot s i = Some b -> malloc_thread e i = true.

(** Before line 225. *)
Definition no_threads (s : locals) : Prop := threads s = None.

(** At the head of the loop of line 231, about to prepare slot [k]: the
    allocations for the slots before it have all succeeded. *)
Definition allocated_below (e : Env) (k : nat) (s : locals) : Prop :=
  threads_allocated e s /\ forall i, (i < k)%nat -> malloc_thread e i = true.

(** Anything but the tear-down. *)
Definition before_teardown (a : action) : Prop :=
  is_stderr a = true \/ (stage a < 7)%nat.

Definition is_attr_release (i : nat) (a : action) : bool :=
  match a with
  | AttrDestroy j | FreeAttr j => Nat.eqb i j
  | _ => false
  end.

(** A machine on which the [pthread_t] of slot 2 cannot be allocated. *)
Definition third_thread_unallocated : Env :=
  mkEnv (Some "/usr/share/rteval"%string) (Some "/var/lib/rteval/reports"%string)
        (fun _ => true) (Readable ("10" ++ LF)%string) 3 true true
        (fun _ => true) (fun _ => true) (fun _ => true) (fun i => negb (Nat.eqb i 2))
        (fun _ => 0) (fun _ => 0) 0 0 [].

(** ** The order of the calls of the polling loop *)

Definition is_get (a : action) : bool :=
  match a with GetJob => true | _ => false end.

(** What lies between two claims: a wait or a send. *)
Definition claim_spacer (a : action) : bool :=
  match a with WaitNotification _ _ | MqSend _ => true | _ => false end.

(** What lies between two sends: a sleep or a claim. *)
Definition send_spacer (a : action) : bool :=
  match a with Sleep _ | GetJob => true | _ => false end.

(** Reads a trace from left to right, [pending] telling whether a call [p]
    has been seen with no call [r] after it: [None] if a second call [p]
    comes while the first is pending, else whether one is pending at the end. *)
Fixpoint gaps (p r : action -> bool) (pending : bool) (l : list action) : option bool :=
  match l with
  | [] => Some pending
  | a :: l' =>
      if p a then (if pending then None else gaps p r true l')
      else if r a then gaps p r false l'
      else gaps p r pending l'
  end.

(** What holds of the calls made so far, [l], at the state [s] of the loop:
    no two claims without a wait or a send between them, no two sends without
    a sleep or a claim between them, no two frees without a claim between
    them; and where the loop is about to claim, to send or to free, nothing
    pending stands in the way. *)
Definition in_order (s : pstate) (l : list action) : Prop :=
  exists q1 q2 q3,
    gaps is_get claim_spacer false l = Some q1 /\
    gaps is_any_send send_spacer false l = Some q2 /\
    gaps is_any_free is_get false l = Some q3 /\
    match at_ s with
    | Polling | Waiting => q1 = false
    | Cooling _ => q1 = false /\ q2 = false /\ q3 = false
    | Sending _ => q2 = false /\ q3 = false
    | Returned => True
    end.

(** ** The exit path before the arrays are there *)

(** [thrdata] has been assigned. *)
Definition assigned (s : locals) : Prop := thrdata s <> None.

(** [m] does not take [thrdata] away and does not stop on a read of
    something unassigned. *)
Definition sound (m : M) : Prop :=
  forall s, assigned s -> assigned (snd (m s)) /\ fst (m s) <> Halt Undefined.

(** A machine on which the queue cannot be opened. *)
Definition queue_unopenable : Env :=
  mkEnv (Some "/usr/share/rteval"%string) (Some "/var/lib/rteval/reports"%string)
        (fun _ => true) (Readable ("10" ++ LF)%string) (-1) true true
        (fun _ => true) (fun _ => true) (fun _ => true) (fun _ => true)
        (fun _ => 0) (fun _ => 0) 0 0 [].

(** ** After the signal *)

(** The line the catcher writes when it sets the flag. *)
Definition is_start (a : action) : bool :=
  match a with Stderr m => String.eqb m msg_starting | _ => false end.

(** Whether that line has been written: before [l], or in it. *)
Fixpoint started (seen : bool) (l : list action) : bool :=
  match l with
  | [] => seen
  | a :: r => started (seen || is_start a) r
  end.

(** The number of calls [p] of [l] that come after that line. *)
Fixpoint late (p : action -> bool) (seen : bool) (l : list action) : nat :=
  match l with
  | [] => 0
  | a :: r =>
      if seen then (if p a then 1 else 0) + late p true r
      else late p (is_start a) r
  end.

(** What holds of the calls made so far, [l], at the state [s]: after the
    catcher has set the flag there is no claim and at most one wait, and the
    flag is still set. *)
Definition honoured (s : pstate) (l : list action) : Prop :=
  late is_claim false l = 0%nat /\
  (late is_wait false l <= 1)%nat /\
  (started false l = true -> shutdown (pg s) <> 0).

(** ** From the start-up to the loop *)



(** Lines 289-347, from the state [s]: the polling loop and the exit path. *)
Definition checker_and_exit (e : Env) (s : locals) : outcome * list action :=
  match run_checker e s with
  | (Halt h, s') => (Halted h, out (lg s'))
  | (_, s') => leave e s'
  end.

(** The calls of a trace, the lines on stderr left aside. *)
Definition calls (l : list action) : list action :=
  filter (fun a => is_stderr a = false) l.


(** * Properties *)

(** ** The shutdown flag *)

Lemma sigcatch_shutdown (sig : Z) (g : globals) :
  shutdown (sigcatch sig g) = if shutdown g =? 0 then 1 else shutdown g.
Proof. unfold sigcatch. destruct (shutdown g =? 0); reflexivity. Qed.

Lemma sigcatch_out (sig : Z) (g : globals) :
  out (sigcatch sig g) =
  out g ++ [Stderr (if shutdown g =? 0 then msg_starting else msg_in_progress)].
Proof. unfold sigcatch. destruct (shutdown g =? 0); reflexivity. Qed.

Lemma sigcatch_rearms (sig : Z) (g : globals) :
  on_sigint (sigcatch sig g) = Catch_sigcatch /\
  on_sigterm (sigcatch sig g) = Catch_sigcatch.
Proof. unfold sigcatch. destruct (shutdown g =? 0); split; reflexivity. Qed.

Lemma deliver_cons (sig : Z) (sigs : list Z) (g : globals) :
  deliver (sig :: sigs) g = deliver sigs (sigcatch sig g).
Proof. reflexivity. Qed.

(** Once the flag is set, deliveries only add the "in progress" line. *)
Lemma deliver_set (sigs : list Z) (g : globals) :
  shutdown g <> 0 ->
  shutdown (deliver sigs g) = shutdown g /\
  out (deliver sigs g) = out g ++ replicate (length sigs) (Stderr msg_in_progress).
Proof.
  revert g. induction sigs as [|sig sigs IH]; intros g Hg.
  - simpl. rewrite app_nil_r. auto.
  - rewrite deliver_cons.
    assert (Hs : shutdown (sigcatch sig g) = shutdown g).
    { rewrite sigcatch_shutdown. destruct (Z.eqb_spec (shutdown g) 0); congruence. }
    destruct (IH (sigcatch sig g)) as [H1 H2]; [congruence|].
    rewrite H1, H2, Hs, sigcatch_out.
    destruct (Z.eqb_spec (shutdown g) 0); [contradiction|].
    split; [reflexivity|]. rewrite <- app_assoc. reflexivity.
Qed.

(** Deliveries never clear the flag. *)
Lemma deliver_shutdown (sigs : list Z) (g : globals) :
  shutdown (deliver sigs g) = shutdown g \/
  (shutdown g = 0 /\ shutdown (deliver sigs g) = 1).
Proof.
  destruct sigs as [|sig sigs]; [left; reflexivity|].
  rewrite deliver_cons.
  destruct (Z.eqb_spec (shutdown g) 0) as [H0|Hn].
  - right. split; [assumption|].
    destruct (deliver_set sigs (sigcatch sig g)) as [H1 _].
    + rewrite sigcatch_shutdown, H0. discriminate.
    + rewrite H1, sigcatch_shutdown, H0. reflexivity.
  - left. destruct (deliver_set sigs (sigcatch sig g)) as [H1 _].
    + rewrite sigcatch_shutdown. destruct (Z.eqb_spec (shutdown g) 0); congruence.
    + rewrite H1, sigcatch_shutdown. destruct (Z.eqb_spec (shutdown g) 0); congruence.
Qed.

(** C3.  Starting from the running state, the first delivery of a
    termination signal sets the flag and writes the "starting" line; any
    further deliveries leave the flag set and write only the "in progress"
    line, which differs from the first; and after every delivery, whatever
    the state it found, the catcher is installed again for both SIGINT and
    SIGTERM, and a flag that was set is still set. *)
Theorem sigcatch_once (g : globals) (sig : Z) (later : list Z) :
  shutdown g = 0 ->
  let g1 := sigcatch sig g in
  let gn := deliver later g1 in
  (shutdown g1 = 1 /\ out g1 = out g ++ [Stderr msg_starting]) /\
  (shutdown gn = 1 /\
   out gn = out g1 ++ replicate (length later) (Stderr msg_in_progress)) /\
  msg_starting <> msg_in_progress /\
  (forall (g' : globals) (sig' : Z),
      on_sigint (sigcatch sig' g') = Catch_sigcatch /\
      on_sigterm (sigcatch sig' g') = Catch_sigcatch /\
      (shutdown g' <> 0 -> shutdown (sigcatch sig' g') = shutdown g')).
Proof.
  intros H0 g1 gn.
  assert (H1 : shutdown g1 = 1).
  { unfold g1. rewrite sigcatch_shutdown, H0. reflexivity. }
  split; [split; [exact H1|]|split; [|split]].
  - unfold g1. rewrite sigcatch_out, H0. reflexivity.
  - destruct (deliver_set later g1) as [E1 E2]; [rewrite H1; discriminate|].
    unfold gn. rewrite E1, E2. auto.
  - discriminate.
  - intros g' sig'. destruct (sigcatch_rearms sig' g') as [A B].
    repeat split; try assumption.
    intros Hn. rewrite sigcatch_shutdown.
    destruct (Z.eqb_spec (shutdown g') 0); congruence.
Qed.

Lemma sigcatch_once_witness :
  shutdown boot = 0 /\
  shutdown (deliver [SIGTERM; SIGINT] (sigcatch SIGINT boot)) = 1 /\
  out (deliver [SIGTERM; SIGINT] (sigcatch SIGINT boot)) =
    [Stderr msg_starting; Stderr msg_in_progress; Stderr msg_in_progress].
Proof.
  split; [reflexivity|].
  destruct (sigcatch_once boot SIGINT [SIGTERM; SIGINT] eq_refl)
    as ((_ & Ho) & (Hs & Hl) & _).
  split; [exact Hs|]. rewrite Hl, Ho. reflexivity.
Defined.

(** ** The message-queue limit *)

Lemma to_uint_range (x : Z) : 0 <= to_uint x < 2 ^ 32.
Proof. unfold to_uint. apply Z.mod_pos_bound. lia. Qed.

Lemma fread128_readable (data : string) :
  fread128 (Readable data) =
  (substring 0 128 data, Z.of_nat (String.length (substring 0 128 data))).
Proof. reflexivity. Qed.

Lemma fread128_nothing (data : string) :
  (snd (fread128 (Readable data)) <? 1) = true <-> data = EmptyString.
Proof.
  rewrite fread128_readable. simpl snd. destruct data as [|c r].
  - simpl. split; reflexivity.
  - cbn [substring String.length]. split; [|discriminate].
    intros H. apply Z.ltb_lt in H. lia.
Qed.

(** Whatever the file holds, the value returned is at least 1. *)
Lemma get_mqueue_msg_max_positive (f : msg_max_file) :
  1 <= fst (get_mqueue_msg_max f) < 2 ^ 32.
Proof.
  destruct f as [| |data]; [vm_compute; split; [discriminate | reflexivity] ..|].
  unfold get_mqueue_msg_max. rewrite fread128_readable.
  destruct (_ <? 1); [vm_compute; split; [discriminate | reflexivity]|].
  pose proof (to_uint_range (atoi_nullsafe (Some (substring 0 128 data)))) as Hr.
  destruct (Z.ltb_spec (to_uint (atoi_nullsafe (Some (substring 0 128 data)))) 1);
    cbn [fst]; [unfold DEFAULT_MSG_MAX; lia | lia].
Qed.

(** The value returned when the file delivers at least one byte. *)
Lemma get_mqueue_msg_max_readable (data : string) :
  data <> EmptyString ->
  let v := to_uint (atoi (cstring (substring 0 128 data))) in
  fst (get_mqueue_msg_max (Readable data)) = if v <? 1 then DEFAULT_MSG_MAX else v.
Proof.
  intros Hd v. unfold get_mqueue_msg_max. rewrite fread128_readable.
  destruct (Z.of_nat (String.length (substring 0 128 data)) <? 1) eqn:E.
  - exfalso. apply Hd. apply fread128_nothing. rewrite fread128_readable. exact E.
  - unfold atoi_nullsafe. fold v. destruct (v <? 1); reflexivity.
Qed.

(** Reading back a decimal numeral. *)
Lemma digit_cases (d : Z) :
  is_digit d ->
  d = 0 \/ d = 1 \/ d = 2 \/ d = 3 \/ d = 4 \/ d = 5 \/ d = 6 \/ d = 7 \/ d = 8 \/ d = 9.
Proof. unfold is_digit. lia. Qed.

Lemma digit_digit_char (d : Z) :
  is_digit d ->
  digit (digit_char d) = Some d /\ isspace (digit_char d) = false /\
  Ascii.eqb (digit_char d) zero = false /\
  digit_char d <> "-"%char /\ digit_char d <> "+"%char.
Proof.
  intros H. destruct (digit_cases d H) as [->|[->|[->|[->|[->|[->|[->|[->|[->| ->]]]]]]]]];
    (split; [reflexivity|split; [reflexivity|split; [reflexivity|]]];
     split; intro E; vm_compute in E; discriminate E).
Qed.

Lemma digits_numeral (ds : list Z) (rest : string) (acc : Z) :
  Forall is_digit ds ->
  digits (numeral ds ++ rest)%string acc =
  digits rest (fold_left (fun a d => 10 * a + d) ds acc).
Proof.
  intros H. revert acc. induction H as [|d ds Hd _ IH]; intros acc; [reflexivity|].
  cbn [numeral fold_right String.append digits fold_left].
  destruct (digit_digit_char d Hd) as (-> & _). apply IH.
Qed.

Lemma length_numeral (ds : list Z) : String.length (numeral ds) = length ds.
Proof. induction ds as [|d ds IH]; simpl; congruence. Qed.

Lemma substring_all (n : nat) (s : string) :
  (String.length s <= n)%nat -> substring 0 n s = s.
Proof.
  revert n. induction s as [|c r IH]; intros n H.
  - destruct n; reflexivity.
  - destruct n as [|n]; simpl in H; [lia|]. simpl. rewrite IH by lia. reflexivity.
Qed.

Lemma string_length_app (a b : string) :
  String.length (a ++ b)%string = (String.length a + String.length b)%nat.
Proof. induction a as [|c a IH]; simpl; congruence. Qed.

Lemma cstring_numeral_line (ds : list Z) :
  Forall is_digit ds -> cstring (numeral ds ++ LF)%string = (numeral ds ++ LF)%string.
Proof.
  induction 1 as [|d ds Hd _ IH]; [reflexivity|].
  cbn [numeral fold_right String.append cstring].
  destruct (digit_digit_char d Hd) as (_ & _ & -> & _).
  f_equal. exact IH.
Qed.

(** A file that holds the numeral of a limit between 1 and INT_MAX, then a
    newline, within the 128 bytes read, gives that limit. *)
Lemma get_mqueue_msg_max_numeral (ds : list Z) :
  Forall is_digit ds -> (length ds <= 127)%nat ->
  1 <= decimal_value ds < 2 ^ 31 ->
  get_mqueue_msg_max (Readable (numeral ds ++ LF)%string) = (decimal_value ds, []).
Proof.
  intros Hds Hlen Hv.
  destruct ds as [|d ds]; [unfold decimal_value in Hv; simpl in Hv; lia|].
  assert (Hfit : substring 0 128 (numeral (d :: ds) ++ LF)%string
                 = (numeral (d :: ds) ++ LF)%string).
  { apply substring_all. rewrite string_length_app, length_numeral. simpl in *. lia. }
  assert (Hatoi : atoi (numeral (d :: ds) ++ LF)%string = decimal_value (d :: ds)).
  { unfold atoi, strtol.
    assert (Hsk : skip_space (numeral (d :: ds) ++ LF)%string
                  = (numeral (d :: ds) ++ LF)%string).
    { cbn [numeral fold_right String.append skip_space].
      destruct (digit_digit_char d (Forall_inv Hds)) as (_ & -> & _). reflexivity. }
    rewrite Hsk.
    assert (Hd : digits (numeral (d :: ds) ++ LF)%string 0 = decimal_value (d :: ds)).
    { rewrite digits_numeral by assumption. reflexivity. }
    destruct (digit_digit_char d (Forall_inv Hds)) as (_ & _ & _ & Hm & Hp).
    assert (Hgo : forall c r, c <> "-"%char -> c <> "+"%char ->
              match String c r with
              | String "-"%char r' => clamp_long (- digits r' 0)
              | String "+"%char r' => clamp_long (digits r' 0)
              | r' => clamp_long (digits r' 0)
              end = clamp_long (digits (String c r) 0)).
    { intros c r H1 H2.
      destruct c as [[] [] [] [] [] [] [] []]; try reflexivity; congruence. }
    cbn [numeral fold_right String.append] in *.
    rewrite (Hgo _ _ Hm Hp), Hd.
    unfold clamp_long, LONG_MAX, LONG_MIN, to_int.
    rewrite Z.min_r by lia. rewrite Z.max_r by lia.
    rewrite Z.mod_small by lia. lia. }
  unfold get_mqueue_msg_max. rewrite fread128_readable, Hfit.
  destruct (Z.ltb_spec (Z.of_nat (String.length (numeral (d :: ds) ++ LF)%string)) 1)
    as [Hl|Hl].
  { cbn [numeral fold_right String.append String.length] in Hl. lia. }
  unfold atoi_nullsafe. rewrite cstring_numeral_line, Hatoi by assumption.
  unfold to_uint. rewrite Z.mod_small by lia.
  destruct (Z.ltb_spec (decimal_value (d :: ds)) 1); [lia | reflexivity].
Qed.

(** C9.  A file that holds "-1": [atoi] gives -1, the conversion to
    [unsigned int] makes it 4294967295, the test [msg_max < 1] lets it pass and
    the function returns it instead of the default. *)
Theorem get_mqueue_msg_max_negative :
  atoi_nullsafe (Some ("-1" ++ LF)%string) = -1 /\
  get_mqueue_msg_max (Readable ("-1" ++ LF)%string) = (4294967295, []) /\
  get_mqueue_msg_max (Readable ("0" ++ LF)%string)
    = (DEFAULT_MSG_MAX, [Stderr msg_cannot_parse]).
Proof. repeat split; vm_compute; reflexivity. Qed.

(** ** The polling loop *)

(** *** Counting actions *)

Lemma count_nil (p : action -> bool) : count p [] = 0%nat.
Proof. reflexivity. Qed.

Lemma count_cons (p : action -> bool) (a : action) (l : list action) :
  count p (a :: l) = ((if p a then 1 else 0) + count p l)%nat.
Proof.
  unfold count. rewrite filter_cons. destruct (p a) eqn:E.
  - rewrite decide_True by reflexivity. reflexivity.
  - rewrite decide_False by discriminate. reflexivity.
Qed.

Lemma count_app (p : action -> bool) (l1 l2 : list action) :
  count p (l1 ++ l2) = (count p l1 + count p l2)%nat.
Proof. unfold count. rewrite filter_app, length_app. reflexivity. Qed.

Lemma count_none (p q : action -> bool) (l : list action) :
  (forall a, q a = true -> p a = false) ->
  Forall (fun a => q a = true) l -> count p l = 0%nat.
Proof.
  intros Hpq H. induction H as [|a l Ha _ IH]; [reflexivity|].
  rewrite count_cons, IH, (Hpq a Ha). reflexivity.
Qed.

(** Settles the tests on actions whose constructors are known. *)
Ltac settle_tests :=
  unfold is_send, is_claim, is_free, is_cooldown, is_full_warning;
  repeat match goal with
    | |- context [bool_decide (?a = ?b)] =>
        first [ rewrite (bool_decide_eq_true_2 (a = b)) by reflexivity
              | rewrite (bool_decide_eq_false_2 (a = b)) by discriminate ]
    end;
  cbn [is_any_send is_stderr].

Lemma signal_line_cases (a : action) :
  is_signal_line a = true -> a = Stderr msg_starting \/ a = Stderr msg_in_progress.
Proof.
  unfold is_signal_line. intros H. apply orb_true_iff in H.
  destruct H as [H|H]; apply bool_decide_eq_true_1 in H; auto.
Qed.

(** None of the actions counted below is a line of the signal catcher. *)
Lemma signal_line_uncounted (a : action) (j : parseJob_t) :
  is_signal_line a = true ->
  is_send j a = false /\ is_any_send a = false /\ is_claim a = false /\
  is_free j a = false /\ is_cooldown a = false /\ is_full_warning a = false.
Proof.
  intros H. destruct (signal_line_cases a H) as [-> | ->];
    repeat split; try reflexivity; apply bool_decide_eq_false_2; discriminate.
Qed.

Lemma deliver_lines (sigs : list Z) (g : globals) :
  exists l, out (deliver sigs g) = out g ++ l /\
            Forall (fun a => is_signal_line a = true) l.
Proof.
  revert g. induction sigs as [|sig sigs IH]; intros g.
  - exists []. simpl. rewrite app_nil_r. auto.
  - rewrite deliver_cons. destruct (IH (sigcatch sig g)) as (l & Hl & Hf).
    rewrite sigcatch_out in Hl. eexists. rewrite Hl, <- app_assoc.
    split; [reflexivity|]. constructor; [|assumption].
    destruct (shutdown g =? 0); reflexivity.
Qed.

Lemma deliver_emit_lines (sigs : list Z) (a : action) (g : globals) :
  exists l, out (deliver sigs (emit a g)) = out g ++ a :: l /\
            Forall (fun a => is_signal_line a = true) l.
Proof.
  destruct (deliver_lines sigs (emit a g)) as (l & Hl & Hf).
  exists l. split; [|assumption]. rewrite Hl. simpl. rewrite <- app_assoc. reflexivity.
Qed.

(** *** The steps, one equation per branch of the source *)

Lemma run_app (ts1 ts2 : list tick) (s : pstate) :
  run (ts1 ++ ts2) s = run ts2 (run ts1 s).
Proof. unfold run. apply fold_left_app. Qed.

Lemma run_cons (t : tick) (ts : list tick) (s : pstate) :
  run (t :: ts) s = run ts (step s t).
Proof. reflexivity. Qed.

Lemma step_shutdown_seen (s : pstate) (t : tick) :
  at_ s = Polling -> shutdown (pg s) <> 0 ->
  step s t = mkP (pg s) (errno s) (rc s) Returned.
Proof.
  intros Ha Hs. unfold step. rewrite Ha.
  destruct (Z.eqb_spec (shutdown (pg s)) 0); [contradiction | reflexivity].
Qed.

Lemma step_claim_fails (s : pstate) (t : tick) :
  at_ s = Polling -> shutdown (pg s) = 0 -> job_ret t = None ->
  step s t = bail_out 1 msg_no_job (deliver (signals t) (emit GetJob (pg s))) (errno s).
Proof. intros Ha Hs Hj. unfold step. rewrite Ha, Hs, Hj. reflexivity. Qed.

Lemma step_nothing_to_do (s : pstate) (t : tick) (j : parseJob_t) :
  at_ s = Polling -> shutdown (pg s) = 0 -> job_ret t = Some j -> status j = jbNONE ->
  step s t =
  mkP (emit (WaitNotification addr_shutdown "rteval_submq")
         (emit (FreeJob j) (deliver (signals t) (emit GetJob (pg s)))))
      (errno s) (rc s) Waiting.
Proof. intros Ha Hs Hj Hst. unfold step. rewrite Ha, Hs, Hj, Hst. reflexivity. Qed.

Lemma step_job_claimed (s : pstate) (t : tick) (j : parseJob_t) :
  at_ s = Polling -> shutdown (pg s) = 0 -> job_ret t = Some j -> status j <> jbNONE ->
  step s t =
  mkP (emit (Stderr msg_new_job) (deliver (signals t) (emit GetJob (pg s))))
      (errno s) (rc s) (Sending j).
Proof.
  intros Ha Hs Hj Hst. unfold step. rewrite Ha, Hs, Hj.
  destruct (status j); [contradiction | reflexivity | reflexivity].
Qed.

Lemma step_wait_fails (s : pstate) (t : tick) :
  at_ s = Waiting -> notify_ret t < 1 ->
  step s t = bail_out 1 msg_wait_failed (deliver (signals t) (pg s)) (errno s).
Proof.
  intros Ha Hn. unfold step. rewrite Ha.
  destruct (Z.ltb_spec (notify_ret t) 1); [reflexivity | lia].
Qed.

Lemma step_woken (s : pstate) (t : tick) :
  at_ s = Waiting -> 1 <= notify_ret t ->
  step s t = mkP (deliver (signals t) (pg s)) (errno s) (rc s) Polling.
Proof.
  intros Ha Hn. unfold step. rewrite Ha.
  destruct (Z.ltb_spec (notify_ret t) 1); [lia | reflexivity].
Qed.

Lemma step_send_fails (s : pstate) (t : tick) (j : parseJob_t) :
  at_ s = Sending j -> send_ret t < 0 -> send_errno t <> EAGAIN ->
  step s t =
  bail_out 2 msg_send_failed (deliver (signals t) (emit (MqSend j) (pg s))) (send_errno t).
Proof.
  intros Ha Hr He. unfold step. rewrite Ha.
  destruct (Z.ltb_spec (send_ret t) 0); [|lia].
  destruct (Z.eqb_spec (send_errno t) EAGAIN); [contradiction | reflexivity].
Qed.

Lemma step_send_full (s : pstate) (t : tick) (j : parseJob_t) :
  at_ s = Sending j -> send_errno t = EAGAIN ->
  step s t =
  mkP (emit (Sleep 60) (emit (Stderr msg_queue_full)
         (deliver (signals t) (emit (MqSend j) (pg s)))))
      EAGAIN (rc s) (Cooling j).
Proof.
  intros Ha He. unfold step. rewrite Ha, He. rewrite Z.eqb_refl.
  rewrite andb_false_r. reflexivity.
Qed.

Lemma step_send_accepted (s : pstate) (t : tick) (j : parseJob_t) :
  at_ s = Sending j -> accepts t ->
  step s t =
  mkP (emit (FreeJob j) (deliver (signals t) (emit (MqSend j) (pg s))))
      (send_errno t) (rc s) Polling.
Proof.
  intros Ha [Hr He]. unfold step. rewrite Ha.
  destruct (Z.ltb_spec (send_ret t) 0); [lia|].
  destruct (Z.eqb_spec (send_errno t) EAGAIN); [contradiction | reflexivity].
Qed.

Lemma step_cooled (s : pstate) (t : tick) (j : parseJob_t) :
  at_ s = Cooling j -> errno s = EAGAIN -> keeps_errno t ->
  step s t = mkP (deliver (signals t) (pg s)) EAGAIN (rc s) (Sending j).
Proof.
  intros Ha He Hk. unfold step. rewrite Ha, Hk, He. reflexivity.
Qed.

Lemma step_returned (s : pstate) (t : tick) : at_ s = Returned -> step s t = s.
Proof. intros Ha. unfold step. rewrite Ha. reflexivity. Qed.

(** *** The invariant *)

Lemma enter_inv (g : globals) : poller_inv (enter g).
Proof. reflexivity. Qed.

Lemma step_inv (s : pstate) (t : tick) : poller_inv s -> poller_inv (step s t).
Proof.
  unfold poller_inv. intros H. destruct (at_ s) as [| |j|j|] eqn:Ha.
  - (* Polling *)
    destruct (Z.eqb_spec (shutdown (pg s)) 0) as [H0|Hn].
    + destruct (job_ret t) as [j|] eqn:Hj.
      * destruct (status j) eqn:Hst.
        -- rewrite (step_nothing_to_do s t j) by assumption. exact H.
        -- rewrite (step_job_claimed s t j) by (assumption || congruence).
           simpl. split; [exact H | congruence].
        -- rewrite (step_job_claimed s t j) by (assumption || congruence).
           simpl. split; [exact H | congruence].
      * rewrite step_claim_fails by assumption. simpl. right. auto.
    + rewrite step_shutdown_seen by assumption. simpl. left. auto.
  - (* Waiting *)
    destruct (Z.lt_ge_cases (notify_ret t) 1).
    + rewrite step_wait_fails by assumption. simpl. right. auto.
    + rewrite step_woken by assumption. exact H.
  - (* Sending *)
    destruct (Z.eqb_spec (send_errno t) EAGAIN) as [He|He].
    + rewrite (step_send_full s t j) by assumption. exact H.
    + destruct (Z.lt_ge_cases (send_ret t) 0).
      * rewrite (step_send_fails s t j) by assumption. simpl. right. auto.
      * rewrite (step_send_accepted s t j) by (assumption || split; assumption).
        simpl. tauto.
  - (* Cooling *)
    unfold step. rewrite Ha.
    destruct (_ =? EAGAIN); simpl; tauto.
  - rewrite step_returned by assumption. rewrite Ha. exact H.
Qed.

Lemma run_inv (ts : list tick) (s : pstate) : poller_inv s -> poller_inv (run ts s).
Proof.
  revert s. induction ts as [|t ts IH]; intros s H; [exact H|].
  rewrite run_cons. apply IH, step_inv, H.
Qed.

Lemma inv_running (s : pstate) : poller_inv s -> at_ s <> Returned -> rc s = 0.
Proof. unfold poller_inv. destruct (at_ s); tauto. Qed.

(** C2.  Take the loop at any point of any run.  Until it returns its result
    code is 0.  If it finds the flag set at the test of the loop it returns 0
    and changes nothing.  If the claim returns no job object, or the wait for
    a notification fails, it returns 1; if the send fails with an error other
    than a full queue, it returns 2; in these three cases the flag is 1 on
    return.  And it returns in no other way: a result of 0 comes with the flag
    set, and any other result is 1 or 2 with the flag equal to 1. *)
Theorem poller_result_codes (g : globals) (ts : list tick) (t : tick) :
  let s := run ts (enter g) in
  (at_ s <> Returned -> rc s = 0) /\
  (at_ s = Polling -> shutdown (pg s) <> 0 ->
     returned (step s t) = Some 0 /\ pg (step s t) = pg s) /\
  (at_ s = Polling -> shutdown (pg s) = 0 -> job_ret t = None ->
     returned (step s t) = Some 1 /\ shutdown (pg (step s t)) = 1) /\
  (at_ s = Waiting -> notify_ret t < 1 ->
     returned (step s t) = Some 1 /\ shutdown (pg (step s t)) = 1) /\
  (forall j, at_ s = Sending j -> send_ret t < 0 -> send_errno t <> EAGAIN ->
     returned (step s t) = Some 2 /\ shutdown (pg (step s t)) = 1) /\
  (forall v, returned s = Some v ->
     (v = 0 /\ shutdown (pg s) <> 0) \/ ((v = 1 \/ v = 2) /\ shutdown (pg s) = 1)).
Proof.
  intros s. pose proof (run_inv ts (enter g) (enter_inv g)) as Hinv. fold s in Hinv.
  split; [apply inv_running, Hinv|].
  split.
  { intros Ha Hs. rewrite step_shutdown_seen by assumption.
    unfold returned. simpl. rewrite (inv_running s Hinv) by congruence.
    split; reflexivity. }
  split.
  { intros Ha Hs Hj. rewrite step_claim_fails by assumption. split; reflexivity. }
  split.
  { intros Ha Hn. rewrite step_wait_fails by assumption. split; reflexivity. }
  split.
  { intros j Ha Hr He. rewrite (step_send_fails s t j) by assumption.
    split; reflexivity. }
  intros v Hv. unfold returned in Hv. unfold poller_inv in Hinv.
  destruct (at_ s); try discriminate. injection Hv as <-. exact Hinv.
Qed.

(** The four ways out, each at a concrete run. *)
Lemma poller_result_codes_witness :
  returned (run [on_signal SIGTERM (job_found no_job); notified; quiet] (enter boot)) = Some 0 /\
  returned (run [quiet] (enter boot)) = Some 1 /\
  returned (run [job_found no_job; quiet] (enter boot)) = Some 1 /\
  returned (run [job_found job7; send_error 90] (enter boot)) = Some 2.
Proof.
  split; [|split; [|split]].
  - destruct (poller_result_codes boot
                [on_signal SIGTERM (job_found no_job); notified] quiet)
      as (_ & H & _).
    apply H; [reflexivity | discriminate].
  - destruct (poller_result_codes boot [] quiet) as (_ & _ & H & _).
    apply H; reflexivity.
  - destruct (poller_result_codes boot [job_found no_job] quiet) as (_ & _ & _ & H & _).
    apply H; [reflexivity | vm_compute; reflexivity].
  - destruct (poller_result_codes boot [job_found job7] (send_error 90))
      as (_ & _ & _ & _ & H & _).
    apply (H job7); [reflexivity | vm_compute; reflexivity | discriminate].
Defined.

(** *** What a step writes *)

Ltac expose_lines :=
  repeat match goal with
    | |- context [out (deliver ?sigs (emit ?a ?g))] =>
        let l := fresh "l" in
        let E := fresh "E" in
        let F := fresh "F" in
        destruct (deliver_emit_lines sigs a g) as (l & E & F); rewrite E; clear E
    | |- context [out (deliver ?sigs ?g)] =>
        let l := fresh "l" in
        let E := fresh "E" in
        let F := fresh "F" in
        destruct (deliver_lines sigs g) as (l & E & F); rewrite E; clear E
    end.

Ltac split_in H :=
  match type of H with
  | In _ (_ ++ _) => apply in_app_or in H; destruct H as [H|H]; split_in H
  | In _ (_ :: _) => destruct H as [H|H]; [|split_in H]
  | In _ [] => destruct H
  | _ => idtac
  end.

Lemma signal_line_not_send (l : list action) (j : parseJob_t) :
  Forall (fun a => is_signal_line a = true) l -> ~ In (MqSend j) l.
Proof.
  intros H Hin. rewrite Forall_forall in H. apply list_elem_of_In in Hin.
  specialize (H _ Hin). apply signal_line_cases in H. destruct H; discriminate.
Qed.

(** A step only adds to the trace, and the one thing it may send is the job
    it holds. *)
Lemma step_out (s : pstate) (t : tick) :
  exists l, out (pg (step s t)) = out (pg s) ++ l /\
            forall j, In (MqSend j) l -> at_ s = Sending j.
Proof.
  unfold step.
  destruct (at_ s) as [| |j0|j0|] eqn:Ha.
  - destruct (shutdown (pg s) =? 0);
      [|exists []; simpl; rewrite app_nil_r; split; [reflexivity | intros ? []]].
    destruct (job_ret t) as [j|]; [destruct (status j)|]; cbn [bail_out pg out emit set_shutdown];
      expose_lines; rewrite <- ?app_assoc; cbn [app];
      (eexists; split; [reflexivity|]); intros j' Hin; split_in Hin;
      try discriminate; exfalso; eapply signal_line_not_send; eassumption.
  - destruct (notify_ret t <? 1); cbn [bail_out pg out emit set_shutdown];
      expose_lines; rewrite <- ?app_assoc; cbn [app];
      (eexists; split; [reflexivity|]); intros j' Hin; split_in Hin;
      try discriminate; exfalso; eapply signal_line_not_send; eassumption.
  - destruct ((send_ret t <? 0) && negb (send_errno t =? EAGAIN));
      [|destruct (send_errno t =? EAGAIN)];
      cbn [bail_out pg out emit set_shutdown];
      expose_lines; rewrite <- ?app_assoc; cbn [app];
      (eexists; split; [reflexivity|]); intros j' Hin; split_in Hin;
      try discriminate; try (injection Hin as ->; reflexivity);
      exfalso; eapply signal_line_not_send; eassumption.
  - destruct (_ =? EAGAIN); cbn [bail_out pg out emit set_shutdown];
      expose_lines; rewrite <- ?app_assoc; cbn [app];
      (eexists; split; [reflexivity|]); intros j' Hin; split_in Hin;
      try discriminate; exfalso; eapply signal_line_not_send; eassumption.
  - exists []. rewrite app_nil_r. split; [reflexivity | intros ? []].
Qed.

(** In any run that starts where the invariant holds, no job with status
    "none" is sent. *)
Lemma run_out (ts : list tick) (s : pstate) :
  poller_inv s ->
  exists l, out (pg (run ts s)) = out (pg s) ++ l /\
            forall j, In (MqSend j) l -> status j <> jbNONE.
Proof.
  revert s. induction ts as [|t ts IH]; intros s Hinv.
  - exists []. simpl. rewrite app_nil_r. split; [reflexivity | intros ? []].
  - rewrite run_cons. destruct (step_out s t) as (l1 & E1 & H1).
    destruct (IH (step s t) (step_inv s t Hinv)) as (l2 & E2 & H2).
    exists (l1 ++ l2). rewrite E2, E1, <- app_assoc. split; [reflexivity|].
    intros j Hin. apply in_app_or in Hin. destruct Hin as [Hin|Hin]; [|auto].
    specialize (H1 j Hin). unfold poller_inv in Hinv. rewrite H1 in Hinv. tauto.
Qed.

(** C6.  At the test of the loop with the flag clear, when the claim returns
    a job whose status is none: the job is freed and the loop calls the wait
    for a notification on "rteval_submq", having sent nothing.  While it
    waits nothing is claimed; a wait that returns at least 1 puts the loop
    back at its test with no new claim made, and the next claim comes only
    then, if the flag is still clear.  A wait that returns less than 1 ends
    the loop with result 1 and the flag set.  And in no run whatsoever is a
    job with status none sent to the queue. *)
Theorem idle_poller_waits (g : globals) (ts : list tick) (t : tick) (j : parseJob_t) :
  let s := run ts (enter g) in
  at_ s = Polling -> shutdown (pg s) = 0 ->
  job_ret t = Some j -> status j = jbNONE ->
  let s1 := step s t in
  (at_ s1 = Waiting /\
   exists lines,
     Forall (fun a => is_signal_line a = true) lines /\
     out (pg s1) =
       out (pg s) ++
       GetJob :: lines ++ [FreeJob j; WaitNotification addr_shutdown "rteval_submq"]) /\
  (forall t', 1 <= notify_ret t' ->
     let s2 := step s1 t' in
     at_ s2 = Polling /\
     count is_claim (out (pg s2)) = count is_claim (out (pg s1)) /\
     (shutdown (pg s2) = 0 -> forall t'',
        count is_claim (out (pg (step s2 t''))) = S (count is_claim (out (pg s1)))) /\
     (shutdown (pg s2) <> 0 -> forall t'',
        returned (step s2 t'') = Some 0 /\ out (pg (step s2 t'')) = out (pg s2))) /\
  (forall t', notify_ret t' < 1 ->
     returned (step s1 t') = Some 1 /\ shutdown (pg (step s1 t')) = 1) /\
  (forall ts' j', In (MqSend j') (out (pg (run ts' (enter g)))) ->
     In (MqSend j') (out g) \/ status j' <> jbNONE).
Proof.
  intros s Ha Hs Hj Hst s1.
  pose proof (run_inv ts (enter g) (enter_inv g)) as Hinv. fold s in Hinv.
  assert (E1 : s1 = mkP (emit (WaitNotification addr_shutdown "rteval_submq")
                          (emit (FreeJob j) (deliver (signals t) (emit GetJob (pg s)))))
                        (errno s) (rc s) Waiting).
  { unfold s1. apply step_nothing_to_do; assumption. }
  assert (Hinv1 : poller_inv s1) by (apply step_inv, Hinv).
  split; [|split; [|split]].
  - split; [rewrite E1; reflexivity|].
    destruct (deliver_emit_lines (signals t) GetJob (pg s)) as (l & El & Fl).
    exists l. split; [assumption|]. rewrite E1. cbn [pg out emit].
    rewrite El, <- !app_assoc. reflexivity.
  - intros t' Hn s2.
    assert (E2 : s2 = mkP (deliver (signals t') (pg s1)) (errno s1) (rc s1) Polling).
    { unfold s2. apply step_woken; [rewrite E1; reflexivity | assumption]. }
    assert (Hc2 : count is_claim (out (pg s2)) = count is_claim (out (pg s1))).
    { rewrite E2. cbn [pg]. destruct (deliver_lines (signals t') (pg s1)) as (l & El & Fl).
      rewrite El, count_app.
      rewrite (count_none is_claim is_signal_line l); [lia | | assumption].
      intros a Hsig. apply (signal_line_uncounted a j Hsig). }
    split; [rewrite E2; reflexivity|]. split; [exact Hc2|]. split.
    + intros Hs2 t''. rewrite <- Hc2. unfold step.
      replace (at_ s2) with Polling by (rewrite E2; reflexivity). rewrite Hs2.
      change (0 =? 0) with true. cbv iota.
      destruct (deliver_emit_lines (signals t'') GetJob (pg s2)) as (l & El & Fl).
      assert (Hl : count is_claim l = 0%nat).
      { apply (count_none is_claim is_signal_line); [|assumption].
        intros a Hsig. apply (signal_line_uncounted a j Hsig). }
      destruct (job_ret t'') as [j''|]; [destruct (status j'')|];
        cbn [bail_out pg out emit set_shutdown]; rewrite El;
        rewrite ?count_app, ?count_cons, ?count_nil, Hl; settle_tests; lia.
    + intros Hs2 t''. rewrite step_shutdown_seen; [|rewrite E2; reflexivity | assumption].
      unfold returned. cbn [at_ rc pg]. split; [|reflexivity].
      f_equal. apply inv_running; [|rewrite E2; discriminate].
      unfold s2. apply step_inv, Hinv1.
  - intros t' Hn. rewrite step_wait_fails; [|rewrite E1; reflexivity | assumption].
    split; reflexivity.
  - intros ts' j' Hin. destruct (run_out ts' (enter g) (enter_inv g)) as (l & El & Hl).
    rewrite El in Hin. apply in_app_or in Hin. destruct Hin as [Hin|Hin]; [left|right].
    + exact Hin.
    + apply Hl, Hin.
Qed.

Lemma idle_poller_waits_witness :
  at_ (step (enter boot) (job_found no_job)) = Waiting /\
  out (pg (step (enter boot) (job_found no_job))) =
    [GetJob; FreeJob no_job; WaitNotification addr_shutdown "rteval_submq"].
Proof.
  destruct (idle_poller_waits boot [] (job_found no_job) no_job
              eq_refl eq_refl eq_refl eq_refl) as ((Ha & _) & _).
  split; [exact Ha | reflexivity].
Defined.

(** *** A full queue *)

Lemma lines_uncounted (l : list action) (j : parseJob_t) :
  Forall (fun a => is_signal_line a = true) l ->
  count (is_send j) l = 0%nat /\ count is_any_send l = 0%nat /\
  count is_claim l = 0%nat /\ count (is_free j) l = 0%nat /\
  count is_cooldown l = 0%nat /\ count is_full_warning l = 0%nat.
Proof.
  intros H. repeat split;
    (apply (count_none _ is_signal_line); [|exact H]);
    intros a Ha; apply (signal_line_uncounted a j Ha).
Qed.

Lemma tally_app (j : parseJob_t) (l1 l2 : list action) :
  tally_of j (l1 ++ l2) = tally_add (tally_of j l1) (tally_of j l2).
Proof. unfold tally_of, tally_add. cbn. rewrite !count_app. reflexivity. Qed.

Lemma tally_lines (j : parseJob_t) (l : list action) :
  Forall (fun a => is_signal_line a = true) l -> tally_of j l = mkTally 0 0 0 0 0 0.
Proof.
  intros H. destruct (lines_uncounted l j H) as (A & B & C & D & E & F).
  unfold tally_of. rewrite A, B, C, D, E, F. reflexivity.
Qed.

Lemma tally_cons (j : parseJob_t) (a : action) (l : list action) :
  tally_of j (a :: l) = tally_add (tally_of j [a]) (tally_of j l).
Proof. apply (tally_app j [a] l). Qed.

(** The claim of a job that is not "none": one claim, nothing sent yet. *)
Lemma claim_round (s : pstate) (t : tick) (j : parseJob_t) :
  at_ s = Polling -> shutdown (pg s) = 0 -> job_ret t = Some j -> status j <> jbNONE ->
  at_ (step s t) = Sending j /\ rc (step s t) = rc s /\
  exists l, out (pg (step s t)) = out (pg s) ++ l /\
            tally_of j l = mkTally 0 0 1 0 0 0.
Proof.
  intros Ha Hs Hj Hst. rewrite (step_job_claimed s t j) by assumption.
  split; [reflexivity|]. split; [reflexivity|].
  cbn [pg out emit]. destruct (deliver_emit_lines (signals t) GetJob (pg s)) as (l & E & F).
  rewrite E, <- app_assoc. eexists. split; [reflexivity|].
  rewrite !tally_app, (tally_cons j GetJob l), (tally_lines j l F).
  unfold tally_of. rewrite !count_cons, !count_nil. settle_tests. reflexivity.
Qed.

(** One round on a full queue: the send, the warning, the sleep of 60, and
    the loop is back at the send with the same job, whatever the flag says. *)
Lemma full_round (s : pstate) (tf tc : tick) (j : parseJob_t) :
  at_ s = Sending j -> reports_full tf -> keeps_errno tc ->
  let s2 := step (step s tf) tc in
  at_ s2 = Sending j /\ rc s2 = rc s /\
  exists l, out (pg s2) = out (pg s) ++ l /\
            tally_of j l = mkTally 1 1 0 0 1 1.
Proof.
  intros Ha [_ He] Hk s2. unfold s2.
  rewrite (step_send_full s tf j Ha He).
  rewrite (step_cooled _ tc j) by (reflexivity || assumption).
  split; [reflexivity|]. split; [reflexivity|].
  cbn [pg out emit].
  destruct (deliver_lines (signals tc)
              (emit (Sleep 60) (emit (Stderr msg_queue_full)
                 (deliver (signals tf) (emit (MqSend j) (pg s))))))
    as (l2 & E2 & F2).
  rewrite E2. cbn [pg out emit].
  destruct (deliver_emit_lines (signals tf) (MqSend j) (pg s)) as (l1 & E1 & F1).
  rewrite E1, <- !app_assoc. eexists. split; [reflexivity|].
  rewrite !tally_app, (tally_cons j (MqSend j) l1), (tally_lines j l1 F1), (tally_lines j l2 F2).
  unfold tally_of. rewrite !count_cons, !count_nil. settle_tests. reflexivity.
Qed.

(** The send that is accepted: the job is freed and the loop is back at its
    test. *)
Lemma accepted_round (s : pstate) (t : tick) (j : parseJob_t) :
  at_ s = Sending j -> accepts t ->
  at_ (step s t) = Polling /\ rc (step s t) = rc s /\
  exists l, out (pg (step s t)) = out (pg s) ++ l /\
            tally_of j l = mkTally 1 1 0 1 0 0.
Proof.
  intros Ha Hacc. rewrite (step_send_accepted s t j Ha Hacc).
  split; [reflexivity|]. split; [reflexivity|].
  cbn [pg out emit].
  destruct (deliver_emit_lines (signals t) (MqSend j) (pg s)) as (l & E & F).
  rewrite E, <- app_assoc. eexists. split; [reflexivity|].
  rewrite !tally_app, (tally_cons j (MqSend j) l), (tally_lines j l F).
  unfold tally_of. rewrite !count_cons, !count_nil. settle_tests. reflexivity.
Qed.

Lemma full_rounds (rounds : list (tick * tick)) (s : pstate) (j : parseJob_t) :
  at_ s = Sending j ->
  Forall (fun r => reports_full (fst r) /\ keeps_errno (snd r)) rounds ->
  let s' := run (rounds_ticks rounds) s in
  at_ s' = Sending j /\ rc s' = rc s /\
  exists l, out (pg s') = out (pg s) ++ l /\
            tally_of j l =
              mkTally (length rounds) (length rounds) 0 0 (length rounds) (length rounds).
Proof.
  intros Ha H. revert s Ha. induction H as [|[tf tc] rounds [Hf Hc] _ IH]; intros s Ha.
  - cbn. repeat split; try assumption. exists []. rewrite app_nil_r. split; reflexivity.
  - cbn [rounds_ticks]. rewrite !run_cons.
    destruct (full_round s tf tc j Ha Hf Hc) as (Ha2 & Hr2 & l1 & E1 & T1).
    destruct (IH _ Ha2) as (Ha3 & Hr3 & l2 & E2 & T2).
    cbv zeta. split; [exact Ha3|]. split; [congruence|].
    exists (l1 ++ l2). rewrite E2, E1, <- app_assoc. split; [reflexivity|].
    rewrite tally_app, T1, T2. reflexivity.
Qed.

Lemma rounds_ticks_take (k : nat) (rounds : list (tick * tick)) :
  Forall (fun r => reports_full (fst r) /\ keeps_errno (snd r)) rounds ->
  Forall (fun r => reports_full (fst r) /\ keeps_errno (snd r)) (take k rounds).
Proof. intros H. apply Forall_take, H. Qed.

(** C1, as the code has it.  The loop is at its test with the flag clear and
    claims a job [j] whose status is not none.  The queue then reports full
    any number of times, each time with [errno] still EAGAIN after the
    cool-down, and finally accepts the message.  Whatever signals arrive on
    the way, and so whether or not shutdown has been requested: after every
    round the loop is again about to send [j]; at the end it is back at its
    test with its result code unchanged, having claimed once, sent [j] once
    per full report and once more, sent no other job, written one warning and
    slept 60 once per full report, and freed [j] once. *)
Theorem full_queue_retries (s : pstate) (j : parseJob_t) (tclaim : tick)
    (rounds : list (tick * tick)) (tlast : tick) :
  at_ s = Polling -> shutdown (pg s) = 0 ->
  job_ret tclaim = Some j -> status j <> jbNONE ->
  Forall (fun r => reports_full (fst r) /\ keeps_errno (snd r)) rounds ->
  accepts tlast ->
  (forall k, at_ (run (tclaim :: rounds_ticks (take k rounds)) s) = Sending j) /\
  let s' := run (tclaim :: rounds_ticks rounds ++ [tlast]) s in
  at_ s' = Polling /\ rc s' = rc s /\
  exists l, out (pg s') = out (pg s) ++ l /\
            tally_of j l =
              mkTally (S (length rounds)) (S (length rounds)) 1 1
                      (length rounds) (length rounds).
Proof.
  intros Ha Hs Hj Hst Hr Hl.
  destruct (claim_round s tclaim j Ha Hs Hj Hst) as (Ha1 & Hr1 & l1 & E1 & T1).
  split.
  - intros k. rewrite run_cons.
    apply (full_rounds (take k rounds) _ j Ha1 (rounds_ticks_take k rounds Hr)).
  - cbv zeta. rewrite run_cons, run_app.
    destruct (full_rounds rounds _ j Ha1 Hr) as (Ha2 & Hr2 & l2 & E2 & T2).
    destruct (accepted_round _ tlast j Ha2 Hl) as (Ha3 & Hr3 & l3 & E3 & T3).
    change (run [tlast] ?x) with (step x tlast).
    split; [exact Ha3|]. split; [congruence|].
    exists (l1 ++ l2 ++ l3). rewrite E3, E2, E1, <- !app_assoc. split; [reflexivity|].
    rewrite !tally_app, T1, T2, T3. unfold tally_add.
    cbn [sends all_sends claims frees cooldowns warnings].
    f_equal; lia.
Qed.

(** Two full reports, a SIGINT during the first cool-down, then success. *)
Lemma full_queue_retries_witness :
  let s' := run (job_found job7 ::
                 rounds_ticks [(send_full, on_signal SIGINT quiet); (send_full, quiet)]
                 ++ [send_ok]) (enter boot) in
  at_ s' = Polling /\ shutdown (pg s') = 1 /\
  tally_of job7 (out (pg s')) = mkTally 3 3 1 1 2 2.
Proof.
  assert (Hfull : reports_full send_full /\ keeps_errno (on_signal SIGINT quiet)).
  { split; [split; [vm_compute|]|]; reflexivity. }
  assert (Hfull' : reports_full send_full /\ keeps_errno quiet).
  { split; [split; [vm_compute|]|]; reflexivity. }
  assert (Hok : accepts send_ok).
  { split; [vm_compute|]; discriminate. }
  assert (Hst : status job7 <> jbNONE) by discriminate.
  assert (Hrounds : Forall (fun r => reports_full (fst r) /\ keeps_errno (snd r))
                       [(send_full, on_signal SIGINT quiet); (send_full, quiet)]).
  { constructor; [exact Hfull|]. constructor; [exact Hfull'|]. constructor. }
  destruct (full_queue_retries (enter boot) job7 (job_found job7)
              [(send_full, on_signal SIGINT quiet); (send_full, quiet)] send_ok
              eq_refl eq_refl eq_refl Hst Hrounds Hok)
    as (_ & Ha & _).
  cbv zeta. split; [exact Ha|]. split; vm_compute; reflexivity.
Defined.

(** Counterexample to C1 as it is worded: SIGTERM arrives while the job is
    being claimed, the queue is full, and when the cool-down ends with the flag set
    the loop goes on to send again. *)
Lemma retry_ignores_shutdown :
  ~ retry_stops_on_shutdown [on_signal SIGTERM (job_found job7); send_full] quiet.
Proof.
  unfold retry_stops_on_shutdown. intros H.
  apply (H job7); [reflexivity | vm_compute; discriminate | reflexivity].
Qed.

(** The same run, spelled out: the flag is 1 from the first step on, and the
    loop has sent the job twice and is about to send it a third time. *)
Example retries_with_flag_set :
  let s := run [on_signal SIGTERM (job_found job7); send_full; quiet; send_full; quiet]
               (enter boot) in
  shutdown (pg s) = 1 /\ at_ s = Sending job7 /\ returned s = None /\
  out (pg s) =
    [GetJob; Stderr msg_starting; Stderr msg_new_job;
     MqSend job7; Stderr msg_queue_full; Sleep 60;
     MqSend job7; Stderr msg_queue_full; Sleep 60].
Proof. vm_compute. repeat split. Qed.

(** When a signal cuts the cool-down short and [errno] no longer reads EAGAIN,
    the do-while ends: the job is freed after the one send that found the
    queue full, and the loop returns 0. *)
Example interrupted_cooldown :
  let s := run [job_found job7; send_full; sleep_interrupted SIGTERM; quiet] (enter boot) in
  returned s = Some 0 /\
  out (pg s) =
    [GetJob; Stderr msg_new_job; MqSend job7; Stderr msg_queue_full; Sleep 60;
     Stderr msg_starting; FreeJob job7].
Proof. vm_compute. split; reflexivity. Qed.

(** ** main *)

(** *** What the statements write *)

Lemma writes_weaken (Q1 Q2 : action -> Prop) (m : M) :
  (forall a, Q1 a -> Q2 a) -> writes Q1 m -> writes Q2 m.
Proof.
  intros HQ H s. destruct (H s) as (l & E & F). exists l. split; [exact E|].
  eapply Forall_impl; eassumption.
Qed.

Lemma writes_nothing (Q : action -> Prop) (m : M) :
  (forall s, out (lg (snd (m s))) = out (lg s)) -> writes Q m.
Proof. intros H s. exists []. rewrite app_nil_r. split; [apply H | constructor]. Qed.

Lemma writes_skip (Q : action -> Prop) : writes Q skip.
Proof. apply writes_nothing. reflexivity. Qed.

Lemma writes_goto_exit (Q : action -> Prop) : writes Q goto_exit.
Proof. apply writes_nothing. reflexivity. Qed.

Lemma writes_halt (Q : action -> Prop) (h : halt_reason) : writes Q (halt h).
Proof. apply writes_nothing. reflexivity. Qed.

Lemma writes_upd (Q : action -> Prop) (f : locals -> locals) :
  (forall s, out (lg (f s)) = out (lg s)) -> writes Q (upd f).
Proof. intros H. apply writes_nothing. exact H. Qed.

Lemma writes_act (Q : action -> Prop) (a : action) : Q a -> writes Q (act a).
Proof. intros H s. exists [a]. split; [reflexivity | constructor; [exact H | constructor]]. Qed.

Lemma writes_acts (Q : action -> Prop) (l : list action) : Forall Q l -> writes Q (acts l).
Proof. intros H s. exists l. split; [reflexivity | exact H]. Qed.

Lemma writes_seq (Q : action -> Prop) (a b : M) :
  writes Q a -> writes Q b -> writes Q (a >> b).
Proof.
  intros Ha Hb s. unfold seqM. destruct (Ha s) as (l1 & E1 & F1).
  destruct (a s) as [[| |o] s1]; cbn [snd] in *; try (exists l1; split; assumption).
  destruct (Hb s1) as (l2 & E2 & F2). exists (l1 ++ l2).
  rewrite E2, E1, <- app_assoc. split; [reflexivity | apply Forall_app; split; assumption].
Qed.

Lemma writes_when (Q : action -> Prop) (b : bool) (m : M) :
  writes Q m -> writes Q (when b m).
Proof. intros H. destruct b; [exact H | apply writes_skip]. Qed.

Lemma writes_if (Q : action -> Prop) (b : bool) (m1 m2 : M) :
  writes Q m1 -> writes Q m2 -> writes Q (if b then m1 else m2).
Proof. intros H1 H2. destruct b; assumption. Qed.

Lemma writes_for_loop (Q : action -> Prop) (body : nat -> M) (n from : nat) :
  (forall i, writes Q (body i)) -> writes Q (for_loop from n body).
Proof.
  intros H. revert from. induction n as [|n IH]; intros from; cbn [for_loop].
  - apply writes_skip.
  - apply writes_seq; [apply H | apply IH].
Qed.

Lemma writes_fail_with (Q : action -> Prop) (code : Z) (msg : string) :
  Q (Stderr msg) -> writes Q (fail_with code msg).
Proof.
  intros H. unfold fail_with.
  apply writes_seq; [apply writes_act, H|].
  apply writes_seq; [apply writes_upd; reflexivity | apply writes_goto_exit].
Qed.

(** Takes a statement apart down to its actions; what is left are the tests
    on single actions. *)
Ltac writes_tac :=
  repeat first
    [ apply writes_seq
    | apply writes_when
    | apply writes_if
    | apply writes_fail_with
    | apply writes_skip
    | apply writes_goto_exit
    | apply writes_halt
    | apply writes_act
    | apply writes_upd; reflexivity ].

(** *** The stages *)

Lemma lines_stderr (f : msg_max_file) :
  Forall (fun a => is_stderr a = true) (snd (get_mqueue_msg_max f)).
Proof.
  unfold get_mqueue_msg_max. destruct f as [| |data]; [repeat constructor ..|].
  rewrite fread128_readable. destruct (_ <? 1); [repeat constructor|].
  destruct (_ <? 1); repeat constructor.
Qed.

Lemma stderr_stage (a : action) : is_stderr a = true -> stage a = 7%nat.
Proof. destruct a; try discriminate. reflexivity. Qed.

Lemma writes_connect_main (e : Env) : writes (from_stage 3) (connect_main e).
Proof. unfold connect_main. writes_tac; unfold from_stage; cbn; lia. Qed.

Lemma writes_allocate_arrays (Q : action -> Prop) (e : Env) : writes Q (allocate_arrays e).
Proof. unfold allocate_arrays. writes_tac. Qed.

Lemma writes_prepare_slot (e : Env) (i : nat) : writes (from_stage 4) (prepare_slot e i).
Proof. unfold prepare_slot. writes_tac; unfold from_stage; cbn; lia. Qed.

Lemma writes_install_handlers (Q : action -> Prop) : writes Q install_handlers.
Proof. unfold install_handlers. writes_tac. Qed.

Lemma writes_start_slot (e : Env) (i : nat) : writes (from_stage 5) (start_slot e i).
Proof. unfold start_slot. writes_tac; unfold from_stage; cbn; lia. Qed.

Lemma signal_line_stage (a : action) : is_signal_line a = true -> from_stage 6 a.
Proof. intros H. destruct (signal_line_cases a H) as [-> | ->]; unfold from_stage; cbn; lia. Qed.

(** Everything the polling loop does belongs to its own stage or is a line on
    stderr. *)
Lemma step_writes (s : pstate) (t : tick) :
  exists l, out (pg (step s t)) = out (pg s) ++ l /\ Forall (from_stage 6) l.
Proof.
  assert (Hl : forall l, Forall (fun a => is_signal_line a = true) l -> Forall (from_stage 6) l).
  { intros l H. eapply Forall_impl; [exact H | apply signal_line_stage]. }
  unfold step.
  destruct (at_ s) as [| |j0|j0|] eqn:Ha.
  - destruct (shutdown (pg s) =? 0);
      [|exists []; simpl; rewrite app_nil_r; split; [reflexivity | constructor]].
    destruct (job_ret t) as [j|]; [destruct (status j)|]; cbn [bail_out pg out emit set_shutdown];
      expose_lines; rewrite <- ?app_assoc;
      (eexists; split; [reflexivity|]);
      repeat (apply Forall_app; split); auto;
      repeat constructor; unfold from_stage; cbn; try lia; auto.
  - destruct (notify_ret t <? 1); cbn [bail_out pg out emit set_shutdown];
      expose_lines; rewrite <- ?app_assoc;
      (eexists; split; [reflexivity|]);
      repeat (apply Forall_app; split); auto;
      repeat constructor; unfold from_stage; cbn; try lia; auto.
  - destruct ((send_ret t <? 0) && negb (send_errno t =? EAGAIN));
      [|destruct (send_errno t =? EAGAIN)];
      cbn [bail_out pg out emit set_shutdown];
      expose_lines; rewrite <- ?app_assoc;
      (eexists; split; [reflexivity|]);
      repeat (apply Forall_app; split); auto;
      repeat constructor; unfold from_stage; cbn; try lia; auto.
  - destruct (_ =? EAGAIN); cbn [bail_out pg out emit set_shutdown];
      expose_lines; rewrite <- ?app_assoc;
      (eexists; split; [reflexivity|]);
      repeat (apply Forall_app; split); auto;
      repeat constructor; unfold from_stage; cbn; try lia; auto.
  - exists []. rewrite app_nil_r. split; [reflexivity | constructor].
Qed.

Lemma run_writes (ts : list tick) (s : pstate) :
  exists l, out (pg (run ts s)) = out (pg s) ++ l /\ Forall (from_stage 6) l.
Proof.
  revert s. induction ts as [|t ts IH]; intros s.
  - exists []. simpl. rewrite app_nil_r. split; [reflexivity | constructor].
  - rewrite run_cons. destruct (step_writes s t) as (l1 & E1 & F1).
    destruct (IH (step s t)) as (l2 & E2 & F2).
    exists (l1 ++ l2). rewrite E2, E1, <- app_assoc.
    split; [reflexivity | apply Forall_app; split; assumption].
Qed.

Lemma writes_poll (e : Env) : writes (from_stage 6) (poll e).
Proof.
  intros s. unfold poll, process_submission_queue.
  destruct (run_writes (poller_ticks e) (enter (lg s))) as (l & E & F).
  exists l. split; [|exact F].
  destruct (returned _); cbn; exact E.
Qed.

Lemma writes_run_checker (e : Env) : writes (from_stage 6) (run_checker e).
Proof.
  unfold run_checker.
  apply writes_seq; [apply writes_act; unfold from_stage; cbn; lia|].
  apply writes_seq; [apply writes_poll | apply writes_act; unfold from_stage; cbn; lia].
Qed.

Lemma writes_release_slot (e : Env) (i : nat) : writes (from_stage 7) (release_slot e i).
Proof.
  unfold release_slot. apply writes_seq.
  - intros s. destruct (threads s) as [arr|]; [|apply writes_skip].
    destruct (arr !! i) as [[started|]|]; try apply writes_skip.
    revert s. writes_tac; unfold from_stage; cbn; lia.
  - intros s. destruct (thrdata s) as [arr|]; [|apply writes_halt].
    destruct (arr !! i) as [[td|]|]; try apply writes_skip.
    revert s. writes_tac; unfold from_stage; cbn; lia.
Qed.

Lemma writes_teardown (e : Env) : writes (from_stage 7) (teardown e).
Proof.
  unfold teardown.
  apply writes_seq; [apply writes_for_loop, writes_release_slot|].
  writes_tac; try (unfold from_stage; cbn; lia).
  - intros s. apply writes_act. unfold from_stage; cbn; lia.
  - apply writes_acts. repeat constructor.
Qed.

Lemma from_stage_weaken (k k' : nat) (a : action) :
  (k' <= k)%nat -> from_stage k a -> from_stage k' a.
Proof. unfold from_stage. lia. Qed.

Lemma writes_after_open (e : Env) : writes (from_stage 3) (after_open e).
Proof.
  unfold after_open.
  apply writes_seq; [writes_tac; unfold from_stage; cbn; lia|].
  apply writes_seq; [apply writes_connect_main|].
  apply writes_seq; [apply writes_allocate_arrays|].
  apply writes_seq.
  { apply writes_for_loop. intros i.
    eapply writes_weaken; [|apply writes_prepare_slot].
    intros a. apply from_stage_weaken. lia. }
  apply writes_seq; [apply writes_install_handlers|].
  apply writes_seq.
  { apply writes_for_loop. intros i.
    eapply writes_weaken; [|apply writes_start_slot].
    intros a. apply from_stage_weaken. lia. }
  eapply writes_weaken; [|apply writes_run_checker].
  intros a. apply from_stage_weaken. lia.
Qed.

(** *** Statements that fall through *)

Lemma seqM_assoc (a b c : M) (s : locals) : ((a >> b) >> c) s = (a >> (b >> c)) s.
Proof. unfold seqM. destruct (a s) as [[| |o] s1]; reflexivity. Qed.

Lemma runs_through_skip : runs_through [] skip.
Proof. intros s. cbn. rewrite app_nil_r. auto. Qed.

Lemma runs_through_act (a : action) : runs_through [a] (act a).
Proof. intros s. split; reflexivity. Qed.

Lemma runs_through_acts (l : list action) : runs_through l (acts l).
Proof. intros s. split; reflexivity. Qed.

Lemma runs_through_seq (l1 l2 : list action) (a b : M) :
  runs_through l1 a -> runs_through l2 b -> runs_through (l1 ++ l2) (a >> b).
Proof.
  intros Ha Hb s. unfold seqM. destruct (Ha s) as [F1 E1].
  destruct (a s) as [f s1]. cbn [fst snd] in *. subst f.
  destruct (Hb s1) as [F2 E2]. split; [exact F2|].
  rewrite E2, E1, <- app_assoc. reflexivity.
Qed.

Lemma runs_through_for_loop (L : nat -> list action) (body : nat -> M) (n from : nat) :
  (forall i, (from <= i < from + n)%nat -> runs_through (L i) (body i)) ->
  runs_through (flat_map L (seq from n)) (for_loop from n body).
Proof.
  revert from. induction n as [|n IH]; intros from H; cbn [for_loop seq flat_map].
  - apply runs_through_skip.
  - apply runs_through_seq; [apply H; lia|]. apply IH. intros i Hi. apply H. lia.
Qed.

Lemma writes_then_start (Q : action -> Prop) (m : M) : writes Q m -> writes_then [] Q m.
Proof. intros H s. destruct (H s) as (l & E & F). exists l. split; assumption. Qed.

Lemma writes_then_seq (l1 l2 : list action) (Q : action -> Prop) (a b : M) :
  runs_through l1 a -> writes_then l2 Q b -> writes_then (l1 ++ l2) Q (a >> b).
Proof.
  intros Ha Hb s. unfold seqM. destruct (Ha s) as [F1 E1].
  destruct (a s) as [f s1]. cbn [fst snd] in *. subst f.
  destruct (Hb s1) as (l' & E2 & F2). exists l'. split; [|exact F2].
  rewrite E2, E1, <- !app_assoc. reflexivity.
Qed.

Lemma writes_then_ext (l : list action) (Q : action -> Prop) (m m' : M) :
  (forall s, m s = m' s) -> writes_then l Q m -> writes_then l Q m'.
Proof. intros H Hm s. rewrite <- H. apply Hm. Qed.

(** What [main] has done: a first part [l] that the start-up writes for
    sure, then whatever the rest of the start-up and the tear-down add. *)
Lemma main_writes_then (e : Env) (l : list action) (k : nat) :
  (k <= 7)%nat -> writes_then l (from_stage k) (startup e) ->
  exists l', snd (main e) = l ++ l' /\ Forall (from_stage k) l'.
Proof.
  intros Hk H. unfold main. destruct (H main_locals) as (l1 & E1 & F1).
  change (out (lg main_locals)) with (@nil action) in E1. cbn [app] in E1.
  destruct (startup e main_locals) as [f s]. cbn [snd] in E1.
  assert (Hleave : exists l', snd (leave e s) = l ++ l' /\ Forall (from_stage k) l').
  { unfold leave. destruct (writes_teardown e s) as (l2 & E2 & F2).
    exists (l1 ++ l2).
    split.
    - destruct (teardown e s) as [[| |o] s']; cbn [snd] in *;
        rewrite E2, E1, <- !app_assoc; reflexivity.
    - apply Forall_app. split; [exact F1|].
      eapply Forall_impl; [exact F2|]. intros a. apply from_stage_weaken. exact Hk. }
  destruct f as [| |o]; try exact Hleave.
  exists l1. split; assumption.
Qed.

(** *** The start-up, stage by stage *)

Lemma runs_through_initialise : runs_through [XsltInit; XmlInitParser; ReadConfig] initialise.
Proof. apply runs_through_acts. Qed.

Lemma runs_through_parse_template (e : Env) :
  stylesheet_parses e (snprintf_path xsltfile_limit (xsltpath e) XMLPARSER_XSL) = true ->
  runs_through
    [XsltParseStylesheetFile (snprintf_path xsltfile_limit (xsltpath e) XMLPARSER_XSL)]
    (parse_template e).
Proof.
  intros H. unfold parse_template. rewrite H.
  apply (runs_through_seq [_] []); [apply runs_through_act | apply runs_through_skip].
Qed.

Lemma startup_unfold (e : Env) (s : locals) :
  startup e s =
  (initialise >> parse_template e >>
   acts (snd (get_mqueue_msg_max (msg_max e))) >>
   act (MqOpen (fst (get_mqueue_msg_max (msg_max e)))) >> after_open e) s.
Proof.
  unfold startup, open_queue, after_open, seqM.
  destruct (initialise s) as [[| |o] s1]; reflexivity.
Qed.

(** When the template parses, [main] goes on to open the queue. *)
Lemma main_until_open (e : Env) :
  stylesheet_parses e (snprintf_path xsltfile_limit (xsltpath e) XMLPARSER_XSL) = true ->
  exists rest, snd (main e) = until_open e ++ rest /\ Forall (from_stage 3) rest.
Proof.
  intros H. apply main_writes_then; [lia|].
  eapply writes_then_ext; [intros s; symmetry; apply startup_unfold|].
  unfold until_open, until_parse.
  replace ([XsltInit; XmlInitParser; ReadConfig;
            XsltParseStylesheetFile (snprintf_path xsltfile_limit (xsltpath e) XMLPARSER_XSL)] ++
           snd (get_mqueue_msg_max (msg_max e)) ++
           [MqOpen (fst (get_mqueue_msg_max (msg_max e)))])
    with ([XsltInit; XmlInitParser; ReadConfig] ++
          [XsltParseStylesheetFile (snprintf_path xsltfile_limit (xsltpath e) XMLPARSER_XSL)] ++
          snd (get_mqueue_msg_max (msg_max e)) ++
          [MqOpen (fst (get_mqueue_msg_max (msg_max e)))] ++ []).
  2:{ rewrite app_nil_r. reflexivity. }
  apply writes_then_seq; [apply runs_through_initialise|].
  apply writes_then_seq; [apply runs_through_parse_template, H|].
  apply writes_then_seq; [apply runs_through_acts|].
  apply writes_then_seq; [apply runs_through_act|].
  apply writes_then_start, writes_after_open.
Qed.

(** When it does not, [main] jumps to [exit], where the first pass of the
    loop reads [thrdata], which nothing has assigned. *)
Lemma main_template_fails (e : Env) :
  stylesheet_parses e (snprintf_path xsltfile_limit (xsltpath e) XMLPARSER_XSL) = false ->
  main e = (Halted Undefined, until_parse e ++ [Stderr msg_xslt]).
Proof.
  intros H. unfold main, startup, seqM. cbn [initialise acts main_locals].
  unfold parse_template, seqM. cbn [act]. rewrite H. reflexivity.
Qed.

(** Whatever happens, [main] starts with the three initialisations and the
    call of the stylesheet parser. *)
Lemma main_until_parse (e : Env) :
  exists rest, snd (main e) = until_parse e ++ rest.
Proof.
  destruct (stylesheet_parses e (snprintf_path xsltfile_limit (xsltpath e) XMLPARSER_XSL))
    eqn:H.
  - destruct (main_until_open e H) as (rest & E & _). rewrite E.
    unfold until_open. rewrite <- app_assoc. eexists. reflexivity.
  - rewrite (main_template_fails e H). eexists. reflexivity.
Qed.

(** *** The capacity of the queue *)



(** C7.  A limit file that holds "-1": what is read parses to -1, which is no
    usable limit, yet [mq_open] is called for 4294967295 messages, which is
    neither the limit read nor the default, and no line is written to stderr
    before the call.  A limit file that cannot be opened, or holds "0",
    gives the default, and one that holds "10" gives 10. *)
Theorem capacity_of_negative_limit :
  msg_max negative_limit = Readable ("-1" ++ LF)%string /\
  atoi_nullsafe (Some ("-1" ++ LF)%string) = -1 /\
  take 5 (snd (main negative_limit)) =
    [XsltInit; XmlInitParser; ReadConfig;
     XsltParseStylesheetFile "/usr/share/rteval/xmlparser.xsl";
     MqOpen 4294967295] /\
  4294967295 <> DEFAULT_MSG_MAX /\
  fst (get_mqueue_msg_max Unopenable) = DEFAULT_MSG_MAX /\
  fst (get_mqueue_msg_max (Readable ("0" ++ LF)%string)) = DEFAULT_MSG_MAX /\
  fst (get_mqueue_msg_max (Readable ("10" ++ LF)%string)) = 10.
Proof. repeat split; try (vm_compute; reflexivity). discriminate. Qed.

(** *** The template path *)

Lemma substring_length (n : nat) (s : string) :
  String.length (substring 0 n s) = Nat.min n (String.length s).
Proof.
  revert n. induction s as [|c r IH]; intros [|n]; cbn; try reflexivity.
  rewrite IH. reflexivity.
Qed.

Lemma full_path_length (dir : string) :
  String.length (full_path dir) = (String.length dir + 14)%nat.
Proof. unfold full_path. rewrite string_length_app. reflexivity. Qed.

(** C10.  The path given to the stylesheet parser is the first 511
    characters of the template directory, a slash and "xmlparser.xsl": the
    limit passed to [snprintf] is 512 and the buffer has 2050 bytes.  When the
    directory and the 14 characters added to it make more than 511, the path
    has exactly 511 characters and is not the full path; otherwise it is the
    full path.  Either way the parser is called with it right after the
    initialisation, with nothing written to stderr before the call, and when
    the parser accepts it [main] goes on to open the queue. *)
Theorem template_path_truncated (e : Env) (dir : string) :
  xsltpath e = Some dir ->
  let path := snprintf_path xsltfile_limit (xsltpath e) XMLPARSER_XSL in
  xsltfile_limit = 512%nat /\ xsltfile_size = 2050%nat /\
  path = substring 0 511 (full_path dir) /\
  (String.length path <= 511)%nat /\
  ((511 < String.length dir + 14)%nat ->
     String.length path = 511%nat /\ path <> full_path dir) /\
  ((String.length dir + 14 <= 511)%nat -> path = full_path dir) /\
  (exists rest,
     snd (main e) =
       [XsltInit; XmlInitParser; ReadConfig; XsltParseStylesheetFile path] ++ rest) /\
  (stylesheet_parses e path = true ->
   exists rest,
     snd (main e) =
       [XsltInit; XmlInitParser; ReadConfig; XsltParseStylesheetFile path] ++
       snd (get_mqueue_msg_max (msg_max e)) ++
       MqOpen (fst (get_mqueue_msg_max (msg_max e))) :: rest).
Proof.
  intros Hdir path.
  assert (Hpath : path = substring 0 511 (full_path dir)).
  { unfold path, snprintf_path. rewrite Hdir. reflexivity. }
  split; [reflexivity|]. split; [reflexivity|]. split; [exact Hpath|].
  split; [rewrite Hpath, substring_length; lia|].
  split.
  { intros Hlong.
    assert (Hlen : String.length path = 511%nat).
    { rewrite Hpath, substring_length, full_path_length. lia. }
    split; [exact Hlen|]. intros Heq. rewrite Heq, full_path_length in Hlen. lia. }
  split.
  { intros Hshort. rewrite Hpath. apply substring_all. rewrite full_path_length. lia. }
  split; [apply main_until_parse|].
  intros H. destruct (main_until_open e H) as (rest & E & _).
  exists rest. rewrite E. unfold until_open, until_parse.
  rewrite <- !app_assoc. reflexivity.
Qed.

(** A template directory of 600 characters: the parser gets 511 of them. *)
Lemma template_path_truncated_witness :
  xsltpath long_path_env = Some long_dir /\
  (511 < String.length long_dir + 14)%nat /\
  String.length (snprintf_path xsltfile_limit (xsltpath long_path_env) XMLPARSER_XSL)
    = 511%nat /\
  snprintf_path xsltfile_limit (xsltpath long_path_env) XMLPARSER_XSL
    <> full_path long_dir.
Proof.
  assert (Hlong : (511 < String.length long_dir + 14)%nat) by (vm_compute; lia).
  split; [reflexivity|]. split; [exact Hlong|].
  destruct (template_path_truncated long_path_env long_dir eq_refl)
    as (_ & _ & _ & _ & H & _).
  exact (H Hlong).
Defined.

(** *** The worker pool *)

Lemma runs_through_open_queue (e : Env) :
  0 <= mq_open_ret e ->
  runs_through (snd (get_mqueue_msg_max (msg_max e)) ++
                [MqOpen (fst (get_mqueue_msg_max (msg_max e)))])
               (open_queue e).
Proof.
  intros H s. unfold open_queue, seqM, acts, act, when.
  destruct (Z.ltb_spec (mq_open_ret e) 0); [lia|]. cbn.
  split; [reflexivity | rewrite <- app_assoc; reflexivity].
Qed.

Lemma runs_through_connect_main (e : Env) :
  db_connect_main e = true -> runs_through [DbConnect Dispatcher] (connect_main e).
Proof. intros H s. unfold connect_main, seqM, act. rewrite H. split; reflexivity. Qed.

Lemma runs_through_allocate_arrays (e : Env) :
  calloc_ok e = true -> runs_through [] (allocate_arrays e).
Proof.
  intros H s. unfold allocate_arrays. rewrite H. cbn. rewrite app_nil_r. auto.
Qed.

Lemma runs_through_prepare_slot (e : Env) (i : nat) :
  malloc_thrdata e i = true -> db_connect_thread e i = true ->
  malloc_attr e i = true -> malloc_thread e i = true ->
  runs_through (prepared i) (prepare_slot e i).
Proof.
  intros H1 H2 H3 H4 s. unfold prepare_slot, seqM, act, upd. rewrite H1, H2, H3, H4.
  cbn. split; [reflexivity | rewrite <- !app_assoc; reflexivity].
Qed.

Lemma runs_through_install_handlers : runs_through [] install_handlers.
Proof. intros s. cbn. rewrite app_nil_r. auto. Qed.

Lemma runs_through_start_slot (e : Env) (i : nat) :
  0 <= pthread_create_ret e i -> runs_through [PthreadCreate i] (start_slot e i).
Proof.
  intros H s. unfold start_slot, seqM, act, upd, when.
  destruct (Z.ltb_spec (pthread_create_ret e i) 0); [lia|].
  cbn. split; reflexivity.
Qed.

(** When nothing fails, [main] reaches the polling loop having made exactly
    the calls of [until_poll]. *)
Lemma main_until_poll (e : Env) :
  startup_succeeds e ->
  exists rest, snd (main e) = until_poll e ++ rest /\ Forall (from_stage 6) rest.
Proof.
  intros (Hx & Hq & Hd & Hc & Hslots). apply main_writes_then; [lia|].
  unfold startup.
  replace (until_poll e)
    with ([XsltInit; XmlInitParser; ReadConfig] ++
          [XsltParseStylesheetFile (snprintf_path xsltfile_limit (xsltpath e) XMLPARSER_XSL)] ++
          (snd (get_mqueue_msg_max (msg_max e)) ++
           [MqOpen (fst (get_mqueue_msg_max (msg_max e)))]) ++
          [DbConnect Dispatcher] ++ [] ++
          flat_map prepared (seq 0 max_threads) ++ [] ++
          flat_map (fun i => [PthreadCreate i]) (seq 0 max_threads) ++ []).
  2:{ unfold until_poll, until_open, until_parse. cbn [app].
      rewrite <- !app_assoc. cbn. reflexivity. }
  apply writes_then_seq; [apply runs_through_initialise|].
  apply writes_then_seq; [apply runs_through_parse_template, Hx|].
  apply writes_then_seq; [apply runs_through_open_queue, Hq|].
  apply writes_then_seq; [apply runs_through_connect_main, Hd|].
  apply writes_then_seq; [apply runs_through_allocate_arrays, Hc|].
  apply writes_then_seq.
  { apply runs_through_for_loop. intros i Hi.
    destruct (Hslots i) as (H1 & H2 & H3 & H4 & _); [lia|].
    apply runs_through_prepare_slot; assumption. }
  apply writes_then_seq; [apply runs_through_install_handlers|].
  apply writes_then_seq.
  { apply runs_through_for_loop. intros i Hi.
    destruct (Hslots i) as (_ & _ & _ & _ & H5); [lia|].
    apply runs_through_start_slot, H5. }
  apply writes_then_start, writes_run_checker.
Qed.

Lemma pool_call_thrdata : pool_call is_thrdata_alloc.
Proof. intros [] H; try discriminate. left. reflexivity. Qed.

Lemma pool_call_connect : pool_call is_worker_connect.
Proof. intros [] H; try discriminate. destruct o; try discriminate. left. reflexivity. Qed.

Lemma pool_call_start : pool_call is_thread_start.
Proof. intros [] H; try discriminate. right. reflexivity. Qed.

Lemma count_outside (p : action -> bool) (l : list action) :
  pool_call p -> Forall (fun a => stage a <> 4%nat /\ stage a <> 5%nat) l ->
  count p l = 0%nat.
Proof.
  intros Hp H. induction H as [|a l [H4 H5] _ IH]; [reflexivity|].
  rewrite count_cons, IH. destruct (p a) eqn:E; [|reflexivity].
  destruct (Hp a E); contradiction.
Qed.

Lemma writes_at_most_seq (p : action -> bool) (k1 k2 : nat) (a b : M) :
  writes_at_most p k1 a -> writes_at_most p k2 b -> writes_at_most p (k1 + k2) (a >> b).
Proof.
  intros Ha Hb s. unfold seqM. destruct (Ha s) as (l1 & E1 & C1).
  destruct (a s) as [[| |o] s1]; cbn [snd] in *;
    try (exists l1; split; [assumption | lia]).
  destruct (Hb s1) as (l2 & E2 & C2). exists (l1 ++ l2).
  rewrite E2, E1, <- app_assoc, count_app. split; [reflexivity | lia].
Qed.

Lemma writes_at_most_none (p : action -> bool) (m : M) :
  pool_call p -> writes (fun a => stage a <> 4%nat /\ stage a <> 5%nat) m ->
  writes_at_most p 0 m.
Proof.
  intros Hp H s. destruct (H s) as (l & E & F). exists l. split; [exact E|].
  rewrite (count_outside p l Hp F). lia.
Qed.

Lemma writes_at_most_for_loop (p : action -> bool) (k : nat) (body : nat -> M)
    (n from : nat) :
  (forall i, writes_at_most p k (body i)) ->
  writes_at_most p (n * k) (for_loop from n body).
Proof.
  intros H. revert from. induction n as [|n IH]; intros from; cbn [for_loop].
  - intros s. exists []. rewrite app_nil_r. split; [reflexivity | cbn; lia].
  - replace (S n * k)%nat with (k + n * k)%nat by lia.
    apply writes_at_most_seq; [apply H | apply IH].
Qed.

Lemma late_stage (k : nat) (a : action) :
  (6 <= k)%nat -> from_stage k a -> stage a <> 4%nat /\ stage a <> 5%nat.
Proof. unfold from_stage. lia. Qed.

(** One pass of the preparing loop makes each of its calls at most once,
    and one pass of the starting loop calls [pthread_create] once. *)
Lemma prepare_slot_at_most (e : Env) (i : nat) (p : action -> bool) :
  p = is_thrdata_alloc \/ p = is_worker_connect \/ p = is_thread_start ->
  writes_at_most p (if p (PthreadCreate 0) then 0 else 1) (prepare_slot e i).
Proof.
  intros Hp s. unfold prepare_slot, seqM, act, upd, fail_with, goto_exit, seqM, act, upd.
  destruct (malloc_thrdata e i), (db_connect_thread e i), (malloc_attr e i),
    (malloc_thread e i); (eexists; split; [cbn; rewrite <- ?app_assoc; reflexivity|]);
    destruct Hp as [-> | [-> | ->]]; cbn [app];
    rewrite ?count_cons, ?count_nil; cbn; lia.
Qed.

Lemma start_slot_at_most (e : Env) (i : nat) (p : action -> bool) :
  p = is_thrdata_alloc \/ p = is_worker_connect \/ p = is_thread_start ->
  writes_at_most p (if p (PthreadCreate 0) then 1 else 0) (start_slot e i).
Proof.
  intros Hp s. unfold start_slot, seqM, act, when, fail_with, seqM, act, upd, goto_exit.
  destruct (pthread_create_ret e i <? 0);
    (eexists; split; [cbn; rewrite <- ?app_assoc; reflexivity|]);
    destruct Hp as [-> | [-> | ->]]; cbn [app];
    rewrite ?count_cons, ?count_nil; cbn; lia.
Qed.

Lemma early_stages (e : Env) :
  writes (fun a => stage a <> 4%nat /\ stage a <> 5%nat)
         (initialise >> parse_template e >> open_queue e >> connect_main e >>
          allocate_arrays e).
Proof.
  assert (Hs : forall msg, stage (Stderr msg) <> 4%nat /\ stage (Stderr msg) <> 5%nat)
    by (intros msg; cbn; lia).
  unfold initialise, parse_template, open_queue, connect_main, allocate_arrays.
  apply writes_seq; [apply writes_acts; repeat constructor; cbn; lia|].
  apply writes_seq; [writes_tac; cbn; lia|].
  apply writes_seq.
  { apply writes_seq.
    - apply writes_acts. eapply Forall_impl; [apply lines_stderr|].
      intros a Ha. rewrite (stderr_stage a Ha). lia.
    - writes_tac; cbn; lia. }
  apply writes_seq; writes_tac; cbn; lia.
Qed.

Lemma startup_regroup (e : Env) (s : locals) :
  startup e s =
  ((initialise >> parse_template e >> open_queue e >> connect_main e >>
    allocate_arrays e) >>
   for_loop 0 max_threads (prepare_slot e) >>
   install_handlers >>
   for_loop 0 max_threads (start_slot e) >>
   run_checker e) s.
Proof.
  unfold startup. rewrite !seqM_assoc. unfold seqM.
  destruct (initialise s) as [[| |o] s1]; try reflexivity.
  destruct (parse_template e s1) as [[| |o] s2]; try reflexivity.
  destruct (open_queue e s2) as [[| |o] s3]; try reflexivity.
  destruct (connect_main e s3) as [[| |o] s4]; reflexivity.
Qed.

Lemma main_at_most (e : Env) (p : action -> bool) :
  p = is_thrdata_alloc \/ p = is_worker_connect \/ p = is_thread_start ->
  (count p (snd (main e)) <= 5)%nat.
Proof.
  intros Hp.
  assert (Hpool : pool_call p).
  { destruct Hp as [-> | [-> | ->]];
      [apply pool_call_thrdata | apply pool_call_connect | apply pool_call_start]. }
  assert (Hstart : writes_at_most p 5 (startup e)).
  { intros s. rewrite startup_regroup. revert s.
    replace 5%nat
      with (0 + (max_threads * (if p (PthreadCreate 0) then 0 else 1) +
                 (0 + (max_threads * (if p (PthreadCreate 0) then 1 else 0) + 0))))%nat
      by (destruct (p (PthreadCreate 0)); reflexivity).
    apply writes_at_most_seq; [apply writes_at_most_none; [exact Hpool | apply early_stages]|].
    apply writes_at_most_seq;
      [apply writes_at_most_for_loop; intros i; apply prepare_slot_at_most, Hp|].
    apply writes_at_most_seq.
    { apply writes_at_most_none; [exact Hpool|]. apply writes_install_handlers. }
    apply writes_at_most_seq;
      [apply writes_at_most_for_loop; intros i; apply start_slot_at_most, Hp|].
    apply writes_at_most_none; [exact Hpool|].
    eapply writes_weaken; [|apply writes_run_checker]. intros a. apply late_stage. lia. }
  assert (Hdown : writes_at_most p 0 (teardown e)).
  { apply writes_at_most_none; [exact Hpool|].
    eapply writes_weaken; [|apply writes_teardown]. intros a. apply late_stage. lia. }
  unfold main. destruct (Hstart main_locals) as (l1 & E1 & C1).
  change (out (lg main_locals)) with (@nil action) in E1. cbn [app] in E1.
  destruct (startup e main_locals) as [f s]. cbn [snd] in E1.
  assert (Hleave : (count p (snd (leave e s)) <= 5)%nat).
  { unfold leave. destruct (Hdown s) as (l2 & E2 & C2).
    destruct (teardown e s) as [[| |o] s']; cbn [snd] in *;
      rewrite E2, E1, count_app; lia. }
  destruct f as [| |o]; try exact Hleave.
  cbn [snd]. rewrite E1. exact C1.
Qed.

(** C8.  The size of the pool is the constant 5.  On every machine on which
    the start-up succeeds, and whatever the configuration says, [main]
    allocates exactly 5 worker contexts, opens exactly 5 worker connections
    and calls [pthread_create] exactly 5 times; and on no machine does it do
    any of the three more than 5 times. *)
Theorem five_workers (e : Env) :
  max_threads = 5%nat /\
  (startup_succeeds e ->
     count is_thrdata_alloc (snd (main e)) = 5%nat /\
     count is_worker_connect (snd (main e)) = 5%nat /\
     count is_thread_start (snd (main e)) = 5%nat) /\
  ((count is_thrdata_alloc (snd (main e)) <= 5)%nat /\
   (count is_worker_connect (snd (main e)) <= 5)%nat /\
   (count is_thread_start (snd (main e)) <= 5)%nat).
Proof.
  split; [reflexivity|]. split.
  - intros H. destruct (main_until_poll e H) as (rest & E & F). rewrite E.
    assert (Hrest : forall p, pool_call p -> count p rest = 0%nat).
    { intros p Hp. apply count_outside; [exact Hp|].
      eapply Forall_impl; [exact F|]. intros a. apply late_stage. lia. }
    assert (Hlines : forall p, pool_call p ->
              count p (snd (get_mqueue_msg_max (msg_max e))) = 0%nat).
    { intros p Hp. apply count_outside; [exact Hp|].
      eapply Forall_impl; [apply lines_stderr|].
      intros a Ha. rewrite (stderr_stage a Ha). lia. }
    unfold until_poll, until_open, until_parse.
    rewrite !count_app.
    rewrite (Hrest _ pool_call_thrdata), (Hrest _ pool_call_connect),
      (Hrest _ pool_call_start), (Hlines _ pool_call_thrdata),
      (Hlines _ pool_call_connect), (Hlines _ pool_call_start).
    repeat split; reflexivity.
  - repeat split; apply main_at_most; auto.
Qed.

(** The healthy machine, with a polling loop that is stopped at once. *)
Lemma five_workers_witness :
  startup_succeeds (healthy [on_signal SIGTERM (job_found no_job); notified; quiet]) /\
  count is_thread_start
    (snd (main (healthy [on_signal SIGTERM (job_found no_job); notified; quiet]))) = 5%nat.
Proof.
  assert (H : startup_succeeds
                (healthy [on_signal SIGTERM (job_found no_job); notified; quiet])).
  { split; [reflexivity|]. split; [vm_compute; discriminate|].
    split; [reflexivity|]. split; [reflexivity|].
    intros i _. repeat split; try reflexivity; vm_compute; discriminate. }
  split; [exact H|].
  destruct (five_workers (healthy [on_signal SIGTERM (job_found no_job); notified; quiet]))
    as (_ & Hex & _).
  destruct (Hex H) as (_ & _ & Hc). exact Hc.
Defined.

(** *** The exit code *)

Lemma keeps_same (P : Z -> Prop) (m : M) :
  (forall s, main_rc (snd (m s)) = main_rc s) -> keeps P m.
Proof. intros H s Hs. rewrite H. exact Hs. Qed.

Lemma keeps_seq (P : Z -> Prop) (a b : M) : keeps P a -> keeps P b -> keeps P (a >> b).
Proof.
  intros Ha Hb s Hs. unfold seqM. specialize (Ha s Hs).
  destruct (a s) as [[| |o] s1]; cbn [snd] in *; try exact Ha. apply Hb, Ha.
Qed.

Lemma keeps_when (P : Z -> Prop) (b : bool) (m : M) :
  (b = true -> keeps P m) -> keeps P (when b m).
Proof. intros H. destruct b; [apply H; reflexivity | apply keeps_same; reflexivity]. Qed.

Lemma keeps_if (P : Z -> Prop) (b : bool) (m1 m2 : M) :
  keeps P m1 -> keeps P m2 -> keeps P (if b then m1 else m2).
Proof. intros H1 H2. destruct b; assumption. Qed.

Lemma keeps_for_loop (P : Z -> Prop) (body : nat -> M) (n from : nat) :
  (forall i, (from <= i < from + n)%nat -> keeps P (body i)) ->
  keeps P (for_loop from n body).
Proof.
  revert from. induction n as [|n IH]; intros from H; cbn [for_loop].
  - apply keeps_same. reflexivity.
  - apply keeps_seq; [apply H; lia|]. apply IH. intros i Hi. apply H. lia.
Qed.

Lemma keeps_fail_with (P : Z -> Prop) (code : Z) (msg : string) :
  P code -> keeps P (fail_with code msg).
Proof. intros H s _. exact H. Qed.

Lemma keeps_set_rc (P : Z -> Prop) (code : Z) : P code -> keeps P (upd (with_rc code)).
Proof. intros H s _. exact H. Qed.

Ltac keeps_tac :=
  repeat match goal with
    | |- keeps _ (_ >> _) => apply keeps_seq
    | |- keeps _ (if _ then _ else _) => apply keeps_if
    | |- keeps _ (fail_with _ _) => apply keeps_fail_with; assumption
    | |- keeps _ (upd (with_rc _)) => apply keeps_set_rc; assumption
    | |- keeps _ _ => apply keeps_same; reflexivity
    end.

(** The polling loop gives [main] a result code of 0, 1 or 2. *)
Lemma keeps_poll (e : Env) (P : Z -> Prop) :
  P 0 -> P 1 -> P 2 -> keeps P (poll e).
Proof.
  intros P0 P1 P2 s Hs. unfold poll, process_submission_queue.
  pose proof (run_inv (poller_ticks e) (enter (lg s)) (enter_inv _)) as Hinv.
  unfold returned. unfold poller_inv in Hinv.
  destruct (at_ (run (poller_ticks e) (enter (lg s)))); cbn [snd main_rc with_g with_rc];
    try exact Hs.
  destruct Hinv as [[-> _] | [[-> | ->] _]]; assumption.
Qed.

Lemma keeps_startup (e : Env) : keeps (exit_code_of e) (startup e).
Proof.
  assert (P0 : exit_code_of e 0) by (left; reflexivity).
  assert (P1 : exit_code_of e 1) by (right; left; reflexivity).
  assert (P2 : exit_code_of e 2) by (right; right; left; reflexivity).
  unfold startup, initialise, parse_template, open_queue, connect_main,
    allocate_arrays, install_handlers, run_checker.
  apply keeps_seq; [keeps_tac|].
  apply keeps_seq; [apply keeps_seq; [keeps_tac | apply keeps_when; intros _; keeps_tac]|].
  apply keeps_seq.
  { apply keeps_seq; [keeps_tac|]. apply keeps_seq; [keeps_tac|].
    apply keeps_when; intros _; keeps_tac. }
  apply keeps_seq; [keeps_tac|].
  apply keeps_seq; [keeps_tac|].
  apply keeps_seq.
  { apply keeps_for_loop. intros i _. unfold prepare_slot. keeps_tac. }
  apply keeps_seq; [keeps_tac|].
  apply keeps_seq.
  { apply keeps_for_loop. intros i Hi. unfold start_slot.
    apply keeps_seq; [keeps_tac|].
    apply keeps_seq; [keeps_tac|].
    apply keeps_when. intros Hneg. apply keeps_fail_with.
    right; right; right. split; [reflexivity|]. exists i. split; [lia|].
    apply Z.ltb_lt, Hneg. }
  apply keeps_seq; [keeps_tac|].
  apply keeps_seq; [apply keeps_poll; assumption | keeps_tac].
Qed.

(** The tear-down leaves the result code alone. *)
Lemma same_rc_seq (a b : M) : same_rc a -> same_rc b -> same_rc (a >> b).
Proof.
  intros Ha Hb s. unfold seqM. specialize (Ha s).
  destruct (a s) as [[| |h] s1]; cbn [snd] in *; try exact Ha. rewrite Hb. exact Ha.
Qed.

Lemma same_rc_when (b : bool) (m : M) : same_rc m -> same_rc (when b m).
Proof. intros H. destruct b; [exact H | intros s; reflexivity]. Qed.

Lemma same_rc_for_loop (body : nat -> M) (n from : nat) :
  (forall i, same_rc (body i)) -> same_rc (for_loop from n body).
Proof.
  intros H. revert from. induction n as [|n IH]; intros from; cbn [for_loop].
  - intros s. reflexivity.
  - apply same_rc_seq; [apply H | apply IH].
Qed.

Ltac same_rc_tac :=
  repeat first
    [ apply same_rc_seq
    | apply same_rc_when
    | intros ?; reflexivity ].

Lemma teardown_rc (e : Env) : same_rc (teardown e).
Proof.
  unfold teardown. apply same_rc_seq.
  - apply same_rc_for_loop. intros i. unfold release_slot. apply same_rc_seq.
    + intros s. destruct (threads s) as [arr|]; [|reflexivity].
      destruct (arr !! i) as [[started|]|];
        first [reflexivity | revert s; same_rc_tac].
    + intros s. destruct (thrdata s) as [arr|]; [|reflexivity].
      destruct (arr !! i) as [[td|]|];
        first [reflexivity | revert s; same_rc_tac].
  - same_rc_tac.
Qed.

(** Whenever [main] returns, it returns 0, 1, 2 or 3, and it returns 3 only
    on a machine where a [pthread_create] returned a negative value. *)
Lemma main_exit_codes (e : Env) (c : Z) :
  fst (main e) = Exit c -> exit_code_of e c.
Proof.
  unfold main. pose proof (keeps_startup e main_locals) as H.
  destruct (startup e main_locals) as [f s]. cbn [snd] in H.
  assert (Hs : exit_code_of e (main_rc s)) by (apply H; left; reflexivity).
  assert (Hleave : fst (leave e s) = Exit c -> exit_code_of e c).
  { unfold leave. pose proof (teardown_rc e s) as Hrc.
    destruct (teardown e s) as [[| |h] s']; cbn [fst snd] in *; intros Hc;
      try discriminate; injection Hc as <-; rewrite Hrc; exact Hs. }
  destruct f as [| |h]; try exact Hleave. discriminate.
Qed.

(** *** The tear-down *)

Lemma release_slot_spec (e : Env) (i : nat) (s : locals) :
  thrdata s <> None ->
  fst (release_slot e i s) = Next /\
  out (lg (snd (release_slot e i s))) = out (lg s) ++ slot_release e s i /\
  (forall j, j <> i ->
     thread_slot (snd (release_slot e i s)) j = thread_slot s j /\
     thrdata_slot (snd (release_slot e i s)) j = thrdata_slot s j) /\
  thrdata (snd (release_slot e i s)) <> None /\
  dbc (snd (release_slot e i s)) = dbc s /\
  main_rc (snd (release_slot e i s)) = main_rc s.
Proof.
  intros Hd. unfold release_slot, slot_release, thread_slot, thrdata_slot, seqM.
  destruct s as [g th at_ td d r]. cbn [thrdata threads] in *.
  destruct td as [tdarr|]; [clear Hd|contradiction].
  assert (Hne : forall A (arr : list (option A)) (j : nat), j <> i ->
            <[i := None]> arr !! j = arr !! j).
  { intros A arr j Hj. apply list_lookup_insert_ne. congruence. }
  destruct th as [tharr|].
  - destruct (tharr !! i) as [[b|]|] eqn:Eth; destruct (tdarr !! i) as [[t|]|] eqn:Etd;
      unfold act, upd, when, skip, seqM;
      destruct (negb (pthread_join_ret e i =? 0));
      cbn; rewrite ?Eth, ?Etd; cbn; rewrite <- ?app_assoc, ?app_nil_r;
      (split; [reflexivity|]); (split; [reflexivity|]);
      (split; [intros j Hj; rewrite ?(Hne _ _ j Hj); split; reflexivity|]);
      repeat split; discriminate.
  - destruct (tdarr !! i) as [[t|]|] eqn:Etd;
      unfold act, upd, when, skip, seqM;
      cbn; rewrite ?Etd; cbn; rewrite <- ?app_assoc, ?app_nil_r;
      (split; [reflexivity|]); (split; [reflexivity|]);
      (split; [intros j Hj; rewrite ?(Hne _ _ j Hj); split; reflexivity|]);
      repeat split; discriminate.
Qed.

Lemma slot_release_ext (e : Env) (s s' : locals) (i : nat) :
  thread_slot s' i = thread_slot s i -> thrdata_slot s' i = thrdata_slot s i ->
  slot_release e s' i = slot_release e s i.
Proof. intros H1 H2. unfold slot_release. rewrite H1, H2. reflexivity. Qed.

Lemma flat_map_agree (f g : nat -> list action) (l : list nat) :
  (forall i, In i l -> f i = g i) -> flat_map f l = flat_map g l.
Proof.
  induction l as [|a l IH]; intros H; [reflexivity|].
  cbn [flat_map]. rewrite (H a) by (left; reflexivity).
  rewrite IH; [reflexivity|]. intros i Hi. apply H. right. exact Hi.
Qed.

Lemma release_loop_spec (e : Env) (n from : nat) (s : locals) :
  thrdata s <> None ->
  fst (for_loop from n (release_slot e) s) = Next /\
  out (lg (snd (for_loop from n (release_slot e) s))) =
    out (lg s) ++ flat_map (slot_release e s) (seq from n) /\
  dbc (snd (for_loop from n (release_slot e) s)) = dbc s /\
  main_rc (snd (for_loop from n (release_slot e) s)) = main_rc s.
Proof.
  revert from s. induction n as [|n IH]; intros from s Hd.
  - cbn. rewrite app_nil_r. auto.
  - cbn [for_loop seq flat_map]. unfold seqM.
    destruct (release_slot_spec e from s Hd) as (F1 & E1 & Hslots & Hd1 & D1 & R1).
    destruct (release_slot e from s) as [f s1]. cbn [fst snd] in *. subst f.
    destruct (IH (S from) s1 Hd1) as (F2 & E2 & D2 & R2).
    split; [exact F2|]. split; [|split; congruence].
    rewrite E2, E1, <- app_assoc. f_equal. f_equal.
    apply flat_map_agree. intros j Hj. apply in_seq in Hj.
    destruct (Hslots j) as [H1 H2]; [lia|]. apply slot_release_ext; assumption.
Qed.

(** The tear-down, once [thrdata] has been assigned: slot by slot, in the
    order of the slots, the join (if the slot holds a [pthread_t]) before the
    disconnection (if it holds a context); then the queue is closed and
    removed; then the connection of the main thread, the configuration and
    the libraries.  The result code is left as it was. *)
Lemma teardown_order (e : Env) (s : locals) :
  thrdata s <> None ->
  leave e s =
  (Exit (main_rc s),
   out (lg s) ++ flat_map (slot_release e s) (seq 0 max_threads) ++ closing e s).
Proof.
  intros Hd. unfold leave, teardown, seqM.
  destruct (release_loop_spec e max_threads 0 s Hd) as (F & E & D & R).
  destruct (for_loop 0 max_threads (release_slot e) s) as [f s1].
  cbn [fst snd] in *. subst f. unfold closing, act, acts, when, skip.
  destruct (mq_close_ret e <? 0), (mq_unlink_ret e <? 0);
    cbn [fst snd lg out with_g emit emits main_rc dbc];
    rewrite E, D, R, <- ?app_assoc; reflexivity.
Qed.

(** Before that, the first pass of the loop reads [thrdata] unassigned. *)
Lemma teardown_undefined (e : Env) (s : locals) :
  thrdata s = None -> threads s = None -> leave e s = (Halted Undefined, out (lg s)).
Proof.
  intros Hd Ht. destruct s as [g th ta td d r]. cbn in Hd, Ht. subst th td.
  reflexivity.
Qed.

(** C4.  The connection for worker 1 cannot be opened: [main] jumps to
    [exit] with result 2 and no thread started.  The tear-down runs slot by
    slot, join before disconnection, then closes and removes the queue and
    releases the rest last; but it calls [pthread_join] for slot 0, whose
    [pthread_t] was allocated and never given to [pthread_create]. *)
Theorem teardown_joins_unstarted_thread :
  main second_connection_fails =
  (Exit 2,
   [XsltInit; XmlInitParser; ReadConfig;
    XsltParseStylesheetFile "/usr/share/rteval/xmlparser.xsl";
    MqOpen 10; DbConnect Dispatcher;
    MallocThrdata 0; DbConnect (Worker 0); MallocAttr 0; MallocThread 0;
    MallocThrdata 1; DbConnect (Worker 1); Stderr msg_db_thread;
    PthreadJoin 0 false; AttrDestroy 0; FreeThread 0; FreeAttr 0;
    DbDisconnect (Worker 0) true; FreeThrdata 0;
    DbDisconnect (Worker 1) false; FreeThrdata 1;
    FreeArrays; MqClose; MqUnlink;
    DbDisconnect Dispatcher true;
    FreeConfig; XsltFreeStylesheet; XmlCleanupParser; XsltCleanupGlobals]) /\
  count is_thread_start (snd (main second_connection_fails)) = 0%nat.
Proof. split; vm_compute; reflexivity. Qed.

(** With a [pthread_create] that never returns a negative value, as POSIX
    has it, [main] never returns 3. *)
Lemma exit_3_unreachable (e : Env) :
  (forall i, 0 <= pthread_create_ret e i) -> fst (main e) <> Exit 3.
Proof.
  intros H Hc. destruct (main_exit_codes e 3 Hc) as [?|[?|[?|[_ (i & _ & Hi)]]]];
    try discriminate. specialize (H i). lia.
Qed.

(** C5.  The first [pthread_create] fails with EAGAIN (11): the test
    [thr_rc < 0] does not see it, [main] starts the other four threads, runs
    the polling loop, joins slot 0 along with the others, and returns what the
    polling loop returned, 0. *)
Theorem failed_thread_start_goes_unnoticed :
  pthread_create_ret first_thread_fails 0 = 11 /\
  main first_thread_fails =
  (Exit 0,
   [XsltInit; XmlInitParser; ReadConfig;
    XsltParseStylesheetFile "/usr/share/rteval/xmlparser.xsl";
    MqOpen 10; DbConnect Dispatcher;
    MallocThrdata 0; DbConnect (Worker 0); MallocAttr 0; MallocThread 0;
    MallocThrdata 1; DbConnect (Worker 1); MallocAttr 1; MallocThread 1;
    MallocThrdata 2; DbConnect (Worker 2); MallocAttr 2; MallocThread 2;
    MallocThrdata 3; DbConnect (Worker 3); MallocAttr 3; MallocThread 3;
    MallocThrdata 4; DbConnect (Worker 4); MallocAttr 4; MallocThread 4;
    PthreadCreate 0; PthreadCreate 1; PthreadCreate 2; PthreadCreate 3;
    PthreadCreate 4;
    Stderr msg_checker_start;
    GetJob; FreeJob no_job; WaitNotification addr_shutdown "rteval_submq";
    Stderr msg_starting;
    Stderr msg_checker_stop;
    PthreadJoin 0 false; AttrDestroy 0; FreeThread 0; FreeAttr 0;
    DbDisconnect (Worker 0) true; FreeThrdata 0;
    PthreadJoin 1 true; AttrDestroy 1; FreeThread 1; FreeAttr 1;
    DbDisconnect (Worker 1) true; FreeThrdata 1;
    PthreadJoin 2 true; AttrDestroy 2; FreeThread 2; FreeAttr 2;
    DbDisconnect (Worker 2) true; FreeThrdata 2;
    PthreadJoin 3 true; AttrDestroy 3; FreeThread 3; FreeAttr 3;
    DbDisconnect (Worker 3) true; FreeThrdata 3;
    PthreadJoin 4 true; AttrDestroy 4; FreeThread 4; FreeAttr 4;
    DbDisconnect (Worker 4) true; FreeThrdata 4;
    FreeArrays; MqClose; MqUnlink;
    DbDisconnect Dispatcher true;
    FreeConfig; XsltFreeStylesheet; XmlCleanupParser; XsltCleanupGlobals]).
Proof. split; vm_compute; reflexivity. Qed.

(** A clean run from start to end, for comparison. *)
Example clean_run :
  main (healthy one_job_then_sigterm) =
  (Exit 0,
   until_poll (healthy one_job_then_sigterm) ++
   [Stderr msg_checker_start;
    GetJob; Stderr msg_new_job;
    MqSend job7; Stderr msg_queue_full; Sleep 60;
    MqSend job7; FreeJob job7;
    GetJob; Stderr msg_starting; FreeJob no_job;
    WaitNotification addr_shutdown "rteval_submq";
    Stderr msg_checker_stop;
    PthreadJoin 0 true; AttrDestroy 0; FreeThread 0; FreeAttr 0;
    DbDisconnect (Worker 0) true; FreeThrdata 0;
    PthreadJoin 1 true; AttrDestroy 1; FreeThread 1; FreeAttr 1;
    DbDisconnect (Worker 1) true; FreeThrdata 1;
    PthreadJoin 2 true; AttrDestroy 2; FreeThread 2; FreeAttr 2;
    DbDisconnect (Worker 2) true; FreeThrdata 2;
    PthreadJoin 3 true; AttrDestroy 3; FreeThread 3; FreeAttr 3;
    DbDisconnect (Worker 3) true; FreeThrdata 3;
    PthreadJoin 4 true; AttrDestroy 4; FreeThread 4; FreeAttr 4;
    DbDisconnect (Worker 4) true; FreeThrdata 4;
    FreeArrays; MqClose; MqUnlink;
    DbDisconnect Dispatcher true;
    FreeConfig; XsltFreeStylesheet; XmlCleanupParser; XsltCleanupGlobals]).
Proof. vm_compute. reflexivity. Qed.

(** * Further properties *)

(** ** The polling loop over whole runs *)

Lemma signal_line_off_books (a : action) :
  is_signal_line a = true ->
  is_any_free a = false /\ is_wait a = false /\ is_sleep a = false /\
  is_any_send a = false /\ is_claim a = false.
Proof.
  intros H. destruct (signal_line_cases a H) as [-> | ->];
    repeat split; try reflexivity; apply bool_decide_eq_false_2; discriminate.
Qed.

Lemma lines_off_books (l : list action) :
  Forall (fun a => is_signal_line a = true) l ->
  count is_any_free l = 0%nat /\ count is_wait l = 0%nat /\ count is_sleep l = 0%nat /\
  count is_any_send l = 0%nat /\ count is_claim l = 0%nat.
Proof.
  intros H. repeat split;
    (apply (count_none _ is_signal_line); [|exact H]);
    intros a Ha; apply (signal_line_off_books a Ha).
Qed.

(** Counts the actions of a list made of known actions and signal lines. *)
Ltac do_books :=
  rewrite ?count_app, ?count_cons, ?count_nil;
  repeat match goal with
    | F : Forall (fun a => is_signal_line a = true) ?l |- _ =>
        let H := fresh "B" in
        pose proof (lines_off_books l F) as H;
        destruct H as (? & ? & ? & ? & ?); clear F
    end;
  repeat match goal with H : count _ _ = 0%nat |- _ => rewrite H; clear H end;
  repeat match goal with
    | |- context [is_claim ?a] =>
        let v := eval vm_compute in (is_claim a) in change (is_claim a) with v
    end;
  cbn [is_any_free is_wait is_sleep is_any_send].

(** One step keeps the books balanced. *)
Lemma step_books (s : pstate) (t : tick) (l0 : list action) :
  books_balance s l0 ->
  exists l, out (pg (step s t)) = out (pg s) ++ l /\
            books_balance (step s t) (l0 ++ l).
Proof.
  unfold books_balance, holding, step. intros (B1 & B2 & B3).
  destruct (at_ s) as [| |j0|j0|] eqn:Ha.
  - destruct (shutdown (pg s) =? 0).
    + destruct (job_ret t) as [j|]; [destruct (status j)|];
        cbn [bail_out pg out emit set_shutdown at_];
        expose_lines; rewrite <- ?app_assoc;
        (eexists; split; [reflexivity|]); do_books; lia.
    + exists []. cbn [pg at_]. rewrite !app_nil_r. split; [reflexivity | lia].
  - destruct (notify_ret t <? 1); cbn [bail_out pg out emit set_shutdown at_];
      expose_lines; rewrite <- ?app_assoc;
      (eexists; split; [reflexivity|]); do_books; lia.
  - destruct ((send_ret t <? 0) && negb (send_errno t =? EAGAIN));
      [|destruct (send_errno t =? EAGAIN)];
      cbn [bail_out pg out emit set_shutdown at_];
      expose_lines; rewrite <- ?app_assoc;
      (eexists; split; [reflexivity|]); do_books; lia.
  - destruct (_ =? EAGAIN); cbn [bail_out pg out emit set_shutdown at_];
      expose_lines; rewrite <- ?app_assoc;
      (eexists; split; [reflexivity|]); do_books; lia.
  - exists []. rewrite Ha, !app_nil_r. split; [reflexivity | lia].
Qed.

Lemma run_books (ts : list tick) (s : pstate) (l0 : list action) :
  books_balance s l0 ->
  exists l, out (pg (run ts s)) = out (pg s) ++ l /\
            books_balance (run ts s) (l0 ++ l).
Proof.
  revert s l0. induction ts as [|t ts IH]; intros s l0 H.
  - exists []. rewrite app_nil_r. cbn. rewrite app_nil_r. auto.
  - rewrite run_cons. destruct (step_books s t l0 H) as (l1 & E1 & H1).
    destruct (IH (step s t) (l0 ++ l1) H1) as (l2 & E2 & H2).
    exists (l1 ++ l2). rewrite E2, E1, <- app_assoc. split; [reflexivity|].
    rewrite app_assoc. exact H2.
Qed.

Lemma enter_books (g : globals) : books_balance (enter g) [].
Proof. unfold books_balance. cbn. lia. Qed.

Lemma run_added (s : pstate) (ts : list tick) :
  out (pg (run ts s)) = out (pg s) ++ added s ts.
Proof.
  unfold added. destruct (run_writes ts s) as (l & E & _).
  rewrite E, drop_app_length. reflexivity.
Qed.

Lemma performed_books (g : globals) (ts : list tick) :
  books_balance (run ts (enter g)) (performed g ts).
Proof.
  destruct (run_books ts (enter g) [] (enter_books g)) as (l & E & H).
  unfold performed, added. rewrite E, drop_app_length. exact H.
Qed.

(** X1.  In every run of the polling loop, from its entry on, the calls that
    free a job never outnumber the claims, and while the loop holds a job on
    its way to the queue they are at least one fewer: the loop frees nothing
    it has not claimed. *)
Theorem frees_follow_claims (g : globals) (ts : list tick) :
  let s := run ts (enter g) in
  out (pg s) = out g ++ performed g ts /\
  (count is_any_free (performed g ts) + holding s
   <= count is_claim (performed g ts))%nat.
Proof.
  cbv zeta. split; [apply (run_added (enter g) ts)|].
  apply (performed_books g ts).
Qed.

(** X2.  In every run of the polling loop the sends never outnumber the
    claims and the sleeps of the cool-down taken together, and while the loop
    holds a job they are at least one fewer: every send is owed to a claim or
    to a sleep. *)
Theorem sends_follow_claim_or_sleep (g : globals) (ts : list tick) :
  (count is_any_send (performed g ts) + holding (run ts (enter g))
   <= count is_claim (performed g ts) + count is_sleep (performed g ts))%nat.
Proof. apply (performed_books g ts). Qed.

(** X3.  In every run of the polling loop the claims never outnumber the
    waits for a notification and the sends taken together by more than
    one. *)
Theorem claims_follow_wait_or_send (g : globals) (ts : list tick) :
  (count is_claim (performed g ts)
   <= count is_wait (performed g ts) + count is_any_send (performed g ts) + 1)%nat.
Proof.
  destruct (performed_books g ts) as (_ & _ & H).
  destruct (at_ (run ts (enter g))); lia.
Qed.

(** *** Once the flag is set *)

Lemma step_flag (s : pstate) (t : tick) :
  shutdown (pg s) <> 0 ->
  shutdown (pg (step s t)) = shutdown (pg s) \/ shutdown (pg (step s t)) = 1.
Proof.
  intros Hs.
  assert (Hd : forall sigs a, shutdown (deliver sigs (emit a (pg s))) = shutdown (pg s)).
  { intros sigs a. destruct (deliver_set sigs (emit a (pg s))) as [E _]; [exact Hs|].
    rewrite E. reflexivity. }
  assert (Hd' : forall sigs, shutdown (deliver sigs (pg s)) = shutdown (pg s)).
  { intros sigs. destruct (deliver_set sigs (pg s) Hs) as [E _]. exact E. }
  unfold step. destruct (at_ s) as [| |j0|j0|].
  - destruct (shutdown (pg s) =? 0); [|left; reflexivity].
    destruct (job_ret t) as [j|]; [destruct (status j)|];
      cbn [bail_out pg shutdown emit set_shutdown]; rewrite ?Hd; auto.
  - destruct (notify_ret t <? 1); cbn [bail_out pg shutdown emit set_shutdown];
      rewrite ?Hd'; auto.
  - destruct ((send_ret t <? 0) && negb (send_errno t =? EAGAIN));
      [|destruct (send_errno t =? EAGAIN)];
      cbn [bail_out pg shutdown emit set_shutdown]; rewrite ?Hd; auto.
  - destruct (_ =? EAGAIN); cbn [bail_out pg shutdown emit set_shutdown];
      rewrite ?Hd'; auto.
  - left. reflexivity.
Qed.

(** X4.  Neither the polling loop nor the signal catcher running beside it
    ever clears the flag: once it is set, it keeps its value through the rest
    of the run, or becomes 1 at an error exit. *)
Theorem flag_never_cleared (s : pstate) (ts : list tick) :
  shutdown (pg s) <> 0 ->
  shutdown (pg (run ts s)) = shutdown (pg s) \/ shutdown (pg (run ts s)) = 1.
Proof.
  revert s. induction ts as [|t ts IH]; intros s Hs; [left; reflexivity|].
  rewrite run_cons. destruct (step_flag s t Hs) as [E|E].
  - rewrite <- E. apply IH. rewrite E. exact Hs.
  - destruct (IH (step s t)) as [E'|E']; [rewrite E; discriminate | |].
    + right. rewrite E'. exact E.
    + right. exact E'.
Qed.

Lemma flag_never_cleared_witness :
  shutdown (pg (run [on_signal SIGTERM (job_found job7)] (enter boot))) <> 0 /\
  shutdown (pg (run [on_signal SIGTERM (job_found job7); send_full; quiet; send_ok; quiet]
                    (enter boot))) = 1.
Proof.
  assert (H : shutdown (pg (run [on_signal SIGTERM (job_found job7)] (enter boot))) <> 0)
    by (vm_compute; discriminate).
  split; [exact H|].
  destruct (flag_never_cleared
              (run [on_signal SIGTERM (job_found job7)] (enter boot))
              [send_full; quiet; send_ok; quiet] H) as [E|E].
  - rewrite <- run_app in E. exact E.
  - rewrite <- run_app in E. exact E.
Defined.

Lemma step_no_claim (s : pstate) (t : tick) :
  shutdown (pg s) <> 0 ->
  exists l, out (pg (step s t)) = out (pg s) ++ l /\
            count is_claim l = 0%nat /\ count is_wait l = 0%nat.
Proof.
  intros Hs. unfold step. destruct (at_ s) as [| |j0|j0|].
  - destruct (Z.eqb_spec (shutdown (pg s)) 0); [contradiction|].
    exists []. rewrite app_nil_r. repeat split.
  - destruct (notify_ret t <? 1); cbn [bail_out pg out emit set_shutdown];
      expose_lines; rewrite <- ?app_assoc;
      (eexists; split; [reflexivity|]); do_books; split; reflexivity.
  - destruct ((send_ret t <? 0) && negb (send_errno t =? EAGAIN));
      [|destruct (send_errno t =? EAGAIN)];
      cbn [bail_out pg out emit set_shutdown];
      expose_lines; rewrite <- ?app_assoc;
      (eexists; split; [reflexivity|]); do_books; split; reflexivity.
  - destruct (_ =? EAGAIN); cbn [bail_out pg out emit set_shutdown];
      expose_lines; rewrite <- ?app_assoc;
      (eexists; split; [reflexivity|]); do_books; split; reflexivity.
  - exists []. rewrite app_nil_r. repeat split.
Qed.

Lemma flag_stays_nonzero (s : pstate) (t : tick) :
  shutdown (pg s) <> 0 -> shutdown (pg (step s t)) <> 0.
Proof.
  intros Hs. destruct (step_flag s t Hs) as [E|E]; rewrite E; [exact Hs | discriminate].
Qed.

(** X5.  Take the polling loop between two of its steps, that is, at the test
    of line 122 or where a wait, a send or a sleep it has started is about
    to return, with the flag already set.  From there on it claims no job
    and starts no wait, however long it goes on: all it may still do is
    finish with the job it holds.  The flag is read at line 122 only, so a
    signal that comes while a claim is in progress is not covered here. *)
Theorem no_claim_once_flag_set (s : pstate) (ts : list tick) :
  shutdown (pg s) <> 0 ->
  count is_claim (added s ts) = 0%nat /\ count is_wait (added s ts) = 0%nat.
Proof.
  intros Hs.
  assert (H : exists l, out (pg (run ts s)) = out (pg s) ++ l /\
                        count is_claim l = 0%nat /\ count is_wait l = 0%nat).
  { revert s Hs. induction ts as [|t ts IH]; intros s Hs.
    - exists []. cbn. rewrite app_nil_r. repeat split.
    - rewrite run_cons. destruct (step_no_claim s t Hs) as (l1 & E1 & C1 & W1).
      destruct (IH (step s t) (flag_stays_nonzero s t Hs)) as (l2 & E2 & C2 & W2).
      exists (l1 ++ l2). rewrite E2, E1, <- app_assoc, !count_app, C1, C2, W1, W2.
      repeat split. }
  destruct H as (l & E & C & W). unfold added. rewrite E, drop_app_length. auto.
Qed.

Lemma no_claim_once_flag_set_witness :
  shutdown (pg (run [on_signal SIGTERM (job_found job7)] (enter boot))) <> 0 /\
  count is_claim
    (added (run [on_signal SIGTERM (job_found job7)] (enter boot))
           [send_full; quiet; send_ok; job_found job7; job_found job7]) = 0%nat.
Proof.
  assert (H : shutdown (pg (run [on_signal SIGTERM (job_found job7)] (enter boot))) <> 0)
    by (vm_compute; discriminate).
  split; [exact H|].
  apply (no_claim_once_flag_set _ _ H).
Defined.

(** ** The message-queue limit, further *)

(** X6.  Whatever the limit file is and whatever it holds, the value
    [get_mqueue_msg_max] returns is at least 1 and fits an [unsigned int],
    and everything it writes goes to stderr. *)
Theorem msg_max_in_range (f : msg_max_file) :
  1 <= fst (get_mqueue_msg_max f) < 2 ^ 32 /\
  Forall (fun a => is_stderr a = true) (snd (get_mqueue_msg_max f)).
Proof. split; [apply get_mqueue_msg_max_positive | apply lines_stderr]. Qed.

(** *** Reading a decimal limit *)

Lemma string_app_assoc (a b c : string) : ((a ++ b) ++ c = a ++ (b ++ c))%string.
Proof. induction a as [|x a IH]; cbn [String.append]; [reflexivity | rewrite IH; reflexivity]. Qed.

Lemma substring_app_prefix (n : nat) (p rest : string) :
  (String.length p <= n)%nat ->
  substring 0 n (p ++ rest) = (p ++ substring 0 (n - String.length p) rest)%string.
Proof.
  revert n. induction p as [|c p IH]; intros n H.
  - cbn. rewrite Nat.sub_0_r. reflexivity.
  - destruct n as [|n]; cbn in H; [lia|].
    cbn [String.append substring String.length Nat.sub]. rewrite IH by lia. reflexivity.
Qed.

Lemma no_digit_first_substring (k : nat) (rest : string) :
  no_digit_first rest = true -> no_digit_first (substring 0 k rest) = true.
Proof. destruct rest as [|c r], k as [|k]; cbn; auto. Qed.

Lemma no_digit_first_cstring (rest : string) :
  no_digit_first rest = true -> no_digit_first (cstring rest) = true.
Proof.
  destruct rest as [|c r]; cbn; [reflexivity|].
  destruct (Ascii.eqb c zero); [reflexivity | cbn; auto].
Qed.

Lemma isspace_not_nul (c : ascii) : isspace c = true -> Ascii.eqb c zero = false.
Proof.
  intros H. destruct (Ascii.eqb_spec c zero) as [->|]; [|reflexivity].
  vm_compute in H. discriminate.
Qed.

Lemma cstring_blanks (ws rest : string) :
  all_space ws = true -> cstring (ws ++ rest) = (ws ++ cstring rest)%string.
Proof.
  induction ws as [|c ws IH]; intros H; [reflexivity|].
  cbn in H. apply andb_true_iff in H. destruct H as [Hc Hws].
  cbn [String.append cstring]. rewrite (isspace_not_nul c Hc), IH by exact Hws.
  reflexivity.
Qed.

Lemma cstring_sign (sg : sign) (rest : string) :
  cstring (sign_text sg ++ rest) = (sign_text sg ++ cstring rest)%string.
Proof. destruct sg; reflexivity. Qed.

Lemma cstring_numeral (ds : list Z) (rest : string) :
  Forall is_digit ds -> cstring (numeral ds ++ rest) = (numeral ds ++ cstring rest)%string.
Proof.
  induction 1 as [|d ds Hd _ IH]; [reflexivity|].
  cbn [numeral fold_right String.append cstring].
  destruct (digit_digit_char d Hd) as (_ & _ & -> & _).
  f_equal. exact IH.
Qed.

Lemma skip_space_blanks (ws rest : string) :
  all_space ws = true -> skip_space (ws ++ rest) = skip_space rest.
Proof.
  induction ws as [|c ws IH]; intros H; [reflexivity|].
  cbn in H. apply andb_true_iff in H. destruct H as [Hc Hws].
  cbn [String.append skip_space]. rewrite Hc. apply IH, Hws.
Qed.

Lemma digits_stop (rest : string) (acc : Z) :
  no_digit_first rest = true -> digits rest acc = acc.
Proof.
  destruct rest as [|c r]; cbn; [reflexivity|].
  destruct (digit c); [discriminate | reflexivity].
Qed.

Lemma decimal_value_nonneg (ds : list Z) : Forall is_digit ds -> 0 <= decimal_value ds.
Proof.
  unfold decimal_value. intros H.
  assert (G : forall acc, 0 <= acc -> 0 <= fold_left (fun a d => 10 * a + d) ds acc).
  { induction H as [|d ds Hd _ IH]; intros acc Hacc; [exact Hacc|].
    cbn [fold_left]. apply IH. unfold is_digit in Hd. lia. }
  apply G. lia.
Qed.

(** What [strtol] reads from a sign and a numeral. *)
Lemma strtol_signed (sg : sign) (d : Z) (ds : list Z) (rest : string) :
  Forall is_digit (d :: ds) -> no_digit_first rest = true ->
  strtol (sign_text sg ++ numeral (d :: ds) ++ rest) =
  clamp_long (match sg with Minus => - decimal_value (d :: ds) | _ => decimal_value (d :: ds) end).
Proof.
  intros Hds Hrest.
  assert (Hd : digits (numeral (d :: ds) ++ rest)%string 0 = decimal_value (d :: ds)).
  { rewrite digits_numeral by assumption. apply digits_stop, Hrest. }
  unfold strtol. destruct sg; cbn [sign_text String.append].
  - destruct (digit_digit_char d (Forall_inv Hds)) as (_ & Hsp & _ & Hm & Hp).
    cbn [numeral fold_right String.append skip_space] in *. rewrite Hsp.
    assert (Hgo : forall c r, c <> "-"%char -> c <> "+"%char ->
              match String c r with
              | String "-"%char r' => clamp_long (- digits r' 0)
              | String "+"%char r' => clamp_long (digits r' 0)
              | r' => clamp_long (digits r' 0)
              end = clamp_long (digits (String c r) 0)).
    { intros c r H1 H2.
      destruct c as [[] [] [] [] [] [] [] []]; try reflexivity; congruence. }
    rewrite (Hgo _ _ Hm Hp), Hd. reflexivity.
  - assert (Hsk : forall r, skip_space (String "+"%char r) = String "+"%char r)
      by reflexivity.
    rewrite Hsk, Hd. reflexivity.
  - assert (Hsk : forall r, skip_space (String "-"%char r) = String "-"%char r)
      by reflexivity.
    rewrite Hsk, Hd. reflexivity.
Qed.

(** X7.  A limit file that holds a number in decimal: blanks, an optional
    sign, digits, and anything that does not go on with a digit, the digits
    ending within the 128 bytes read and the number below 2^31.  If the
    number is 0, the function returns the default and writes the "Failed to
    parse" line; if it is positive, the function returns it and writes
    nothing; if it is negative, the function also writes nothing and returns
    it wrapped to an [unsigned int], 2^32 less its magnitude. *)
Theorem limit_file_decimal (ws : string) (sg : sign) (ds : list Z) (rest : string) :
  all_space ws = true -> ds <> [] -> Forall is_digit ds ->
  no_digit_first rest = true ->
  (String.length ws + String.length (sign_text sg) + length ds <= 128)%nat ->
  decimal_value ds < 2 ^ 31 ->
  get_mqueue_msg_max (Readable (ws ++ sign_text sg ++ numeral ds ++ rest)) =
  if decimal_value ds =? 0 then (DEFAULT_MSG_MAX, [Stderr msg_cannot_parse])
  else match sg with
       | Minus => (2 ^ 32 - decimal_value ds, [])
       | _ => (decimal_value ds, [])
       end.
Proof.
  intros Hws Hne Hds Hrest Hlen Hv.
  destruct ds as [|d ds]; [congruence|].
  pose proof (decimal_value_nonneg _ Hds) as H0.
  set (v := decimal_value (d :: ds)) in *.
  set (p := (ws ++ sign_text sg ++ numeral (d :: ds))%string).
  assert (Hp : String.length p = (String.length ws + String.length (sign_text sg)
                                  + length (d :: ds))%nat).
  { unfold p. rewrite !string_length_app, length_numeral. lia. }
  assert (Hdata : (ws ++ sign_text sg ++ numeral (d :: ds) ++ rest)%string
                  = (p ++ rest)%string).
  { unfold p. rewrite !string_app_assoc. reflexivity. }
  rewrite Hdata. unfold get_mqueue_msg_max. rewrite fread128_readable.
  rewrite (substring_app_prefix 128 p rest) by lia.
  set (tail := substring 0 (128 - String.length p) rest).
  assert (Htail : no_digit_first (cstring tail) = true)
    by (apply no_digit_first_cstring, no_digit_first_substring, Hrest).
  destruct (Z.ltb_spec (Z.of_nat (String.length (p ++ tail)%string)) 1) as [Hl|_].
  { rewrite string_length_app, Hp in Hl. cbn [length] in Hl. lia. }
  assert (Hatoi : atoi (cstring (p ++ tail)%string)
                  = match sg with Minus => - v | _ => v end).
  { assert (Hc : cstring (p ++ tail)%string
                 = (ws ++ sign_text sg ++ numeral (d :: ds) ++ cstring tail)%string).
    { unfold p. rewrite !string_app_assoc.
      rewrite cstring_blanks, cstring_sign, cstring_numeral by assumption. reflexivity. }
    rewrite Hc. unfold atoi, strtol.
    rewrite skip_space_blanks by exact Hws.
    fold (strtol (sign_text sg ++ numeral (d :: ds) ++ cstring tail)%string).
    rewrite (strtol_signed sg d ds (cstring tail) Hds Htail). fold v.
    unfold clamp_long, LONG_MAX, LONG_MIN, to_int.
    destruct sg.
    - rewrite Z.min_r by lia. rewrite Z.max_r by lia. rewrite Z.mod_small by lia. lia.
    - rewrite Z.min_r by lia. rewrite Z.max_r by lia. rewrite Z.mod_small by lia. lia.
    - rewrite Z.min_r by lia. rewrite Z.max_r by lia. rewrite Z.mod_small by lia. lia. }
  unfold atoi_nullsafe. rewrite Hatoi. unfold to_uint.
  destruct (Z.eqb_spec v 0) as [Hz|Hnz].
  - rewrite Hz. destruct sg; reflexivity.
  - destruct sg.
    + rewrite Z.mod_small by lia. destruct (Z.ltb_spec v 1); [lia | reflexivity].
    + rewrite Z.mod_small by lia. destruct (Z.ltb_spec v 1); [lia | reflexivity].
    + replace (- v) with (2 ^ 32 - v + (-1) * 2 ^ 32) by lia.
      rewrite Z.mod_add by lia. rewrite Z.mod_small by lia.
      destruct (Z.ltb_spec (2 ^ 32 - v) 1); [lia | reflexivity].
Qed.

Lemma limit_file_decimal_witness :
  get_mqueue_msg_max (Readable ("  -42" ++ LF)%string) = (4294967254, []).
Proof.
  apply (limit_file_decimal "  " Minus [4; 2] LF).
  - reflexivity.
  - discriminate.
  - repeat constructor; unfold is_digit; lia.
  - reflexivity.
  - cbn. lia.
  - vm_compute. reflexivity.
Defined.

Lemma atoi_no_number (s : string) : no_number s = true -> atoi s = 0.
Proof.
  unfold no_number, atoi, strtol. destruct (skip_space s) as [|c r]; [reflexivity|].
  destruct (digit c) eqn:Ed; [discriminate|]. intros H.
  apply andb_true_iff in H. destruct H as [Hm Hp].
  apply negb_true_iff in Hm, Hp. apply Ascii.eqb_neq in Hm, Hp.
  assert (Hgo : match String c r with
                | String "-"%char r' => clamp_long (- digits r' 0)
                | String "+"%char r' => clamp_long (digits r' 0)
                | r' => clamp_long (digits r' 0)
                end = clamp_long (digits (String c r) 0)).
  { destruct c as [[] [] [] [] [] [] [] []]; try reflexivity; congruence. }
  rewrite Hgo. cbn [digits]. rewrite Ed. reflexivity.
Qed.

(** X8.  When something can be read from the limit file but it holds no
    number where [atoi] looks for one (only blanks, or a first character
    that is neither a digit nor a sign), the function returns the default and
    writes the "Failed to parse" line, and only that line. *)
Theorem garbage_gives_default (data : string) :
  data <> EmptyString ->
  no_number (cstring (substring 0 128 data)) = true ->
  get_mqueue_msg_max (Readable data) = (DEFAULT_MSG_MAX, [Stderr msg_cannot_parse]).
Proof.
  intros Hd Hn. unfold get_mqueue_msg_max. rewrite fread128_readable.
  destruct (Z.of_nat (String.length (substring 0 128 data)) <? 1) eqn:E.
  - exfalso. apply Hd. apply fread128_nothing. rewrite fread128_readable. exact E.
  - unfold atoi_nullsafe. rewrite (atoi_no_number _ Hn). reflexivity.
Qed.

Lemma garbage_gives_default_witness :
  get_mqueue_msg_max (Readable ("  unlimited" ++ LF)%string)
  = (DEFAULT_MSG_MAX, [Stderr msg_cannot_parse]).
Proof.
  apply garbage_gives_default; [discriminate | vm_compute; reflexivity].
Defined.

(** ** main, further *)

(** *** Exit code and order of the calls *)

(** X9.  Whenever [main] returns, the exit code is 0, 1, 2 or 3, and it is 3
    only if some [pthread_create] returned a negative value; on a machine
    where [pthread_create] keeps to POSIX and returns 0 or a positive error
    number, 3 is never returned. *)
Theorem main_exit_code_range (e : Env) (c : Z) :
  fst (main e) = Exit c ->
  (c = 0 \/ c = 1 \/ c = 2 \/ c = 3) /\
  (c = 3 -> exists i, (i < max_threads)%nat /\ pthread_create_ret e i < 0) /\
  ((forall i, 0 <= pthread_create_ret e i) -> c <> 3).
Proof.
  intros H. pose proof (main_exit_codes e c H) as Hc. unfold exit_code_of in Hc.
  split; [|split].
  - destruct Hc as [?|[?|[?|[? _]]]]; auto.
  - intros ->. destruct Hc as [?|[?|[?|[_ Hi]]]]; try discriminate. exact Hi.
  - intros Hpos ->. destruct Hc as [?|[?|[?|[_ (i & _ & Hi)]]]]; try discriminate.
    specialize (Hpos i). lia.
Qed.

Lemma main_exit_code_range_witness :
  fst (main (healthy one_job_then_sigterm)) = Exit 0 /\
  (0 = 0 \/ 0 = 1 \/ 0 = 2 \/ 0 = 3).
Proof.
  assert (H : fst (main (healthy one_job_then_sigterm)) = Exit 0)
    by (vm_compute; reflexivity).
  split; [exact H|].
  destruct (main_exit_code_range (healthy one_job_then_sigterm) 0 H) as (Hc & _).
  exact Hc.
Defined.

(** X10.  From any point at which [thrdata] has been assigned, the exit path
    returns the result code it was entered with, having gone through the
    slots in their order: for each slot the join, if the slot holds a
    [pthread_t], with a line on stderr if the join fails, then the release of
    thread and attributes, then the disconnection of the worker, if the slot
    holds a context; after the last slot the arrays are freed, the queue is
    closed and removed, the connection of the main thread is closed, and the
    configuration, the stylesheet and the two libraries are released.  A
    failure to join, close or remove changes neither the order nor the
    result code. *)
Theorem exit_path_in_order (e : Env) (s : locals) :
  thrdata s <> None ->
  leave e s =
  (Exit (main_rc s),
   out (lg s) ++ flat_map (slot_release e s) (seq 0 max_threads) ++ closing e s).
Proof. apply teardown_order. Qed.

Lemma exit_path_in_order_witness :
  let s := snd (startup second_connection_fails main_locals) in
  thrdata s <> None /\
  fst (leave second_connection_fails s) = Exit 2.
Proof.
  cbv zeta.
  assert (H : thrdata (snd (startup second_connection_fails main_locals)) <> None)
    by (vm_compute; discriminate).
  split; [exact H|].
  rewrite (exit_path_in_order second_connection_fails _ H). reflexivity.
Defined.

(** When a statement falls through, what follows starts from its state. *)
Lemma runs_through_then (l : list action) (a b : M) (s : locals) :
  runs_through l a -> (a >> b) s = b (snd (a s)).
Proof.
  intros H. unfold seqM. destruct (H s) as [F _].
  destruct (a s) as [f s1]. cbn [fst snd] in *. subst f. reflexivity.
Qed.

(** X12.  If the three arrays of line 225-227 cannot be allocated, the
    [assert] of line 228 ends the process on the spot: nothing of the exit
    path is run, so the queue that was opened is neither closed nor removed
    and the connection of the main thread is not closed. *)
Theorem failed_assert_skips_teardown (e : Env) :
  stylesheet_parses e (snprintf_path xsltfile_limit (xsltpath e) XMLPARSER_XSL) = true ->
  0 <= mq_open_ret e ->
  db_connect_main e = true ->
  calloc_ok e = false ->
  main e = (Halted Abort, until_open e ++ [DbConnect Dispatcher]).
Proof.
  intros Hx Hq Hd Hc. unfold main.
  assert (Hpre : runs_through
                   ([XsltInit; XmlInitParser; ReadConfig] ++
                    [XsltParseStylesheetFile
                       (snprintf_path xsltfile_limit (xsltpath e) XMLPARSER_XSL)] ++
                    (snd (get_mqueue_msg_max (msg_max e)) ++
                     [MqOpen (fst (get_mqueue_msg_max (msg_max e)))]) ++
                    [DbConnect Dispatcher])
                   (initialise >> parse_template e >> open_queue e >> connect_main e)).
  { apply runs_through_seq; [apply runs_through_initialise|].
    apply runs_through_seq; [apply runs_through_parse_template, Hx|].
    apply runs_through_seq; [apply runs_through_open_queue, Hq|].
    apply runs_through_connect_main, Hd. }
  assert (E : startup e main_locals =
              (allocate_arrays e >>
               for_loop 0 max_threads (prepare_slot e) >>
               install_handlers >>
               for_loop 0 max_threads (start_slot e) >>
               run_checker e)
                (snd ((initialise >> parse_template e >> open_queue e >> connect_main e)
                        main_locals))).
  { rewrite <- (runs_through_then _ _ _ main_locals Hpre).
    unfold startup, seqM.
    destruct (initialise main_locals) as [[| |o] s1]; try reflexivity.
    destruct (parse_template e s1) as [[| |o] s2]; try reflexivity.
    destruct (open_queue e s2) as [[| |o] s3]; reflexivity. }
  rewrite E. destruct (Hpre main_locals) as [_ Hout].
  unfold seqM at 1. unfold allocate_arrays. rewrite Hc. cbn [halt].
  rewrite Hout. unfold until_open, until_parse.
  cbn [main_locals lg out boot app]. rewrite <- !app_assoc. reflexivity.
Qed.

Lemma failed_assert_skips_teardown_witness :
  fst (main (mkEnv (Some "/usr/share/rteval"%string) None (fun _ => true)
                   Unopenable 3 true false
                   (fun _ => true) (fun _ => true) (fun _ => true) (fun _ => true)
                   (fun _ => 0) (fun _ => 0) 0 0 [])) = Halted Abort.
Proof.
  rewrite failed_assert_skips_teardown; try reflexivity. vm_compute. discriminate.
Defined.

(** *** The stages follow one another *)

Lemma ordered_from_mono (k j : nat) (l : list action) :
  (k <= j)%nat -> ordered_from j l = true -> ordered_from k l = true.
Proof.
  revert k j. induction l as [|a r IH]; intros k j Hk H; [reflexivity|].
  cbn [ordered_from] in *. destruct (is_stderr a); [eapply IH; eassumption|].
  apply andb_true_iff in H. destruct H as [H1 H2].
  apply Nat.leb_le in H1. apply andb_true_iff. split; [apply Nat.leb_le; lia | exact H2].
Qed.

Lemma ordered_from_block (k j : nat) (l1 l2 : list action) :
  (k <= j)%nat -> Forall (at_stage j) l1 -> ordered_from j l2 = true ->
  ordered_from k (l1 ++ l2) = true.
Proof.
  intros Hk Hl H2. revert k Hk. induction Hl as [|a r Ha Hr IH]; intros k Hk.
  - cbn [app]. eapply ordered_from_mono; eassumption.
  - cbn [app ordered_from]. destruct (is_stderr a) eqn:Es; [apply IH, Hk|].
    destruct Ha as [Ha|Ha]; [congruence|]. rewrite Ha.
    apply andb_true_iff. split; [apply Nat.leb_le, Hk | apply IH; lia].
Qed.

Lemma ordered_from_bound (k : nat) (l : list action) (j : nat) (b : action) :
  ordered_from k l = true -> l !! j = Some b -> is_stderr b = false ->
  (k <= stage b)%nat.
Proof.
  revert k j. induction l as [|a r IH]; intros k j H Hj Hb; [discriminate|].
  cbn [ordered_from] in H. destruct j as [|j]; cbn in Hj.
  - injection Hj as ->. rewrite Hb in H. apply andb_true_iff in H.
    destruct H as [H _]. apply Nat.leb_le in H. exact H.
  - destruct (is_stderr a); [eapply IH; eassumption|].
    apply andb_true_iff in H. destruct H as [H1 H2]. apply Nat.leb_le in H1.
    pose proof (IH _ _ H2 Hj Hb). lia.
Qed.

(** What [ordered_from] computes: of two calls of the trace the later one is
    never of an earlier stage. *)
Lemma ordered_from_pairs (k : nat) (l : list action) (i j : nat) (a b : action) :
  ordered_from k l = true -> (i < j)%nat ->
  l !! i = Some a -> l !! j = Some b ->
  is_stderr a = false -> is_stderr b = false ->
  (stage a <= stage b)%nat.
Proof.
  revert k i j. induction l as [|c r IH]; intros k i j H Hij Hi Hj Ha Hb; [discriminate|].
  cbn [ordered_from] in H. destruct j as [|j]; [lia|]. cbn in Hj.
  destruct i as [|i]; cbn in Hi.
  - injection Hi as ->. rewrite Ha in H. apply andb_true_iff in H.
    destruct H as [_ H]. eapply ordered_from_bound; eassumption.
  - destruct (is_stderr c).
    + eapply (IH k i j); try eassumption. lia.
    + apply andb_true_iff in H. destruct H as [_ H].
      eapply (IH _ i j); try eassumption. lia.
Qed.

Lemma staged_of_writes (k j : nat) (m : M) :
  (k <= j)%nat -> writes (at_stage j) m -> staged k j m.
Proof.
  intros Hk H s. destruct (H s) as (l & E & F). exists l. split; [exact E|].
  intros rest Hr. eapply ordered_from_block; eassumption.
Qed.

Lemma staged_seq (k k' k'' : nat) (a b : M) :
  (k' <= k'')%nat -> staged k k' a -> staged k' k'' b -> staged k k'' (a >> b).
Proof.
  intros Hk Ha Hb s. unfold seqM. destruct (Ha s) as (l1 & E1 & O1).
  destruct (a s) as [[| |h] s1]; cbn [fst snd] in *.
  - destruct (Hb s1) as (l2 & E2 & O2). exists (l1 ++ l2).
    rewrite E2, E1, <- app_assoc. split; [reflexivity|].
    intros rest Hr. rewrite <- app_assoc. apply O1, O2, Hr.
  - exists l1. split; [exact E1|]. intros rest Hr.
    apply O1. eapply ordered_from_mono; eassumption.
  - exists l1. split; [exact E1|]. intros rest Hr.
    apply O1. eapply ordered_from_mono; eassumption.
Qed.

Ltac at_stage_tac := unfold at_stage; cbn; auto.

Lemma stderr_lines_at_stage (k : nat) (l : list action) :
  Forall (fun a => is_stderr a = true) l -> Forall (at_stage k) l.
Proof. intros H. eapply Forall_impl; [exact H|]. intros a Ha. left. exact Ha. Qed.

Lemma signal_lines_at_stage (k : nat) (l : list action) :
  Forall (fun a => is_signal_line a = true) l -> Forall (at_stage k) l.
Proof.
  intros H. eapply Forall_impl; [exact H|]. intros a Ha. left.
  destruct (signal_line_cases a Ha) as [-> | ->]; reflexivity.
Qed.

(** Every call of the polling loop is one of its own five. *)
Lemma step_at_stage (s : pstate) (t : tick) :
  exists l, out (pg (step s t)) = out (pg s) ++ l /\ Forall (at_stage 6) l.
Proof.
  pose proof (signal_lines_at_stage 6) as Hl.
  unfold step.
  destruct (at_ s) as [| |j0|j0|] eqn:Ha.
  - destruct (shutdown (pg s) =? 0);
      [|exists []; simpl; rewrite app_nil_r; split; [reflexivity | constructor]].
    destruct (job_ret t) as [j|]; [destruct (status j)|]; cbn [bail_out pg out emit set_shutdown];
      expose_lines; rewrite <- ?app_assoc;
      (eexists; split; [reflexivity|]);
      repeat (apply Forall_app; split); auto;
      repeat first [apply Forall_nil_2 | apply Forall_cons_2]; at_stage_tac.
  - destruct (notify_ret t <? 1); cbn [bail_out pg out emit set_shutdown];
      expose_lines; rewrite <- ?app_assoc;
      (eexists; split; [reflexivity|]);
      repeat (apply Forall_app; split); auto;
      repeat first [apply Forall_nil_2 | apply Forall_cons_2]; at_stage_tac.
  - destruct ((send_ret t <? 0) && negb (send_errno t =? EAGAIN));
      [|destruct (send_errno t =? EAGAIN)];
      cbn [bail_out pg out emit set_shutdown];
      expose_lines; rewrite <- ?app_assoc;
      (eexists; split; [reflexivity|]);
      repeat (apply Forall_app; split); auto;
      repeat first [apply Forall_nil_2 | apply Forall_cons_2]; at_stage_tac.
  - destruct (_ =? EAGAIN); cbn [bail_out pg out emit set_shutdown];
      expose_lines; rewrite <- ?app_assoc;
      (eexists; split; [reflexivity|]);
      repeat (apply Forall_app; split); auto;
      repeat first [apply Forall_nil_2 | apply Forall_cons_2]; at_stage_tac.
  - exists []. rewrite app_nil_r. split; [reflexivity | constructor].
Qed.

Lemma run_at_stage (ts : list tick) (s : pstate) :
  exists l, out (pg (run ts s)) = out (pg s) ++ l /\ Forall (at_stage 6) l.
Proof.
  revert s. induction ts as [|t ts IH]; intros s.
  - exists []. simpl. rewrite app_nil_r. split; [reflexivity | constructor].
  - rewrite run_cons. destruct (step_at_stage s t) as (l1 & E1 & F1).
    destruct (IH (step s t)) as (l2 & E2 & F2).
    exists (l1 ++ l2). rewrite E2, E1, <- app_assoc.
    split; [reflexivity | apply Forall_app; split; assumption].
Qed.

Lemma poll_at_stage (e : Env) : writes (at_stage 6) (poll e).
Proof.
  intros s. unfold poll, process_submission_queue.
  destruct (run_at_stage (poller_ticks e) (enter (lg s))) as (l & E & F).
  exists l. split; [|exact F].
  destruct (returned _); cbn; exact E.
Qed.

Lemma teardown_at_stage (e : Env) : writes (at_stage 7) (teardown e).
Proof.
  eapply writes_weaken; [|apply writes_teardown].
  intros a Ha. right. unfold from_stage in Ha.
  assert (stage a <= 7)%nat by (destruct a as [| | | | | |[]| | | | | | | | | | | | | | | | | | | | | |]; cbn; lia).
  lia.
Qed.

Lemma startup_staged (e : Env) : staged 0 6 (startup e).
Proof.
  unfold startup.
  apply (staged_seq 0 0 6); [lia| |].
  { apply staged_of_writes; [lia|]. unfold initialise.
    apply writes_acts. repeat first [apply Forall_nil_2 | apply Forall_cons_2]; at_stage_tac. }
  apply (staged_seq 0 1 6); [lia| |].
  { apply staged_of_writes; [lia|]. unfold parse_template. writes_tac; at_stage_tac. }
  apply (staged_seq 1 2 6); [lia| |].
  { apply staged_of_writes; [lia|]. unfold open_queue.
    apply writes_seq; [apply writes_acts, stderr_lines_at_stage, lines_stderr|].
    writes_tac; at_stage_tac. }
  apply (staged_seq 2 3 6); [lia| |].
  { apply staged_of_writes; [lia|]. unfold connect_main. writes_tac; at_stage_tac. }
  apply (staged_seq 3 3 6); [lia| |].
  { apply staged_of_writes; [lia|]. apply writes_allocate_arrays. }
  apply (staged_seq 3 4 6); [lia| |].
  { apply staged_of_writes; [lia|]. apply writes_for_loop. intros i.
    unfold prepare_slot. writes_tac; at_stage_tac. }
  apply (staged_seq 4 4 6); [lia| |].
  { apply staged_of_writes; [lia|]. apply writes_install_handlers. }
  apply (staged_seq 4 5 6); [lia| |].
  { apply staged_of_writes; [lia|]. apply writes_for_loop. intros i.
    unfold start_slot. writes_tac; at_stage_tac. }
  apply staged_of_writes; [lia|]. unfold run_checker.
  apply writes_seq; [apply writes_act; at_stage_tac|].
  apply writes_seq; [apply poll_at_stage | apply writes_act; at_stage_tac].
Qed.

Lemma main_ordered (e : Env) : ordered_from 0 (snd (main e)) = true.
Proof.
  unfold main. destruct (startup_staged e main_locals) as (l1 & E1 & O1).
  cbn [main_locals lg out boot app] in E1.
  assert (Hl1 : ordered_from 0 l1 = true).
  { specialize (O1 [] eq_refl). rewrite app_nil_r in O1. exact O1. }
  destruct (startup e main_locals) as [[| |h] s1]; cbn [fst snd] in *;
    [| |rewrite E1; exact Hl1].
  all: unfold leave; destruct (teardown_at_stage e s1) as (l2 & E2 & F2);
    assert (H : out (lg (snd (teardown e s1))) = l1 ++ l2) by (rewrite E2, E1; reflexivity);
    assert (Ho : ordered_from 0 (l1 ++ l2) = true)
      by (apply O1; rewrite <- (app_nil_r l2);
          apply (ordered_from_block 6 7); [lia | exact F2 | reflexivity]);
    destruct (teardown e s1) as [[| |h'] s2]; cbn [fst snd] in *; rewrite H; exact Ho.
Qed.

(** X13.  The calls of [main] come in the order of its stages, however far
    the run gets and whatever fails: the libraries and the configuration,
    the stylesheet, the queue, the connection of the main thread, the
    preparation of the slots, the start of the threads, the polling loop,
    the tear-down.  Of two calls of a run, lines on stderr left aside, the
    later one is never of an earlier stage; so no thread is started before
    the last slot is prepared, no job is claimed before the last thread is
    started, and nothing is released while the polling loop still runs. *)
Theorem calls_in_stage_order (e : Env) (i j : nat) (a b : action) :
  (i < j)%nat ->
  snd (main e) !! i = Some a -> snd (main e) !! j = Some b ->
  is_stderr a = false -> is_stderr b = false ->
  (stage a <= stage b)%nat.
Proof. intros. eapply ordered_from_pairs; try eassumption. apply main_ordered. Qed.

Lemma calls_in_stage_order_witness :
  (stage (PthreadCreate 4) <= stage GetJob)%nat.
Proof.
  apply (calls_in_stage_order (healthy one_job_then_sigterm) 30 32);
    [lia | vm_compute; reflexivity | vm_compute; reflexivity | reflexivity | reflexivity].
Defined.

(** *** What main returns on a machine that starts up *)

Lemma deliver_same_flag (sigs : list Z) (g g' : globals) :
  shutdown g = shutdown g' -> shutdown (deliver sigs g) = shutdown (deliver sigs g').
Proof.
  revert g g'. induction sigs as [|sig sigs IH]; intros g g' H; [exact H|].
  rewrite !deliver_cons. apply IH. rewrite !sigcatch_shutdown, H. reflexivity.
Qed.

(** The control of the loop reads nothing of the globals but the flag. *)
Lemma step_same_control (s s' : pstate) (t : tick) :
  same_control s s' -> same_control (step s t) (step s' t).
Proof.
  intros (Ha & Hr & He & Hf). unfold step. rewrite <- Ha, <- Hr, <- He, <- Hf.
  assert (Hd : forall a, shutdown (deliver (signals t) (emit a (pg s))) =
                         shutdown (deliver (signals t) (emit a (pg s'))))
    by (intros a; apply deliver_same_flag; exact Hf).
  pose proof (deliver_same_flag (signals t) _ _ Hf) as Hd0.
  destruct (at_ s) as [| |j0|j0|] eqn:Eat.
  - destruct (shutdown (pg s) =? 0); [|repeat split; assumption].
    destruct (job_ret t) as [j|]; [destruct (status j)|];
      repeat split; cbn; auto.
  - destruct (notify_ret t <? 1); repeat split; cbn; auto.
  - destruct ((send_ret t <? 0) && negb (send_errno t =? EAGAIN));
      [|destruct (send_errno t =? EAGAIN)]; repeat split; cbn; auto.
  - destruct (_ =? EAGAIN); repeat split; cbn; auto.
  - repeat split; congruence.
Qed.

Lemma run_same_control (ts : list tick) (s s' : pstate) :
  same_control s s' -> same_control (run ts s) (run ts s').
Proof.
  revert s s'. induction ts as [|t ts IH]; intros s s' H; [exact H|].
  rewrite !run_cons. apply IH, step_same_control, H.
Qed.

Lemma returned_same_flag (ts : list tick) (g g' : globals) :
  shutdown g = shutdown g' ->
  fst (process_submission_queue ts g) = fst (process_submission_queue ts g').
Proof.
  intros H. unfold process_submission_queue. cbn [fst].
  destruct (run_same_control ts (enter g) (enter g')) as (Ha & Hr & _).
  { repeat split; try reflexivity. exact H. }
  unfold returned. rewrite Ha, Hr. reflexivity.
Qed.

Lemma lands_seq (P Q R : locals -> Prop) (a b : M) :
  lands P Q a -> lands Q R b -> lands P R (a >> b).
Proof.
  intros Ha Hb s Hs. unfold seqM. destruct (Ha s Hs) as [F1 Q1].
  destruct (a s) as [f s1]. cbn [fst snd] in *. subst f. apply Hb, Q1.
Qed.

Lemma lands_for_loop (P : locals -> Prop) (body : nat -> M) (n from : nat) :
  (forall i, (from <= i < from + n)%nat -> lands P P (body i)) ->
  lands P P (for_loop from n body).
Proof.
  revert from. induction n as [|n IH]; intros from H; cbn [for_loop].
  - intros s Hs. split; [reflexivity | exact Hs].
  - eapply lands_seq; [apply H; lia|]. apply IH. intros i Hi. apply H. lia.
Qed.

Lemma lands_preparations (e : Env) :
  startup_succeeds e -> lands untroubled equipped (preparations e).
Proof.
  intros (Hx & Hq & Hd & Hc & Hslots). unfold preparations.
  apply (lands_seq _ untroubled); [intros s Hs; split; [reflexivity | exact Hs]|].
  apply (lands_seq _ untroubled).
  { intros s Hs. unfold parse_template. rewrite Hx. split; [reflexivity | exact Hs]. }
  apply (lands_seq _ untroubled).
  { intros s Hs. unfold open_queue, seqM, acts, act, when.
    destruct (Z.ltb_spec (mq_open_ret e) 0); [lia|]. split; [reflexivity | exact Hs]. }
  apply (lands_seq _ untroubled).
  { intros s Hs. unfold connect_main, seqM, act. rewrite Hd. split; [reflexivity | exact Hs]. }
  apply (lands_seq _ equipped).
  { intros s Hs. unfold allocate_arrays. rewrite Hc.
    split; [reflexivity|]. split; [exact Hs | discriminate]. }
  apply (lands_seq _ equipped).
  { apply lands_for_loop. intros i Hi.
    destruct (Hslots i) as (H1 & H2 & H3 & H4 & _); [lia|].
    intros s (Hs & Ht). unfold prepare_slot, seqM, act, upd. rewrite H1, H2, H3, H4.
    split; [reflexivity|]. split; [exact Hs|].
    cbn. destruct (thrdata s); [discriminate | contradiction]. }
  apply (lands_seq _ equipped).
  { intros s Hs. split; [reflexivity | exact Hs]. }
  apply lands_for_loop. intros i Hi.
  destruct (Hslots i) as (_ & _ & _ & _ & H5); [lia|].
  intros s Hs. unfold start_slot, seqM, act, upd, when.
  destruct (Z.ltb_spec (pthread_create_ret e i) 0); [lia|].
  split; [reflexivity | exact Hs].
Qed.

Lemma startup_preparations (e : Env) (s : locals) :
  startup e s = (preparations e >> run_checker e) s.
Proof.
  unfold startup, preparations, seqM.
  destruct (initialise s) as [[| |o] s1]; try reflexivity.
  destruct (parse_template e s1) as [[| |o] s2]; try reflexivity.
  destruct (open_queue e s2) as [[| |o] s3]; try reflexivity.
  destruct (connect_main e s3) as [[| |o] s4]; try reflexivity.
  destruct (allocate_arrays e s4) as [[| |o] s5]; try reflexivity.
  destruct (for_loop 0 max_threads (prepare_slot e) s5) as [[| |o] s6]; reflexivity.
Qed.

Lemma run_returned (ts : list tick) (s : pstate) : at_ s = Returned -> run ts s = s.
Proof.
  induction ts as [|t ts IH]; intros H; [reflexivity|].
  rewrite run_cons, (step_returned s t H). apply IH, H.
Qed.

(** Entered with the flag set, the loop returns 0 at its first test. *)
Lemma loop_sees_flag (ts : list tick) (g : globals) :
  shutdown g <> 0 -> ts <> [] -> fst (process_submission_queue ts g) = Some 0.
Proof.
  intros Hg Hts. destruct ts as [|t ts]; [congruence|].
  unfold process_submission_queue. cbn [fst]. rewrite run_cons.
  rewrite (step_shutdown_seen (enter g) t eq_refl Hg).
  rewrite run_returned by reflexivity. reflexivity.
Qed.

(** X14.  [main] returns what the polling loop returns.  In whatever state
    the loop is entered once [thrdata] is assigned, with the flag clear or
    already set by a signal caught since the handlers were installed, the
    exit code is the result of [process_submission_queue], whatever the
    tear-down meets, and [main] does not return while the loop has not.
    That result depends on the state the loop is entered in through the flag
    alone; entered with the flag set, the loop returns at its first test and
    [main] returns 0.  On a machine on which no start-up call fails, [main]
    gets as far as the loop with [thrdata] assigned. *)
Theorem exit_code_is_loop_result (e : Env) :
  (forall s g, thrdata s <> None -> shutdown g = shutdown (lg s) ->
     fst (checker_and_exit e s) =
     match fst (process_submission_queue (poller_ticks e) g) with
     | Some v => Exit v
     | None => Halted Running
     end) /\
  (forall s, thrdata s <> None -> shutdown (lg s) <> 0 -> poller_ticks e <> [] ->
     fst (checker_and_exit e s) = Exit 0) /\
  (startup_succeeds e ->
     thrdata (snd (preparations e main_locals)) <> None /\
     main e = checker_and_exit e (snd (preparations e main_locals))).
Proof.
  assert (Hres : forall s g, thrdata s <> None -> shutdown g = shutdown (lg s) ->
            fst (checker_and_exit e s) =
            match fst (process_submission_queue (poller_ticks e) g) with
            | Some v => Exit v
            | None => Halted Running
            end).
  { intros s g Ht Hg. unfold checker_and_exit, run_checker, seqM, act, poll.
    rewrite (returned_same_flag (poller_ticks e) g
               (lg (with_g (emit (Stderr msg_checker_start)) s))) by exact Hg.
    destruct (process_submission_queue (poller_ticks e)
                (lg (with_g (emit (Stderr msg_checker_start)) s))) as [[v|] g']; cbn [fst].
    - rewrite teardown_order by exact Ht. reflexivity.
    - reflexivity. }
  split; [exact Hres|]. split.
  - intros s Ht Hs Hts. rewrite (Hres s (lg s) Ht eq_refl).
    rewrite (loop_sees_flag _ _ Hs Hts). reflexivity.
  - intros H.
    destruct (lands_preparations e H main_locals) as [F (_ & Ht)]; [split; reflexivity|].
    split; [exact Ht|].
    unfold main, checker_and_exit. rewrite startup_preparations. unfold seqM at 1.
    destruct (preparations e main_locals) as [f s1]. cbn [fst snd] in *. subst f.
    reflexivity.
Qed.

Lemma exit_code_is_loop_result_witness :
  startup_succeeds (healthy one_job_then_sigterm) /\
  fst (main (healthy one_job_then_sigterm)) = Exit 0.
Proof.
  assert (H : startup_succeeds (healthy one_job_then_sigterm)).
  { split; [reflexivity|]. split; [vm_compute; discriminate|].
    split; [reflexivity|]. split; [reflexivity|].
    intros i _. repeat split; try reflexivity; vm_compute; discriminate. }
  split; [exact H|].
  destruct (exit_code_is_loop_result (healthy one_job_then_sigterm)) as (Hres & _ & Hmain).
  destruct (Hmain H) as [Ht Hm].
  rewrite Hm, (Hres _ boot Ht) by (vm_compute; reflexivity). reflexivity.
Defined.

(** *** Every worker connection is closed once *)

Lemma count_off_slots (i : nat) (l : list action) :
  Forall (fun a => is_worker_db a = false) l ->
  count (is_connect_of i) l = 0%nat /\ count (is_disconnect_of i) l = 0%nat.
Proof.
  intros H. induction H as [|a l Ha _ [IH1 IH2]]; [split; reflexivity|].
  rewrite !count_cons, IH1, IH2.
  destruct a; try (split; reflexivity);
    match goal with o : owner |- _ => destruct o end;
    try discriminate; split; reflexivity.
Qed.

Lemma booked_same (e : Env) (s s' : locals) (l : list action) :
  thrdata s' = thrdata s -> out (lg s') = out (lg s) ++ l ->
  Forall (fun a => is_worker_db a = false) l ->
  booked e s -> booked e s'.
Proof.
  intros Ht Ho Hl Hb i. destruct (Hb i) as [Hd Hc].
  destruct (count_off_slots i l Hl) as [C1 C2].
  unfold thrdata_slot in *. rewrite Ht, Ho, !count_app, C1, C2, !Nat.add_0_r.
  split; assumption.
Qed.

Lemma leaves_slots_skip : leaves_slots skip.
Proof. intros s. split; [reflexivity|]. exists []. rewrite app_nil_r. split; [reflexivity | constructor]. Qed.

Lemma leaves_slots_goto_exit : leaves_slots goto_exit.
Proof. exact leaves_slots_skip. Qed.

Lemma leaves_slots_halt (h : halt_reason) : leaves_slots (halt h).
Proof. exact leaves_slots_skip. Qed.

Lemma leaves_slots_act (a : action) : is_worker_db a = false -> leaves_slots (act a).
Proof.
  intros H s. split; [reflexivity|]. exists [a].
  split; [reflexivity | constructor; [exact H | constructor]].
Qed.

Lemma leaves_slots_acts (l : list action) :
  Forall (fun a => is_worker_db a = false) l -> leaves_slots (acts l).
Proof. intros H s. split; [reflexivity|]. exists l. split; [reflexivity | exact H]. Qed.

Lemma leaves_slots_upd (f : locals -> locals) :
  (forall s, thrdata (f s) = thrdata s /\ out (lg (f s)) = out (lg s)) ->
  leaves_slots (upd f).
Proof.
  intros H s. destruct (H s) as [H1 H2]. split; [exact H1|].
  exists []. rewrite app_nil_r. split; [exact H2 | constructor].
Qed.

Lemma leaves_slots_seq (a b : M) : leaves_slots a -> leaves_slots b -> leaves_slots (a >> b).
Proof.
  intros Ha Hb s. unfold seqM. destruct (Ha s) as (T1 & l1 & E1 & F1).
  destruct (a s) as [[| |h] s1]; cbn [fst snd] in *;
    [|split; [exact T1 | exists l1; split; assumption] ..].
  destruct (Hb s1) as (T2 & l2 & E2 & F2). split; [congruence|].
  exists (l1 ++ l2). rewrite E2, E1, <- app_assoc.
  split; [reflexivity | apply Forall_app; split; assumption].
Qed.

Lemma leaves_slots_when (b : bool) (m : M) : leaves_slots m -> leaves_slots (when b m).
Proof. intros H. destruct b; [exact H | apply leaves_slots_skip]. Qed.

Lemma leaves_slots_if (b : bool) (m1 m2 : M) :
  leaves_slots m1 -> leaves_slots m2 -> leaves_slots (if b then m1 else m2).
Proof. intros H1 H2. destruct b; assumption. Qed.

Lemma leaves_slots_fail_with (code : Z) (msg : string) : leaves_slots (fail_with code msg).
Proof.
  unfold fail_with. apply leaves_slots_seq; [apply leaves_slots_act; reflexivity|].
  apply leaves_slots_seq; [apply leaves_slots_upd; intros s; split; reflexivity|].
  apply leaves_slots_goto_exit.
Qed.

Lemma leaves_slots_for_loop (body : nat -> M) (n from : nat) :
  (forall i, leaves_slots (body i)) -> leaves_slots (for_loop from n body).
Proof.
  intros H. revert from. induction n as [|n IH]; intros from; cbn [for_loop].
  - apply leaves_slots_skip.
  - apply leaves_slots_seq; [apply H | apply IH].
Qed.

Ltac leaves_tac :=
  repeat first
    [ apply leaves_slots_seq
    | apply leaves_slots_when
    | apply leaves_slots_if
    | apply leaves_slots_fail_with
    | apply leaves_slots_skip
    | apply leaves_slots_goto_exit
    | apply leaves_slots_halt
    | apply leaves_slots_act; reflexivity
    | apply leaves_slots_upd; intros ?; split; reflexivity ].

Lemma at_stage_off_slots (a : action) : at_stage 6 a -> is_worker_db a = false.
Proof.
  intros [H|H]; destruct a; try reflexivity; try discriminate;
    match goal with o : owner |- _ => destruct o end;
    try reflexivity; discriminate.
Qed.

Lemma leaves_slots_poll (e : Env) : leaves_slots (poll e).
Proof.
  intros s. destruct (poll_at_stage e s) as (l & E & F). split.
  - unfold poll. destruct (process_submission_queue _ _) as [[v|] g]; reflexivity.
  - exists l. split; [exact E|]. eapply Forall_impl; [exact F | apply at_stage_off_slots].
Qed.

Lemma keeping_seq (I P Q R : locals -> Prop) (a b : M) :
  keeping I P Q a -> keeping I Q R b -> keeping I P R (a >> b).
Proof.
  intros Ha Hb s Hs. unfold seqM. destruct (Ha s Hs) as [B1 Q1].
  destruct (a s) as [[| |h] s1]; cbn [fst snd] in *;
    [apply Hb, Q1; reflexivity | split; [exact B1 | discriminate] ..].
Qed.

Lemma keeping_for_loop (I : locals -> Prop) (P : nat -> locals -> Prop)
    (body : nat -> M) (n from : nat) :
  (forall k s, P k s -> I s) ->
  (forall i, (from <= i < from + n)%nat -> keeping I (P i) (P (S i)) (body i)) ->
  keeping I (P from) (P (from + n)%nat) (for_loop from n body).
Proof.
  intros HP. revert from. induction n as [|n IH]; intros from H; cbn [for_loop].
  - intros s Hs. rewrite Nat.add_0_r. split; [eapply HP; exact Hs | intros _; exact Hs].
  - replace (from + S n)%nat with (S from + n)%nat by lia.
    eapply keeping_seq; [apply H; lia|]. apply IH. intros i Hi. apply H. lia.
Qed.

Lemma books_seq (e : Env) (P Q R : locals -> Prop) (a b : M) :
  books e P Q a -> books e Q R b -> books e P R (a >> b).
Proof. apply keeping_seq. Qed.

Lemma books_for_loop (e : Env) (P : nat -> locals -> Prop) (body : nat -> M) (n from : nat) :
  (forall k s, P k s -> booked e s) ->
  (forall i, (from <= i < from + n)%nat -> books e (P i) (P (S i)) (body i)) ->
  books e (P from) (P (from + n)%nat) (for_loop from n body).
Proof. apply keeping_for_loop. Qed.

(** What holds of the books and of [thrdata] alone goes through a statement
    that leaves the slots. *)
Lemma books_leaves (e : Env) (P : locals -> Prop) (m : M) :
  (forall s, P s -> booked e s) ->
  (forall s s', P s -> thrdata s' = thrdata s -> booked e s' -> P s') ->
  leaves_slots m -> books e P P m.
Proof.
  intros HP Hstable Hm s Hs. destruct (Hm s) as (Ht & l & E & F).
  assert (Hb : booked e (snd (m s))) by (eapply booked_same; eauto).
  split; [exact Hb|]. intros _. eapply Hstable; eassumption.
Qed.

Lemma unallocated_stable (e : Env) (s s' : locals) :
  unallocated e s -> thrdata s' = thrdata s -> booked e s' -> unallocated e s'.
Proof. intros [H _] Ht Hb. split; [congruence | exact Hb]. Qed.

Lemma unused_from_stable (e : Env) (k : nat) (s s' : locals) :
  unused_from e k s -> thrdata s' = thrdata s -> booked e s' -> unused_from e k s'.
Proof.
  intros (_ & arr & Ha & Hlen & Hfree) Ht Hb. split; [exact Hb|].
  exists arr. split; [congruence|]. split; [exact Hlen|].
  intros j Hj. specialize (Hfree j Hj). unfold thrdata_slot in *. rewrite Ht. exact Hfree.
Qed.

Lemma books_allocate_arrays (e : Env) :
  books e (unallocated e) (unused_from e 0) (allocate_arrays e).
Proof.
  intros s [Hn Hb]. unfold allocate_arrays. destruct (calloc_ok e); cbn [upd halt fst snd].
  - assert (Hslot : forall i,
              thrdata_slot (mkLocals (lg s) (Some (replicate (S max_threads) None))
                              (Some (replicate (S max_threads) None))
                              (Some (replicate (S max_threads) None))
                              (dbc s) (main_rc s)) i = None).
    { intros i. unfold thrdata_slot. cbn [thrdata].
      destruct (replicate (S max_threads) None !! i) as [[td|]|] eqn:E; try reflexivity.
      apply lookup_replicate in E. destruct E as [E _]. discriminate. }
    assert (Hb' : booked e (mkLocals (lg s) (Some (replicate (S max_threads) None))
                              (Some (replicate (S max_threads) None))
                              (Some (replicate (S max_threads) None))
                              (dbc s) (main_rc s))).
    { intros i. destruct (Hb i) as [Hd Hc]. rewrite Hslot. cbn [lg].
      unfold thrdata_slot in Hc. rewrite Hn in Hc. split; assumption. }
    split; [exact Hb'|]. intros _. split; [exact Hb'|].
    eexists. split; [reflexivity|]. split; [apply length_replicate|].
    intros j _. apply Hslot.
  - split; [exact Hb | discriminate].
Qed.

Lemma prepare_slot_split (e : Env) (i : nat) (s : locals) :
  prepare_slot e i s = (connect_slot e i >> equip_slot e i) s.
Proof.
  unfold prepare_slot, connect_slot, equip_slot, seqM.
  cbn [act]. destruct (malloc_thrdata e i); [|reflexivity].
  cbn [upd]. destruct (db_connect_thread e i); reflexivity.
Qed.

(** The connection of worker [i] enters the books. *)
Lemma booked_connect (e : Env) (i : nat) (td : threadData_t) (s s' : locals)
    (arr arr' : list (option threadData_t)) (l : list action) :
  booked e s -> thrdata s = Some arr -> thrdata_slot s i = None ->
  (i < max_threads)%nat ->
  thrdata s' = Some arr' -> arr' !! i = Some (Some td) ->
  (forall j, j <> i -> arr' !! j = arr !! j) ->
  td_dbc td = db_connect_thread e i ->
  out (lg s') = out (lg s) ++ l ->
  (forall j, count (is_connect_of j) l = if Nat.eqb j i then 1%nat else 0%nat) ->
  (forall j, count (is_disconnect_of j) l = 0%nat) ->
  booked e s'.
Proof.
  intros Hb Ha Hfree Hi Ha' Hgot Hrest Htd Ho Hc Hd j.
  destruct (Hb j) as [Dj Cj]. rewrite Ho, !count_app, Hc, Hd, Dj.
  split; [reflexivity|]. unfold thrdata_slot in *. rewrite Ha'. rewrite Ha in Cj, Hfree.
  destruct (Nat.eqb_spec j i) as [->|Hne].
  - rewrite Hgot. rewrite Hfree in Cj. rewrite Cj. auto.
  - rewrite (Hrest j Hne), Nat.add_0_r. exact Cj.
Qed.

Lemma books_connect_slot (e : Env) (i : nat) :
  (i < max_threads)%nat ->
  books e (unused_from e i) (unused_from e (S i)) (connect_slot e i).
Proof.
  intros Hi s (Hb & arr & Ha & Hlen & Hfree).
  assert (Hin : (i < length arr)%nat) by (unfold max_threads in *; lia).
  assert (Hnone : thrdata_slot s i = None) by (apply Hfree; lia).
  assert (Hcount : forall (rest : list action) j,
            Forall (fun a => is_worker_db a = false) rest ->
            count (is_connect_of j) (MallocThrdata i :: DbConnect (Worker i) :: rest) =
              (if Nat.eqb j i then 1%nat else 0%nat) /\
            count (is_disconnect_of j) (MallocThrdata i :: DbConnect (Worker i) :: rest) = 0%nat).
  { intros rest j Hrest. destruct (count_off_slots j rest Hrest) as [C1 C2].
    rewrite !count_cons, C1, C2. cbn. destruct (Nat.eqb j i); split; reflexivity. }
  unfold connect_slot, seqM. cbn [act].
  destruct (malloc_thrdata e i); cbn [upd].
  2:{ split; [|discriminate].
      eapply (booked_same e s _ [MallocThrdata i; Stderr msg_alloc_thrdata]);
        [reflexivity | cbn; rewrite <- app_assoc; reflexivity
        | repeat constructor | exact Hb]. }
  destruct (db_connect_thread e i) eqn:Hdb; cbn [upd fst snd].
  - assert (Hb' : booked e
        (with_thrdata <[i:=Some (mkThreadData true i (reportdir e))]>
           (with_g (emit (DbConnect (Worker i)))
              (with_thrdata <[i:=Some (mkThreadData false 0 None)]>
                 (with_g (emit (MallocThrdata i)) s))))).
    { eapply (booked_connect e i (mkThreadData true i (reportdir e)) s _ arr
                (<[i:=Some (mkThreadData true i (reportdir e))]>
                   (<[i:=Some (mkThreadData false 0 None)]> arr))
                [MallocThrdata i; DbConnect (Worker i)]); try eassumption.
      - cbn. rewrite Ha. reflexivity.
      - apply list_lookup_insert_eq. rewrite length_insert. exact Hin.
      - intros j Hj. rewrite !list_lookup_insert_ne by congruence. reflexivity.
      - cbn. symmetry. exact Hdb.
      - cbn. rewrite <- app_assoc. reflexivity.
      - intros j. apply (Hcount [] j). constructor.
      - intros j. apply (Hcount [] j). constructor. }
    split; [exact Hb'|]. intros _. split; [exact Hb'|].
    eexists. split; [cbn; rewrite Ha; reflexivity|].
    split; [rewrite !length_insert; exact Hlen|].
    intros j Hj. specialize (Hfree j ltac:(lia)).
    unfold thrdata_slot in *. cbn. rewrite Ha in *. cbn.
    rewrite !list_lookup_insert_ne by lia. exact Hfree.
  - split; [|discriminate].
    eapply (booked_connect e i (mkThreadData false 0 None) s _ arr
              (<[i:=Some (mkThreadData false 0 None)]> arr)
              [MallocThrdata i; DbConnect (Worker i); Stderr msg_db_thread]); try eassumption.
    + cbn. rewrite Ha. reflexivity.
    + apply list_lookup_insert_eq. exact Hin.
    + intros j Hj. rewrite list_lookup_insert_ne by congruence. reflexivity.
    + cbn. symmetry. exact Hdb.
    + cbn. rewrite <- !app_assoc. reflexivity.
    + intros j. apply (Hcount [Stderr msg_db_thread] j). repeat constructor.
    + intros j. apply (Hcount [Stderr msg_db_thread] j). repeat constructor.
Qed.

Lemma unused_from_booked (e : Env) (k : nat) (s : locals) : unused_from e k s -> booked e s.
Proof. intros [H _]. exact H. Qed.

Lemma books_prepare_slot (e : Env) (i : nat) :
  (i < max_threads)%nat ->
  books e (unused_from e i) (unused_from e (S i)) (prepare_slot e i).
Proof.
  intros Hi s Hs. rewrite prepare_slot_split. revert s Hs.
  eapply books_seq; [apply books_connect_slot, Hi|].
  apply books_leaves; [apply unused_from_booked | apply unused_from_stable|].
  unfold equip_slot. leaves_tac.
Qed.

Lemma books_startup (e : Env) : books e (unallocated e) (unused_from e max_threads) (startup e).
Proof.
  pose proof (fun m => books_leaves e (unallocated e) m
                         (fun s H => proj2 H) (unallocated_stable e)) as Hearly.
  pose proof (fun m => books_leaves e (unused_from e max_threads) m
                         (unused_from_booked e max_threads)
                         (unused_from_stable e max_threads)) as Hlate.
  unfold startup.
  eapply books_seq; [apply Hearly; unfold initialise; apply leaves_slots_acts; repeat constructor|].
  eapply books_seq; [apply Hearly; unfold parse_template; leaves_tac|].
  eapply books_seq.
  { apply Hearly. unfold open_queue. apply leaves_slots_seq; [|leaves_tac].
    apply leaves_slots_acts. eapply Forall_impl; [apply lines_stderr|].
    intros a Ha. destruct a; try discriminate. reflexivity. }
  eapply books_seq; [apply Hearly; unfold connect_main; leaves_tac|].
  eapply books_seq; [apply books_allocate_arrays|].
  eapply books_seq.
  { apply (books_for_loop e (unused_from e) (prepare_slot e) max_threads 0).
    - apply unused_from_booked.
    - intros i Hi. apply books_prepare_slot. lia. }
  eapply books_seq; [apply Hlate; unfold install_handlers; leaves_tac|].
  eapply books_seq.
  { apply Hlate. apply leaves_slots_for_loop. intros i. unfold start_slot. leaves_tac. }
  apply Hlate. unfold run_checker.
  apply leaves_slots_seq; [leaves_tac|].
  apply leaves_slots_seq; [apply leaves_slots_poll | leaves_tac].
Qed.

Lemma main_locals_unallocated (e : Env) : unallocated e main_locals.
Proof. split; [reflexivity|]. intros i. split; reflexivity. Qed.

(** Without [thrdata] the exit path does not get as far as its [return]. *)
Lemma leave_undefined (e : Env) (s : locals) :
  thrdata s = None -> fst (leave e s) = Halted Undefined.
Proof.
  intros H. destruct s as [g th ta td d r]. cbn in H. subst td.
  unfold leave, teardown. cbn [max_threads for_loop]. unfold seqM at 1 2.
  unfold release_slot at 1. unfold seqM at 1. cbn [threads].
  destruct th as [arr|]; [|reflexivity].
  destruct (arr !! 0%nat) as [[b|]|]; try reflexivity.
  unfold seqM, act, when, upd. destruct (negb (pthread_join_ret e 0 =? 0)); reflexivity.
Qed.

Lemma count_slot_release (e : Env) (s : locals) (i j : nat) :
  count (is_connect_of i) (slot_release e s j) = 0%nat /\
  count (is_disconnect_of i) (slot_release e s j) =
    (if Nat.eqb i j then match thrdata_slot s j with Some _ => 1 | None => 0 end else 0)%nat.
Proof.
  unfold slot_release. rewrite !count_app.
  assert (H1 : forall p, (forall a, is_stderr a = true -> p a = false) ->
                 (forall b, p (PthreadJoin j b) = false) ->
                 p (AttrDestroy j) = false -> p (FreeThread j) = false ->
                 p (FreeAttr j) = false ->
                 count p match thread_slot s j with
                         | Some b =>
                             PthreadJoin j b ::
                             (if negb (pthread_join_ret e j =? 0) then [Stderr msg_join] else []) ++
                             [AttrDestroy j; FreeThread j; FreeAttr j]
                         | None => []
                         end = 0%nat).
  { intros p Hs Hj Ha Hf Hfa. destruct (thread_slot s j) as [b|]; [|reflexivity].
    rewrite count_cons, count_app, !count_cons, count_nil, Hj, Ha, Hf, Hfa.
    destruct (negb _); [rewrite count_cons, (Hs (Stderr msg_join) eq_refl)|]; reflexivity. }
  rewrite !H1 by (try reflexivity; intros []; try discriminate; reflexivity).
  destruct (thrdata_slot s j) as [td|].
  - rewrite !count_cons, !count_nil. cbn. destruct (Nat.eqb i j); split; reflexivity.
  - rewrite !count_nil. destruct (Nat.eqb i j); split; reflexivity.
Qed.

Lemma count_release_loop (e : Env) (s : locals) (i n from : nat) :
  count (is_connect_of i) (flat_map (slot_release e s) (seq from n)) = 0%nat /\
  count (is_disconnect_of i) (flat_map (slot_release e s) (seq from n)) =
    (if (from <=? i)%nat && (i <? from + n)%nat
     then match thrdata_slot s i with Some _ => 1 | None => 0 end else 0)%nat.
Proof.
  revert from. induction n as [|n IH]; intros from; cbn [seq flat_map].
  - rewrite !count_nil. split; [reflexivity|].
    destruct (Nat.leb_spec from i), (Nat.ltb_spec i (from + 0)); cbn; try reflexivity; lia.
  - destruct (IH (S from)) as [C1 C2]. destruct (count_slot_release e s i from) as [D1 D2].
    rewrite !count_app, C1, C2, D1, D2. split; [reflexivity|].
    destruct (Nat.eqb_spec i from) as [->|Hne].
    + destruct (Nat.leb_spec (S from) from); [lia|].
      destruct (Nat.leb_spec from from); [|lia].
      destruct (Nat.ltb_spec from (from + S n)); [|lia]. cbn. lia.
    + destruct (Nat.leb_spec (S from) i), (Nat.leb_spec from i),
        (Nat.ltb_spec i (S from + n)), (Nat.ltb_spec i (from + S n)); cbn; try reflexivity; lia.
Qed.

Lemma count_closing (e : Env) (s : locals) (i : nat) :
  count (is_connect_of i) (closing e s) = 0%nat /\
  count (is_disconnect_of i) (closing e s) = 0%nat.
Proof.
  apply count_off_slots. unfold closing.
  repeat (apply Forall_app; split); try destruct (_ <? 0); repeat constructor.
Qed.

Lemma count_positive (p : action -> bool) (a : action) (l : list action) :
  In a l -> p a = true -> (0 < count p l)%nat.
Proof.
  intros Hin Hp. induction l as [|b l IH]; [contradiction|].
  rewrite count_cons. destruct Hin as [->|Hin]; [rewrite Hp; lia|].
  specialize (IH Hin). lia.
Qed.

Lemma disconnect_counted (i : nat) (b : bool) (l : list action) :
  In (DbDisconnect (Worker i) b) l -> (0 < count (is_disconnect_of i) l)%nat.
Proof. intros H. apply (count_positive _ _ _ H). cbn. apply Nat.eqb_refl. Qed.

(** X15.  Whenever [main] returns, the connections of the workers are
    settled: for every worker [db_disconnect] was called as often as
    [db_connect], which is at most once, and [db_disconnect] was given a
    connection exactly when that call of [db_connect] had opened one.  No
    worker connection is left open, none is closed twice, wherever the
    start-up stopped. *)
Theorem worker_connections_settled (e : Env) (c : Z) (i : nat) :
  fst (main e) = Exit c ->
  count (is_connect_of i) (snd (main e)) = count (is_disconnect_of i) (snd (main e)) /\
  (count (is_connect_of i) (snd (main e)) <= 1)%nat /\
  (forall b, In (DbDisconnect (Worker i) b) (snd (main e)) -> b = db_connect_thread e i).
Proof.
  unfold main.
  destruct (books_startup e main_locals (main_locals_unallocated e)) as [Hb _].
  destruct (startup e main_locals) as [f s1]. cbn [fst snd] in Hb.
  assert (Hleave : fst (leave e s1) = Exit c ->
            count (is_connect_of i) (snd (leave e s1)) =
              count (is_disconnect_of i) (snd (leave e s1)) /\
            (count (is_connect_of i) (snd (leave e s1)) <= 1)%nat /\
            (forall b, In (DbDisconnect (Worker i) b) (snd (leave e s1)) ->
                       b = db_connect_thread e i)).
  { intros Hexit. destruct (thrdata s1) as [arr|] eqn:Ha;
      [|rewrite (leave_undefined e s1 Ha) in Hexit; discriminate].
    rewrite teardown_order by congruence. cbn [snd].
    destruct (Hb i) as [Hd Hc].
    destruct (count_release_loop e s1 i max_threads 0) as [R1 R2].
    destruct (count_closing e s1 i) as [K1 K2].
    rewrite !count_app, R1, R2, K1, K2, Hd.
    destruct (thrdata_slot s1 i) as [td|] eqn:Hslot.
    - destruct Hc as (Hi & Htd & Hc). rewrite Hc.
      destruct (Nat.leb_spec 0 i); [|lia].
      destruct (Nat.ltb_spec i (0 + max_threads)); [|lia]. cbn [andb].
      split; [lia|]. split; [lia|].
      intros b Hin. apply in_app_or in Hin. destruct Hin as [Hin|Hin].
      + pose proof (disconnect_counted _ _ _ Hin) as Hpos. lia.
      + apply in_app_or in Hin. destruct Hin as [Hin|Hin].
        * apply in_flat_map in Hin. destruct Hin as (j & _ & Hin).
          unfold slot_release in Hin. apply in_app_or in Hin. destruct Hin as [Hin|Hin].
          { destruct (thread_slot s1 j) as [b'|]; [|contradiction].
            destruct Hin as [Hin|Hin]; [discriminate|].
            apply in_app_or in Hin. destruct Hin as [Hin|Hin].
            - destruct (negb _); [destruct Hin as [Hin|[]]; discriminate | contradiction].
            - repeat (destruct Hin as [Hin|Hin]; [discriminate|]). contradiction. }
          { destruct (thrdata_slot s1 j) as [td'|] eqn:Hj; [|contradiction].
            destruct Hin as [Hin|[Hin|[]]]; [|discriminate].
            injection Hin as Hji Hbb. subst j b.
            rewrite Hslot in Hj. injection Hj as <-. exact Htd. }
        * pose proof (disconnect_counted _ _ _ Hin) as Hpos. lia.
    - rewrite Hc. destruct ((0 <=? i)%nat && (i <? 0 + max_threads)%nat);
        (split; [lia|]); (split; [lia|]);
        intros b Hin;
        pose proof (disconnect_counted _ _ _ Hin) as Hpos;
        rewrite !count_app, R2, K2, Hd, ?Hslot in Hpos;
        destruct ((0 <=? i)%nat && (i <? 0 + max_threads)%nat); cbn in Hpos; lia. }
  destruct f as [| |h]; cbn [fst snd]; [exact Hleave | exact Hleave | discriminate].
Qed.

Lemma worker_connections_settled_witness :
  fst (main second_connection_fails) = Exit 2 /\
  count (is_connect_of 1) (snd (main second_connection_fails)) = 1%nat /\
  count (is_disconnect_of 1) (snd (main second_connection_fails)) = 1%nat /\
  In (DbDisconnect (Worker 1) false) (snd (main second_connection_fails)).
Proof.
  assert (H : fst (main second_connection_fails) = Exit 2) by (vm_compute; reflexivity).
  split; [exact H|].
  destruct (worker_connections_settled second_connection_fails 2 1 H) as (Heq & _ & _).
  split; [vm_compute; reflexivity|].
  split; [rewrite <- Heq; vm_compute; reflexivity|].
  vm_compute. repeat first [left; reflexivity | right].
Defined.

(** *** Attributes without a pthread_t are never released *)

Lemma leaves_threads_skip : leaves_threads skip.
Proof. intros s. reflexivity. Qed.

Lemma leaves_threads_act (a : action) : leaves_threads (act a).
Proof. intros s. reflexivity. Qed.

Lemma leaves_threads_acts (l : list action) : leaves_threads (acts l).
Proof. intros s. reflexivity. Qed.

Lemma leaves_threads_upd (f : locals -> locals) :
  (forall s, threads (f s) = threads s) -> leaves_threads (upd f).
Proof. intros H s. apply H. Qed.

Lemma leaves_threads_seq (a b : M) :
  leaves_threads a -> leaves_threads b -> leaves_threads (a >> b).
Proof.
  intros Ha Hb s. unfold seqM. specialize (Ha s).
  destruct (a s) as [[| |h] s1]; cbn [fst snd] in *; [|exact Ha ..].
  rewrite Hb. exact Ha.
Qed.

Lemma leaves_threads_when (b : bool) (m : M) : leaves_threads m -> leaves_threads (when b m).
Proof. intros H. destruct b; [exact H | apply leaves_threads_skip]. Qed.

Lemma leaves_threads_if (b : bool) (m1 m2 : M) :
  leaves_threads m1 -> leaves_threads m2 -> leaves_threads (if b then m1 else m2).
Proof. intros H1 H2. destruct b; assumption. Qed.

Lemma leaves_threads_fail_with (code : Z) (msg : string) : leaves_threads (fail_with code msg).
Proof. intros s. reflexivity. Qed.

Lemma leaves_threads_poll (e : Env) : leaves_threads (poll e).
Proof.
  intros s. unfold poll. destruct (process_submission_queue _ _) as [[v|] g]; reflexivity.
Qed.

Ltac leaves_threads_tac :=
  repeat first
    [ apply leaves_threads_seq
    | apply leaves_threads_when
    | apply leaves_threads_if
    | apply leaves_threads_fail_with
    | apply leaves_threads_skip
    | apply leaves_threads_act
    | apply leaves_threads_acts
    | apply leaves_threads_poll
    | apply leaves_threads_upd; intros ?; reflexivity ].

(** What holds of [threads] alone goes through a statement that leaves it. *)
Lemma keeping_leaves_threads (e : Env) (P : locals -> Prop) (m : M) :
  (forall s, P s -> threads_allocated e s) ->
  (forall s s', P s -> threads s' = threads s -> P s') ->
  leaves_threads m -> keeping (threads_allocated e) P P m.
Proof.
  intros HP Hstable Hm s Hs.
  assert (H : P (snd (m s))) by (eapply Hstable; [exact Hs | apply Hm]).
  split; [apply HP, H | intros _; exact H].
Qed.

Lemma no_threads_allocated (e : Env) (s : locals) : no_threads s -> threads_allocated e s.
Proof. intros H i b. unfold thread_slot. rewrite H. discriminate. Qed.

Lemma no_threads_stable (s s' : locals) :
  no_threads s -> threads s' = threads s -> no_threads s'.
Proof. unfold no_threads. congruence. Qed.

Lemma allocated_below_stable (e : Env) (k : nat) (s s' : locals) :
  allocated_below e k s -> threads s' = threads s -> allocated_below e k s'.
Proof.
  intros [Ht Hk] E. split; [|exact Hk].
  intros i b. unfold thread_slot. rewrite E. apply Ht.
Qed.

(** A [pthread_t] stored in a slot whose allocation succeeded. *)
Lemma threads_allocated_insert (e : Env) (i : nat) (v : bool) (s s' : locals) :
  threads_allocated e s -> malloc_thread e i = true ->
  threads s' = (<[i := Some v]>) <$> threads s ->
  threads_allocated e s'.
Proof.
  intros Ht Hi E j b. specialize (Ht j). unfold thread_slot in *. rewrite E.
  destruct (threads s) as [arr|]; cbn; [|discriminate].
  destruct (Nat.eq_dec i j) as [->|Hne]; [intros _; exact Hi|].
  rewrite list_lookup_insert_ne by exact Hne. apply Ht.
Qed.

Lemma keeping_allocate_arrays (e : Env) :
  keeping (threads_allocated e) no_threads (allocated_below e 0) (allocate_arrays e).
Proof.
  intros s Hs. unfold allocate_arrays. destruct (calloc_ok e); cbn [upd halt fst snd].
  - assert (H : threads_allocated e
                  (mkLocals (lg s) (Some (replicate (S max_threads) None))
                     (Some (replicate (S max_threads) None))
                     (Some (replicate (S max_threads) None)) (dbc s) (main_rc s))).
    { intros i b. unfold thread_slot. cbn [threads].
      destruct (replicate (S max_threads) None !! i) as [[b'|]|] eqn:E; try discriminate.
      apply lookup_replicate in E. destruct E as [E _]. discriminate. }
    split; [exact H|]. intros _. split; [exact H | intros i Hi; lia].
  - split; [apply no_threads_allocated, Hs | discriminate].
Qed.

Lemma keeping_prepare_slot (e : Env) (i : nat) :
  keeping (threads_allocated e) (allocated_below e i) (allocated_below e (S i))
    (prepare_slot e i).
Proof.
  intros s [Ht Hk].
  assert (Hsame : forall s', threads s' = threads s -> threads_allocated e s').
  { intros s' E j b. unfold thread_slot. rewrite E. apply Ht. }
  unfold prepare_slot, seqM, act, upd, fail_with.
  destruct (malloc_thrdata e i); [|split; [apply Hsame; reflexivity | discriminate]].
  destruct (db_connect_thread e i); [|split; [apply Hsame; reflexivity | discriminate]].
  destruct (malloc_attr e i); [|split; [apply Hsame; reflexivity | discriminate]].
  destruct (malloc_thread e i) eqn:Hm; [|split; [apply Hsame; reflexivity | discriminate]].
  cbn [fst snd].
  assert (H : threads_allocated e
                (with_threads <[i:=Some false]>
                   (with_g (emit (MallocThread i))
                      (with_attrs <[i:=Some tt]>
                         (with_g (emit (MallocAttr i))
                            (with_thrdata <[i:=Some (mkThreadData true i (reportdir e))]>
                               (with_g (emit (DbConnect (Worker i)))
                                  (with_thrdata <[i:=Some (mkThreadData false 0 None)]>
                                     (with_g (emit (MallocThrdata i)) s))))))))).
  { eapply (threads_allocated_insert e i false s); [exact Ht | exact Hm | reflexivity]. }
  split; [exact H|]. intros _. split; [exact H|].
  intros j Hj. destruct (Nat.eq_dec j i) as [->|Hne]; [exact Hm | apply Hk; lia].
Qed.

Lemma keeping_start_slot (e : Env) (i : nat) :
  (i < max_threads)%nat ->
  keeping (threads_allocated e) (allocated_below e max_threads)
    (allocated_below e max_threads) (start_slot e i).
Proof.
  intros Hi s [Ht Hk].
  assert (H : threads_allocated e (snd (start_slot e i s))).
  { eapply (threads_allocated_insert e i (pthread_create_ret e i =? 0) s);
      [exact Ht | apply Hk, Hi|].
    unfold start_slot, seqM, act, upd, when, fail_with.
    destruct (pthread_create_ret e i <? 0); reflexivity. }
  split; [exact H|]. intros _. split; [exact H | exact Hk].
Qed.

Lemma keeping_startup (e : Env) :
  keeping (threads_allocated e) no_threads (allocated_below e max_threads) (startup e).
Proof.
  pose proof (fun m => keeping_leaves_threads e no_threads m
                         (no_threads_allocated e) no_threads_stable) as Hearly.
  pose proof (fun m => keeping_leaves_threads e (allocated_below e max_threads) m
                         (fun s H => proj1 H)
                         (allocated_below_stable e max_threads)) as Hlate.
  unfold startup.
  eapply keeping_seq; [apply Hearly; unfold initialise; leaves_threads_tac|].
  eapply keeping_seq; [apply Hearly; unfold parse_template; leaves_threads_tac|].
  eapply keeping_seq; [apply Hearly; unfold open_queue; leaves_threads_tac|].
  eapply keeping_seq; [apply Hearly; unfold connect_main; leaves_threads_tac|].
  eapply keeping_seq; [apply keeping_allocate_arrays|].
  eapply keeping_seq.
  { apply (keeping_for_loop (threads_allocated e) (allocated_below e)
             (prepare_slot e) max_threads 0).
    - intros k s H. exact (proj1 H).
    - intros i _. apply keeping_prepare_slot. }
  eapply keeping_seq; [apply Hlate; unfold install_handlers; leaves_threads_tac|].
  eapply keeping_seq.
  { apply (keeping_for_loop (threads_allocated e) (fun _ => allocated_below e max_threads)
             (start_slot e) max_threads 0).
    - intros k s H. exact (proj1 H).
    - intros i Hi. apply keeping_start_slot. lia. }
  apply Hlate. unfold run_checker. leaves_threads_tac.
Qed.

(** Nothing of the tear-down is done before the label [exit]. *)
Lemma startup_before_teardown (e : Env) : writes before_teardown (startup e).
Proof.
  assert (Hw : forall k m, (k < 7)%nat -> writes (at_stage k) m -> writes before_teardown m).
  { intros k m Hk. apply writes_weaken. intros a [Ha|Ha]; [left; exact Ha | right; lia]. }
  unfold startup.
  apply writes_seq.
  { apply (Hw 0%nat); [lia|]. unfold initialise. apply writes_acts.
    repeat first [apply Forall_nil_2 | apply Forall_cons_2]; at_stage_tac. }
  apply writes_seq.
  { apply (Hw 1%nat); [lia|]. unfold parse_template. writes_tac; at_stage_tac. }
  apply writes_seq.
  { apply (Hw 2%nat); [lia|]. unfold open_queue.
    apply writes_seq; [apply writes_acts, stderr_lines_at_stage, lines_stderr|].
    writes_tac; at_stage_tac. }
  apply writes_seq.
  { apply (Hw 3%nat); [lia|]. unfold connect_main. writes_tac; at_stage_tac. }
  apply writes_seq; [apply writes_allocate_arrays|].
  apply writes_seq.
  { apply (Hw 4%nat); [lia|]. apply writes_for_loop. intros i.
    unfold prepare_slot. writes_tac; at_stage_tac. }
  apply writes_seq; [apply writes_install_handlers|].
  apply writes_seq.
  { apply (Hw 5%nat); [lia|]. apply writes_for_loop. intros i.
    unfold start_slot. writes_tac; at_stage_tac. }
  apply (Hw 6%nat); [lia|]. unfold run_checker.
  apply writes_seq; [apply writes_act; at_stage_tac|].
  apply writes_seq; [apply poll_at_stage | apply writes_act; at_stage_tac].
Qed.

Lemma attr_release_in_slot (e : Env) (s : locals) (i j : nat) (a : action) :
  In a (slot_release e s j) -> is_attr_release i a = true ->
  i = j /\ exists b, thread_slot s j = Some b.
Proof.
  unfold slot_release. intros Hin Ha. apply in_app_or in Hin. destruct Hin as [Hin|Hin].
  - destruct (thread_slot s j) as [b|]; [|contradiction].
    assert (i = j).
    { destruct Hin as [<-|Hin]; [discriminate|].
      apply in_app_or in Hin. destruct Hin as [Hin|Hin].
      - destruct (negb _); [destruct Hin as [<-|[]]; discriminate | contradiction].
      - destruct Hin as [<-|[<-|[<-|[]]]]; try discriminate;
          cbn in Ha; apply Nat.eqb_eq in Ha; exact Ha. }
    split; [assumption | exists b; reflexivity].
  - destruct (thrdata_slot s j) as [td|]; [|contradiction].
    destruct Hin as [<-|[<-|[]]]; discriminate.
Qed.

(** An attribute object is released only in the slot of a [pthread_t] that
    was allocated. *)
Lemma attr_release_needs_thread (e : Env) (c : Z) (i : nat) (a : action) :
  fst (main e) = Exit c ->
  In a (snd (main e)) -> is_attr_release i a = true ->
  malloc_thread e i = true.
Proof.
  unfold main.
  destruct (keeping_startup e main_locals eq_refl) as [Ht _].
  destruct (startup_before_teardown e main_locals) as (l & El & Fl).
  cbn [main_locals lg out boot app] in El.
  destruct (startup e main_locals) as [f s1]. cbn [fst snd] in Ht, El.
  assert (Hleave : fst (leave e s1) = Exit c -> In a (snd (leave e s1)) ->
                   is_attr_release i a = true -> malloc_thread e i = true).
  { intros Hexit Hin Ha. destruct (thrdata s1) as [arr|] eqn:Harr;
      [|rewrite (leave_undefined e s1 Harr) in Hexit; discriminate].
    rewrite teardown_order in Hin by congruence. cbn [snd] in Hin.
    apply in_app_or in Hin. destruct Hin as [Hin|Hin].
    - rewrite El in Hin. rewrite Forall_forall in Fl. apply list_elem_of_In in Hin.
      destruct (Fl a Hin) as [Hs|Hs]; destruct a; try discriminate; cbn in Hs; lia.
    - apply in_app_or in Hin. destruct Hin as [Hin|Hin].
      + apply in_flat_map in Hin. destruct Hin as (j & _ & Hin).
        destruct (attr_release_in_slot e s1 i j a Hin Ha) as (-> & b & Hb).
        exact (Ht j b Hb).
      + unfold closing in Hin.
        repeat (apply in_app_or in Hin; destruct Hin as [Hin|Hin]);
          try (destruct (_ <? 0));
          repeat (destruct Hin as [<-|Hin]; [discriminate|]); contradiction. }
  destruct f as [| |h]; cbn [fst snd]; [exact Hleave | exact Hleave | discriminate].
Qed.

Lemma count_absent (p : action -> bool) (l : list action) :
  (forall a, In a l -> p a = false) -> count p l = 0%nat.
Proof.
  induction l as [|b l IH]; intros H; [reflexivity|].
  rewrite count_cons, (H b) by (left; reflexivity).
  apply IH. intros a Ha. apply H. right. exact Ha.
Qed.

(** X16.  The tear-down releases the thread attributes of a slot inside the
    test of [threads[i]] (lines 302-312).  So when the allocation of the
    [pthread_t] of a slot fails (line 268), [main] returns without ever
    giving the attributes of that slot, allocated at line 260, to
    [pthread_attr_destroy] or to [free]. *)
Theorem attributes_kept_without_thread (e : Env) (c : Z) (i : nat) :
  fst (main e) = Exit c ->
  malloc_thread e i = false ->
  count (is_attr_release i) (snd (main e)) = 0%nat.
Proof.
  intros Hexit Hm. apply count_absent. intros a Hin.
  destruct (is_attr_release i a) eqn:Ha; [|reflexivity].
  rewrite (attr_release_needs_thread e c i a Hexit Hin Ha) in Hm. discriminate.
Qed.

Lemma attributes_kept_without_thread_witness :
  fst (main third_thread_unallocated) = Exit 2 /\
  In (MallocAttr 2) (snd (main third_thread_unallocated)) /\
  count (is_attr_release 2) (snd (main third_thread_unallocated)) = 0%nat.
Proof.
  assert (H : fst (main third_thread_unallocated) = Exit 2) by (vm_compute; reflexivity).
  split; [exact H|].
  split; [vm_compute; repeat first [left; reflexivity | right]|].
  apply (attributes_kept_without_thread third_thread_unallocated 2 2 H). reflexivity.
Defined.

(** ** The order of the calls of the polling loop *)

Lemma gaps_app (p r : action -> bool) (q : bool) (l l' : list action) :
  gaps p r q (l ++ l') =
  match gaps p r q l with Some q' => gaps p r q' l' | None => None end.
Proof.
  revert q. induction l as [|a l IH]; intros q; [reflexivity|].
  cbn [app gaps]. destruct (p a); [destruct q; [reflexivity | apply IH]|].
  destruct (r a); apply IH.
Qed.

Lemma gaps_lines (p r : action -> bool) (q : bool) (l rest : list action) :
  (forall a, is_signal_line a = true -> p a = false /\ r a = false) ->
  Forall (fun a => is_signal_line a = true) l ->
  gaps p r q (l ++ rest) = gaps p r q rest.
Proof.
  intros Hpr H. induction H as [|a l Ha _ IH]; [reflexivity|].
  cbn [app gaps]. destruct (Hpr a Ha) as [-> ->]. exact IH.
Qed.

Lemma signal_line_unordered (a : action) :
  is_signal_line a = true ->
  (is_get a = false /\ claim_spacer a = false) /\
  (is_any_send a = false /\ send_spacer a = false) /\
  (is_any_free a = false /\ is_get a = false).
Proof. intros H. destruct (signal_line_cases a H) as [-> | ->]; repeat split. Qed.

Lemma gaps_lines_claim (q : bool) (l rest : list action) :
  Forall (fun a => is_signal_line a = true) l ->
  gaps is_get claim_spacer q (l ++ rest) = gaps is_get claim_spacer q rest.
Proof. apply gaps_lines. intros a Ha. apply (signal_line_unordered a Ha). Qed.

Lemma gaps_lines_send (q : bool) (l rest : list action) :
  Forall (fun a => is_signal_line a = true) l ->
  gaps is_any_send send_spacer q (l ++ rest) = gaps is_any_send send_spacer q rest.
Proof. apply gaps_lines. intros a Ha. apply (signal_line_unordered a Ha). Qed.

Lemma gaps_lines_free (q : bool) (l rest : list action) :
  Forall (fun a => is_signal_line a = true) l ->
  gaps is_any_free is_get q (l ++ rest) = gaps is_any_free is_get q rest.
Proof. apply gaps_lines. intros a Ha. apply (signal_line_unordered a Ha). Qed.

Lemma gaps_only_lines (p r : action -> bool) (q : bool) (l : list action) :
  (forall a, is_signal_line a = true -> p a = false /\ r a = false) ->
  Forall (fun a => is_signal_line a = true) l ->
  gaps p r q l = Some q.
Proof. intros Hpr H. rewrite <- (app_nil_r l). rewrite gaps_lines by assumption. reflexivity. Qed.

(** A pending call is settled only by a call [r]. *)
Lemma gaps_settled (p r : action -> bool) (l : list action) :
  gaps p r true l = Some false -> existsb r l = true.
Proof.
  induction l as [|a l IH]; cbn [gaps existsb]; [discriminate|].
  destruct (p a); [discriminate|].
  destruct (r a); [reflexivity | exact IH].
Qed.

(** What [gaps] computes: between two calls [p] there is a call [r]. *)
Lemma gaps_between (p r : action -> bool) (q : bool) (l1 l2 l3 : list action) (a b : action) :
  p a = true -> p b = true ->
  gaps p r q (l1 ++ a :: l2 ++ b :: l3) <> None ->
  existsb r l2 = true.
Proof.
  intros Ha Hb. rewrite gaps_app. destruct (gaps p r q l1) as [q1|]; [|congruence].
  cbn [gaps]. rewrite Ha. destruct q1; [congruence|].
  rewrite gaps_app. destruct (gaps p r true l2) as [[|]|] eqn:E; [| |congruence].
  - cbn [gaps]. rewrite Hb. congruence.
  - intros _. apply (gaps_settled p r l2 E).
Qed.

Ltac read_trace :=
  repeat first
    [ rewrite gaps_lines_claim by assumption
    | rewrite gaps_lines_send by assumption
    | rewrite gaps_lines_free by assumption
    | rewrite gaps_only_lines
        by first [assumption | intros ? Hline; apply (signal_line_unordered _ Hline)]
    | progress cbn [gaps app is_get claim_spacer send_spacer is_any_send is_any_free] ].

Ltac settle_order :=
  match goal with
  | H1 : gaps is_get claim_spacer false ?l0 = Some _,
    H2 : gaps is_any_send send_spacer false ?l0 = Some _,
    H3 : gaps is_any_free is_get false ?l0 = Some _ |- _ =>
      unfold in_order;
      rewrite (gaps_app is_get claim_spacer false l0), H1,
              (gaps_app is_any_send send_spacer false l0), H2,
              (gaps_app is_any_free is_get false l0), H3
  end;
  read_trace; cbn [at_];
  do 3 eexists; repeat split; reflexivity.

(** One step keeps the calls in order. *)
Lemma step_in_order (s : pstate) (t : tick) (l0 : list action) :
  in_order s l0 ->
  exists l, out (pg (step s t)) = out (pg s) ++ l /\ in_order (step s t) (l0 ++ l).
Proof.
  intros (q1 & q2 & q3 & H1 & H2 & H3 & H4). unfold step.
  destruct (at_ s) as [| |j0|j0|] eqn:Ha.
  - subst q1. destruct (shutdown (pg s) =? 0).
    + destruct (job_ret t) as [j|]; [destruct (status j)|];
        cbn [bail_out pg out emit set_shutdown];
        expose_lines; rewrite <- ?app_assoc;
        (eexists; split; [reflexivity|]); settle_order.
    + exists []. rewrite !app_nil_r. split; [reflexivity|].
      exists false, q2, q3. cbn [at_]. auto.
  - subst q1. destruct (notify_ret t <? 1); cbn [bail_out pg out emit set_shutdown];
      expose_lines; rewrite <- ?app_assoc;
      (eexists; split; [reflexivity|]); settle_order.
  - destruct H4 as [-> ->].
    destruct ((send_ret t <? 0) && negb (send_errno t =? EAGAIN));
      [|destruct (send_errno t =? EAGAIN)];
      cbn [bail_out pg out emit set_shutdown];
      expose_lines; rewrite <- ?app_assoc;
      (eexists; split; [reflexivity|]); settle_order.
  - destruct H4 as (-> & -> & ->).
    destruct (_ =? EAGAIN); cbn [bail_out pg out emit set_shutdown];
      expose_lines; rewrite <- ?app_assoc;
      (eexists; split; [reflexivity|]); settle_order.
  - exists []. rewrite !app_nil_r. split; [reflexivity|].
    exists q1, q2, q3. rewrite Ha. auto.
Qed.

Lemma run_in_order (ts : list tick) (s : pstate) (l0 : list action) :
  in_order s l0 ->
  exists l, out (pg (run ts s)) = out (pg s) ++ l /\ in_order (run ts s) (l0 ++ l).
Proof.
  revert s l0. induction ts as [|t ts IH]; intros s l0 H.
  - exists []. rewrite app_nil_r. cbn. rewrite app_nil_r. auto.
  - rewrite run_cons. destruct (step_in_order s t l0 H) as (l1 & E1 & H1).
    destruct (IH (step s t) (l0 ++ l1) H1) as (l2 & E2 & H2).
    exists (l1 ++ l2). rewrite E2, E1, <- app_assoc. split; [reflexivity|].
    rewrite app_assoc. exact H2.
Qed.

Lemma performed_in_order (g : globals) (ts : list tick) :
  in_order (run ts (enter g)) (performed g ts).
Proof.
  destruct (run_in_order ts (enter g) []) as (l & E & H).
  { exists false, false, false. cbn. auto. }
  unfold performed, added. rewrite E, drop_app_length. exact H.
Qed.

(** X17.  The polling loop never claims twice in a row: between two calls of
    [db_get_submissionqueue_job] of a run it has waited for a notification
    or sent a job to the queue, so it does not poll the table in a tight
    loop. *)
Theorem claims_are_spaced (g : globals) (ts : list tick) (l1 l2 l3 : list action) :
  performed g ts = l1 ++ GetJob :: l2 ++ GetJob :: l3 ->
  existsb claim_spacer l2 = true.
Proof.
  intros E. destruct (performed_in_order g ts) as (q1 & _ & _ & H & _).
  apply (gaps_between is_get claim_spacer false l1 l2 l3 GetJob GetJob);
    [reflexivity | reflexivity|].
  rewrite <- E, H. discriminate.
Qed.

Lemma claims_are_spaced_witness :
  existsb claim_spacer
    [FreeJob no_job; WaitNotification addr_shutdown "rteval_submq"] = true.
Proof.
  apply (claims_are_spaced boot [job_found no_job; notified; job_found job7]
           [] _ [Stderr msg_new_job]).
  vm_compute. reflexivity.
Defined.

(** X18.  The polling loop never sends twice in a row: between two calls of
    [mq_send] of a run there is a sleep, when the same job is sent again
    after the queue was full, or a claim, when the next job is sent. *)
Theorem sends_are_spaced (g : globals) (ts : list tick) (l1 l2 l3 : list action)
    (j j' : parseJob_t) :
  performed g ts = l1 ++ MqSend j :: l2 ++ MqSend j' :: l3 ->
  existsb send_spacer l2 = true.
Proof.
  intros E. destruct (performed_in_order g ts) as (_ & q2 & _ & _ & H & _).
  apply (gaps_between is_any_send send_spacer false l1 l2 l3 (MqSend j) (MqSend j'));
    [reflexivity | reflexivity|].
  rewrite <- E, H. discriminate.
Qed.

Lemma sends_are_spaced_witness :
  existsb send_spacer [Stderr msg_queue_full; Sleep 60] = true.
Proof.
  apply (sends_are_spaced boot [job_found job7; send_full; quiet; send_ok]
           [GetJob; Stderr msg_new_job] _ [FreeJob job7] job7 job7).
  vm_compute. reflexivity.
Defined.

(** X19.  The polling loop never frees twice in a row: between two calls of
    [free_nullsafe] on a job of a run there is a claim. *)
Theorem frees_are_spaced (g : globals) (ts : list tick) (l1 l2 l3 : list action)
    (j j' : parseJob_t) :
  performed g ts = l1 ++ FreeJob j :: l2 ++ FreeJob j' :: l3 ->
  existsb is_get l2 = true.
Proof.
  intros E. destruct (performed_in_order g ts) as (_ & _ & q3 & _ & _ & H & _).
  apply (gaps_between is_any_free is_get false l1 l2 l3 (FreeJob j) (FreeJob j'));
    [reflexivity | reflexivity|].
  rewrite <- E, H. discriminate.
Qed.

Lemma frees_are_spaced_witness :
  existsb is_get
    [WaitNotification addr_shutdown "rteval_submq"; GetJob; Stderr msg_new_job;
     MqSend job7] = true.
Proof.
  apply (frees_are_spaced boot [job_found no_job; notified; job_found job7; send_ok]
           [GetJob] _ [] no_job job7).
  vm_compute. reflexivity.
Defined.

(** ** The exit path before the arrays are there *)

Lemma sound_leaves (m : M) :
  leaves_slots m -> (forall s, fst (m s) <> Halt Undefined) -> sound m.
Proof.
  intros Hm Hf s Hs. destruct (Hm s) as [Ht _]. split; [|apply Hf].
  unfold assigned. rewrite Ht. exact Hs.
Qed.

Lemma sound_seq (a b : M) : sound a -> sound b -> sound (a >> b).
Proof.
  intros Ha Hb s Hs. unfold seqM. destruct (Ha s Hs) as [A1 F1].
  destruct (a s) as [[| |h] s1]; cbn [fst snd] in *;
    [apply Hb, A1 | split; [exact A1 | discriminate] | split; [exact A1 | exact F1]].
Qed.

Lemma sound_for_loop (body : nat -> M) (n from : nat) :
  (forall i, sound (body i)) -> sound (for_loop from n body).
Proof.
  intros H. revert from. induction n as [|n IH]; intros from; cbn [for_loop].
  - intros s Hs. split; [exact Hs | discriminate].
  - apply sound_seq; [apply H | apply IH].
Qed.

Lemma sound_prepare_slot (e : Env) (i : nat) : sound (prepare_slot e i).
Proof.
  intros s Hs. unfold assigned in *.
  unfold prepare_slot, seqM, act, upd, fail_with, goto_exit.
  destruct (malloc_thrdata e i), (db_connect_thread e i), (malloc_attr e i),
    (malloc_thread e i); cbn;
    (split; [first [exact Hs | destruct (thrdata s); [discriminate | contradiction]]
            | discriminate]).
Qed.

Lemma sound_start_slot (e : Env) (i : nat) : sound (start_slot e i).
Proof.
  intros s Hs. unfold start_slot, seqM, act, upd, when, fail_with, goto_exit.
  destruct (pthread_create_ret e i <? 0); cbn; (split; [exact Hs | discriminate]).
Qed.

Lemma sound_run_checker (e : Env) : sound (run_checker e).
Proof.
  intros s Hs. unfold run_checker, seqM, act, poll.
  destruct (process_submission_queue _ _) as [[v|] g]; cbn;
    (split; [exact Hs | discriminate]).
Qed.

(** Once the arrays are there, the exit path finds them. *)
Lemma assigned_returns (e : Env) (s : locals) :
  assigned s ->
  fst (match (for_loop 0 max_threads (prepare_slot e) >>
              install_handlers >>
              for_loop 0 max_threads (start_slot e) >>
              run_checker e) s with
       | (Halt h, s') => (Halted h, out (lg s'))
       | (_, s') => leave e s'
       end) <> Halted Undefined.
Proof.
  intros Hs.
  assert (H : sound (for_loop 0 max_threads (prepare_slot e) >>
                     install_handlers >>
                     for_loop 0 max_threads (start_slot e) >>
                     run_checker e)).
  { apply sound_seq; [apply sound_for_loop, sound_prepare_slot|].
    apply sound_seq.
    { intros s' Hs'. split; [exact Hs' | discriminate]. }
    apply sound_seq; [apply sound_for_loop, sound_start_slot | apply sound_run_checker]. }
  destruct (H s Hs) as [A F].
  destruct ((for_loop 0 max_threads (prepare_slot e) >>
             install_handlers >>
             for_loop 0 max_threads (start_slot e) >>
             run_checker e) s) as [[| |h] s1]; cbn [fst snd] in *.
  - rewrite teardown_order by exact A. discriminate.
  - rewrite teardown_order by exact A. discriminate.
  - intros E. apply F. congruence.
Qed.

(** X20.  [thrdata] is declared without an initialiser (line 184) and first
    assigned at line 227.  [main] ends on the exit path reading it while it
    is still unassigned (line 315) exactly when the start-up fails before
    that line: when the stylesheet cannot be parsed, the queue cannot be
    opened, or the connection of the main thread cannot be made.  In every
    other run the exit path finds the arrays. *)
Theorem early_failure_reads_unassigned (e : Env) :
  fst (main e) = Halted Undefined <->
  (stylesheet_parses e (snprintf_path xsltfile_limit (xsltpath e) XMLPARSER_XSL) = false \/
   mq_open_ret e < 0 \/
   db_connect_main e = false).
Proof.
  unfold main, startup, seqM at 1 2 3 4.
  cbn [initialise acts main_locals].
  unfold parse_template, seqM at 1. cbn [act].
  destruct (stylesheet_parses e _) eqn:Hx; cbn [negb when skip];
    [|split; [intros _; left; reflexivity | intros _; reflexivity]].
  unfold open_queue, seqM at 1 2. cbn [acts act].
  destruct (Z.ltb_spec (mq_open_ret e) 0) as [Hq|Hq]; cbn [when skip];
    [split; [intros _; right; left; exact Hq | intros _; reflexivity]|].
  unfold connect_main, seqM at 1. cbn [act].
  destruct (db_connect_main e) eqn:Hd;
    [|split; [intros _; right; right; reflexivity | intros _; reflexivity]].
  cbn [upd]. unfold allocate_arrays.
  destruct (calloc_ok e); cbn [upd halt].
  - split.
    + intros H. exfalso. revert H. apply assigned_returns. discriminate.
    + intros [H|[H|H]]; [discriminate | lia | discriminate].
  - split; [discriminate|].
    intros [H|[H|H]]; [discriminate | lia | discriminate].
Qed.

Lemma early_failure_reads_unassigned_witness :
  mq_open_ret queue_unopenable < 0 /\
  fst (main queue_unopenable) = Halted Undefined.
Proof.
  assert (H : mq_open_ret queue_unopenable < 0) by (vm_compute; reflexivity).
  split; [exact H|].
  apply (early_failure_reads_unassigned queue_unopenable). right. left. exact H.
Defined.

(** ** A signal caught while the loop is in a call *)

Lemma late_seen (p : action -> bool) (l : list action) : late p true l = count p l.
Proof.
  induction l as [|a l IH]; [reflexivity|].
  cbn [late]. rewrite count_cons, IH. reflexivity.
Qed.

Lemma late_le_count (p : action -> bool) (seen : bool) (l : list action) :
  (late p seen l <= count p l)%nat.
Proof.
  revert seen. induction l as [|a l IH]; intros seen; [cbn; lia|].
  cbn [late]. rewrite count_cons. destruct seen.
  - rewrite late_seen. lia.
  - specialize (IH (is_start a)). lia.
Qed.

Lemma started_seen (l : list action) : started true l = true.
Proof. induction l as [|a l IH]; [reflexivity | exact IH]. Qed.

Lemma started_app (seen : bool) (l l' : list action) :
  started seen (l ++ l') = started (started seen l) l'.
Proof. revert seen. induction l as [|a l IH]; intros seen; [reflexivity | apply IH]. Qed.

Lemma late_app (p : action -> bool) (seen : bool) (l l' : list action) :
  late p seen (l ++ l') = (late p seen l + late p (started seen l) l')%nat.
Proof.
  revert seen. induction l as [|a l IH]; intros seen; [reflexivity|].
  cbn [app late started]. destruct seen; cbn [orb].
  - rewrite IH. lia.
  - apply IH.
Qed.

Lemma late_not_started (p : action -> bool) (l : list action) :
  started false l = false -> late p false l = 0%nat.
Proof.
  induction l as [|a l IH]; [reflexivity|].
  cbn [started late orb]. destruct (is_start a); [|exact IH].
  rewrite started_seen. discriminate.
Qed.

(** What [late] counts: everything that follows a "starting" line. *)
Lemma late_after (p : action -> bool) (l1 l2 : list action) :
  (count p l2 <= late p false (l1 ++ Stderr msg_starting :: l2))%nat.
Proof.
  rewrite late_app. destruct (started false l1); cbn [late].
  - rewrite late_seen. lia.
  - change (is_start (Stderr msg_starting)) with true. rewrite late_seen. lia.
Qed.

Lemma signal_lines_not_started (l : list action) :
  Forall (fun a => is_signal_line a = true) l ->
  count is_claim l = 0%nat /\ count is_wait l = 0%nat.
Proof. intros H. destruct (lines_off_books l H) as (_ & Hw & _ & _ & Hc). auto. Qed.

(** When the catcher has written its "starting" line, the flag is set. *)
Lemma deliver_started (sigs : list Z) (g : globals) :
  exists l, out (deliver sigs g) = out g ++ l /\
            Forall (fun a => is_signal_line a = true) l /\
            (started false l = true -> shutdown (deliver sigs g) <> 0).
Proof.
  revert g. induction sigs as [|sig sigs IH]; intros g.
  - exists []. cbn. rewrite app_nil_r. repeat split; [constructor | discriminate].
  - rewrite deliver_cons. destruct (IH (sigcatch sig g)) as (l & E & F & S).
    rewrite sigcatch_out in E. eexists. rewrite E, <- app_assoc.
    split; [reflexivity|]. split.
    + constructor; [|exact F]. destruct (shutdown g =? 0); reflexivity.
    + cbn [app started orb]. destruct (Z.eqb_spec (shutdown g) 0) as [H0|Hn].
      * intros _. destruct (deliver_set sigs (sigcatch sig g)) as [Hk _].
        { rewrite sigcatch_shutdown, H0. discriminate. }
        rewrite Hk, sigcatch_shutdown, H0. discriminate.
      * change (is_start (Stderr msg_in_progress)) with false. exact S.
Qed.

Lemma deliver_emit_started (sigs : list Z) (a : action) (g : globals) :
  exists l, out (deliver sigs (emit a g)) = out g ++ a :: l /\
            Forall (fun a => is_signal_line a = true) l /\
            (started false l = true -> shutdown (deliver sigs (emit a g)) <> 0).
Proof.
  destruct (deliver_started sigs (emit a g)) as (l & E & F & S).
  exists l. split; [|split; assumption].
  rewrite E. cbn. rewrite <- app_assoc. reflexivity.
Qed.

(** The calls of one step around the lines of the catcher: [a] before them,
    [tail] after them. *)
Lemma late_frame (p : action -> bool) (a : action) (l tail : list action) :
  is_start a = false ->
  Forall (fun a => is_signal_line a = true) l ->
  (late p false (a :: l ++ tail) <= count p l + count p tail)%nat.
Proof.
  intros Ha _. cbn [late]. rewrite Ha, late_app.
  pose proof (late_le_count p false l). pose proof (late_le_count p (started false l) tail).
  lia.
Qed.

Lemma started_frame (a : action) (l tail : list action) :
  is_start a = false -> existsb is_start tail = false ->
  started false (a :: l ++ tail) = started false l.
Proof.
  intros Ha Ht. cbn [started orb]. rewrite Ha, started_app.
  generalize (started false l). induction tail as [|b tail IH]; intros seen; [reflexivity|].
  cbn [existsb] in Ht. apply orb_false_iff in Ht. destruct Ht as [Hb Ht].
  cbn [started]. rewrite Hb, orb_false_r. apply IH, Ht.
Qed.

Lemma started_lines_frame (l tail : list action) :
  existsb is_start tail = false ->
  started false (l ++ tail) = started false l.
Proof.
  intros Ht. rewrite started_app.
  generalize (started false l). induction tail as [|b tail IH]; intros seen; [reflexivity|].
  cbn [existsb] in Ht. apply orb_false_iff in Ht. destruct Ht as [Hb Ht].
  cbn [started]. rewrite Hb, orb_false_r. apply IH, Ht.
Qed.

Ltac expose_started :=
  repeat match goal with
    | |- context [out (deliver ?sigs (emit ?a ?g))] =>
        let l := fresh "l" in
        let E := fresh "E" in
        let F := fresh "F" in
        let S := fresh "S" in
        destruct (deliver_emit_started sigs a g) as (l & E & F & S); rewrite E; clear E
    | |- context [out (deliver ?sigs ?g)] =>
        let l := fresh "l" in
        let E := fresh "E" in
        let F := fresh "F" in
        let S := fresh "S" in
        destruct (deliver_started sigs g) as (l & E & F & S); rewrite E; clear E
    end.

(** The calls of a step: at most one call before the lines of the catcher,
    and what follows them. *)
Lemma honoured_frame (head : list action) (l tail : list action) (flag : Z) :
  (length head <= 1)%nat ->
  existsb is_start head = false ->
  Forall (fun a => is_signal_line a = true) l ->
  count is_claim tail = 0%nat -> (count is_wait tail <= 1)%nat ->
  existsb is_start tail = false ->
  (started false l = true -> flag <> 0) ->
  late is_claim false (head ++ l ++ tail) = 0%nat /\
  (late is_wait false (head ++ l ++ tail) <= 1)%nat /\
  (started false (head ++ l ++ tail) = true -> flag <> 0).
Proof.
  intros Hh Hs F Hc Hw Ht S.
  destruct (signal_lines_not_started l F) as [Lc Lw].
  destruct head as [|a [|b head]]; [| |cbn in Hh; lia]; cbn [app].
  - pose proof (late_le_count is_claim false (l ++ tail)) as H1.
    pose proof (late_le_count is_wait false (l ++ tail)) as H2.
    rewrite count_app in H1, H2. rewrite started_lines_frame by exact Ht.
    split; [lia|]. split; [lia | exact S].
  - cbn [existsb] in Hs. apply orb_false_iff in Hs. destruct Hs as [Ha _].
    pose proof (late_frame is_claim a l tail Ha F) as H1.
    pose proof (late_frame is_wait a l tail Ha F) as H2.
    rewrite started_frame by assumption.
    split; [lia|]. split; [lia | exact S].
Qed.

Ltac frame_step :=
  match goal with
  | |- late _ false ((?a :: ?l) ++ ?tail) = _ /\ _ /\ (_ -> ?f <> 0) =>
      apply (honoured_frame [a] l tail f)
  | |- late _ false (?a :: ?l) = _ /\ _ /\ (_ -> ?f <> 0) =>
      rewrite <- (app_nil_r (a :: l)); apply (honoured_frame [a] l [] f)
  | |- late _ false (?l ++ ?tail) = _ /\ _ /\ (_ -> ?f <> 0) =>
      apply (honoured_frame [] l tail f)
  | |- late _ false ?l = _ /\ _ /\ (_ -> ?f <> 0) =>
      rewrite <- (app_nil_r l); apply (honoured_frame [] l [] f)
  end;
  first [ assumption
        | reflexivity
        | vm_compute; reflexivity
        | vm_compute; lia
        | cbn; lia
        | intros _; discriminate ].

Lemma step_from_clear (s : pstate) (t : tick) :
  shutdown (pg s) = 0 ->
  exists d, out (pg (step s t)) = out (pg s) ++ d /\
            late is_claim false d = 0%nat /\
            (late is_wait false d <= 1)%nat /\
            (started false d = true -> shutdown (pg (step s t)) <> 0).
Proof.
  intros H0. unfold step.
  destruct (at_ s) as [| |j0|j0|].
  - rewrite H0. cbn [Z.eqb].
    destruct (job_ret t) as [j|]; [destruct (status j)|];
      cbn [bail_out pg out emit set_shutdown shutdown];
      expose_started; rewrite <- ?app_assoc;
      (eexists; split; [reflexivity|]); frame_step.
  - destruct (notify_ret t <? 1); cbn [bail_out pg out emit set_shutdown shutdown];
      expose_started; rewrite <- ?app_assoc;
      (eexists; split; [reflexivity|]); frame_step.
  - destruct ((send_ret t <? 0) && negb (send_errno t =? EAGAIN));
      [|destruct (send_errno t =? EAGAIN)];
      cbn [bail_out pg out emit set_shutdown shutdown];
      expose_started; rewrite <- ?app_assoc;
      (eexists; split; [reflexivity|]); frame_step.
  - destruct (_ =? EAGAIN); cbn [bail_out pg out emit set_shutdown shutdown];
      expose_started; rewrite <- ?app_assoc;
      (eexists; split; [reflexivity|]); frame_step.
  - exists []. rewrite app_nil_r. cbn. split; [reflexivity|].
    split; [reflexivity|]. split; [lia | discriminate].
Qed.

Lemma step_honoured (s : pstate) (t : tick) (l0 : list action) :
  honoured s l0 ->
  exists d, out (pg (step s t)) = out (pg s) ++ d /\ honoured (step s t) (l0 ++ d).
Proof.
  intros (Hc & Hw & Hs).
  destruct (Z.eq_dec (shutdown (pg s)) 0) as [H0|Hn].
  - assert (Hno : started false l0 = false).
    { destruct (started false l0); [|reflexivity]. exfalso. apply Hs; [reflexivity | exact H0]. }
    destruct (step_from_clear s t H0) as (d & E & Dc & Dw & Ds).
    exists d. split; [exact E|]. unfold honoured.
    rewrite !late_app, started_app, Hno, !(late_not_started _ l0 Hno).
    split; [exact Dc|]. split; [exact Dw | exact Ds].
  - destruct (step_no_claim s t Hn) as (d & E & Dc & Dw).
    exists d. split; [exact E|]. unfold honoured. rewrite !late_app.
    pose proof (late_le_count is_claim (started false l0) d).
    pose proof (late_le_count is_wait (started false l0) d).
    split; [lia|]. split; [lia|]. intros _. apply flag_stays_nonzero, Hn.
Qed.

Lemma run_honoured (ts : list tick) (s : pstate) (l0 : list action) :
  honoured s l0 ->
  exists d, out (pg (run ts s)) = out (pg s) ++ d /\ honoured (run ts s) (l0 ++ d).
Proof.
  revert s l0. induction ts as [|t ts IH]; intros s l0 H.
  - exists []. rewrite app_nil_r. cbn. rewrite app_nil_r. auto.
  - rewrite run_cons. destruct (step_honoured s t l0 H) as (l1 & E1 & H1).
    destruct (IH (step s t) (l0 ++ l1) H1) as (l2 & E2 & H2).
    exists (l1 ++ l2). rewrite E2, E1, <- app_assoc. split; [reflexivity|].
    rewrite app_assoc. exact H2.
Qed.

Lemma performed_honoured (g : globals) (ts : list tick) :
  honoured (run ts (enter g)) (performed g ts).
Proof.
  destruct (run_honoured ts (enter g) []) as (l & E & H).
  { split; [reflexivity|]. split; [cbn; lia | discriminate]. }
  unfold performed, added. rewrite E, drop_app_length. exact H.
Qed.

(** X21.  A signal caught while the polling loop is in one of its calls is
    honoured at the next test of the loop: after the line the catcher writes
    when it sets the flag, the loop makes no further claim and starts at
    most one wait, the wait that follows a claim which was in progress when
    the signal came and found no job. *)
Theorem signal_honoured_at_next_test (g : globals) (ts : list tick) (l1 l2 : list action) :
  performed g ts = l1 ++ Stderr msg_starting :: l2 ->
  count is_claim l2 = 0%nat /\ (count is_wait l2 <= 1)%nat.
Proof.
  intros E. destruct (performed_honoured g ts) as (Hc & Hw & _).
  rewrite E in Hc, Hw.
  pose proof (late_after is_claim l1 l2). pose proof (late_after is_wait l1 l2).
  split; lia.
Qed.

Lemma signal_honoured_at_next_test_witness :
  count is_claim [FreeJob no_job; WaitNotification addr_shutdown "rteval_submq"] = 0%nat /\
  (count is_wait [FreeJob no_job; WaitNotification addr_shutdown "rteval_submq"] <= 1)%nat.
Proof.
  apply (signal_honoured_at_next_test boot
           [on_signal SIGTERM (job_found no_job); notified; quiet] [GetJob]).
  vm_compute. reflexivity.
Defined.

(** ** The start-up, call by call *)


Lemma calls_stderr (l : list action) :
  Forall (fun a => is_stderr a = true) l -> calls l = [].
Proof.
  intros H. induction H as [|a l Ha _ IH]; [reflexivity|].
  unfold calls in *. rewrite filter_cons, decide_False by congruence. exact IH.
Qed.







(** ** The queue is opened once *)


